(** * AI GENESIS (script.js): session store, rolling memory, markdown renderer
      and generation client, as a shallow embedding.

    JavaScript values are modelled by the JSON values that reach the code
    (everything the store reads comes from [JSON.parse]); [undefined] is the
    [None] of [option json].  An exception that the engine raises is the
    [Throw] of [result], with the name of its class; the text of its
    message, which each engine words in its own way, is an input of the
    one operation that reads it.  The clock and the random source are
    explicit inputs ([Entropy]). *)

From Stdlib Require Import ZArith QArith Ascii String.
From stdpp Require Import base option list strings pretty.

Set Warnings "-register-all".

Open Scope Z_scope.

(** ** JavaScript values *)

(** A number is given by the text [String] prints for it - [0] for zero,
    the exponent form for a large one, never the empty text: the program
    only tests a number for zero, compares it and prints it.  An object is
    the list of its own properties, each name once. *)
Inductive json : Type :=
| JNull
| JBool (b : bool)
| JNum (printed : string)
| JStr (s : string)
| JArr (elems : list json)
| JObj (props : list (string * json)).

(** A value is a JSON value or [undefined]. *)
Definition value : Type := option json.

Inductive result (A : Type) : Type :=
| Ok (a : A)
| Throw (err : string).

Arguments Ok {A} a.
Arguments Throw {A} err.

Definition bind {A B} (c : result A) (k : A -> result B) : result B :=
  match c with
  | Ok a => k a
  | Throw e => Throw e
  end.

Notation "x <- c1 ;; c2" := (bind c1 (fun x => c2))
  (at level 100, c1 at next level, right associativity).

Definition TypeError : string := "TypeError".

(** ToBoolean. *)
Definition truthy (v : value) : bool :=
  match v with
  | None => false
  | Some JNull => false
  | Some (JBool b) => b
  | Some (JNum n) => negb (String.eqb n "0")
  | Some (JStr s) => negb (String.eqb s "")
  | Some (JArr _) => true
  | Some (JObj _) => true
  end.

Fixpoint assoc (k : string) (props : list (string * json)) : value :=
  match props with
  | [] => None
  | (k', v) :: rest => if String.eqb k k' then Some v else assoc k rest
  end.

(** [v?.k]: [undefined] on [null] and [undefined]; primitives and arrays
    have none of the property names the program reads. *)
Definition optGet (k : string) (v : value) : value :=
  match v with
  | Some (JObj props) => assoc k props
  | _ => None
  end.

(** [v.k]: a TypeError on [null] and [undefined]. *)
Definition get (k : string) (v : value) : result value :=
  match v with
  | None | Some JNull => Throw TypeError
  | _ => Ok (optGet k v)
  end.

Fixpoint join (sep : string) (l : list string) : string :=
  match l with
  | [] => ""
  | [s] => s
  | s :: rest => s +:+ sep +:+ join sep rest
  end.

(** [String(v)] on a JSON value.  An object prints as [[object Object]],
    through the method it inherits; when it has a property of its own named
    [toString] - which, coming from JSON, is no function - the conversion
    finds no method to call and throws a TypeError.  An array prints its
    elements separated by commas, [null] elements as the empty string, and
    throws when the conversion of an element does. *)
Fixpoint toString (v : json) : result string :=
  match v with
  | JNull => Ok "null"
  | JBool true => Ok "true"
  | JBool false => Ok "false"
  | JNum n => Ok n
  | JStr s => Ok s
  | JArr l =>
      texts <- (fix each (es : list json) : result (list string) :=
                  match es with
                  | [] => Ok []
                  | e :: rest =>
                      t <- match e with
                           | JNull => Ok ""
                           | _ => toString e
                           end ;;
                      ts <- each rest ;;
                      Ok (t :: ts)
                  end) l ;;
      Ok (join "," texts)
  | JObj props =>
      match assoc "toString" props with
      | Some _ => Throw TypeError
      | None => Ok "[object Object]"
      end
  end.

(** [a || b] where [b] is defined. *)
Definition or_else (a : value) (b : json) : json :=
  match a with
  | Some j => if truthy a then j else b
  | None => b
  end.

(** [a === b] where one side was freshly parsed from storage: arrays and
    objects are compared by reference, so they are never equal to the other
    side. *)
Definition strictEq (a b : value) : bool :=
  match a, b with
  | None, None => true
  | Some JNull, Some JNull => true
  | Some (JBool x), Some (JBool y) => Bool.eqb x y
  | Some (JNum x), Some (JNum y) => String.eqb x y
  | Some (JStr x), Some (JStr y) => String.eqb x y
  | _, _ => false
  end.

(** ** Ids *)

(** One reading of the clock and of the random source: [isoBody] is the
    date and time of [toISOString] before its final [Z], [timeHex] is
    [Date.now().toString(16)], [randHex] is
    [Math.random().toString(16).slice(2)]. *)
Record Entropy : Type := {
  isoBody : string;
  timeHex : string;
  randHex : string
}.

Definition uid (e : Entropy) (prefix : string) : string :=
  prefix +:+ "_" +:+ timeHex e +:+ "_" +:+ randHex e.

Definition nowIso (e : Entropy) : string := isoBody e +:+ "Z".

(** ** SessionStore *)

Record Session : Type := {
  id : string;
  title : string;
  createdAt : string;
  updatedAt : string;
  messages : list json
}.

(** The object a session is when it is put in the collection. *)
Definition toJson (s : Session) : json :=
  JObj [("id", JStr (id s)); ("title", JStr (title s));
        ("createdAt", JStr (createdAt s)); ("updatedAt", JStr (updatedAt s));
        ("messages", JArr (messages s))].

(** The two keys of the store. [sessionsItem] is the parsed content of
    [genesis.sessions], [None] when the key is absent, empty or does not
    parse ([getJson] returns its fallback in each case); [activeItem] is
    the string under [genesis.activeSessionId]. *)
Record Storage : Type := {
  sessionsItem : option json;
  activeItem : option string
}.

Definition loadAll (st : Storage) : list json :=
  match sessionsItem st with
  | Some (JArr sessions) => sessions
  | _ => []
  end.

Definition saveAll (sessions : list json) (st : Storage) : Storage :=
  {| sessionsItem := Some (JArr sessions); activeItem := activeItem st |}.

Definition getActiveId (st : Storage) : string :=
  match activeItem st with
  | Some v => v
  | None => ""
  end.

Definition setActiveId (i : string) (st : Storage) : Storage :=
  {| sessionsItem := sessionsItem st; activeItem := Some i |}.

Definition ensureShape (e : Entropy) (s : value) : result Session :=
  let now := nowIso e in
  i <- toString (or_else (optGet "id" s) (JStr (uid e "sess"))) ;;
  t <- toString (or_else (optGet "title" s) (JStr "Session")) ;;
  c <- toString (or_else (optGet "createdAt" s) (JStr now)) ;;
  u <- toString (or_else (optGet "updatedAt" s) (JStr now)) ;;
  Ok {| id := i;
        title := t;
        createdAt := c;
        updatedAt := u;
        messages := match optGet "messages" s with
                    | Some (JArr l) => l
                    | _ => []
                    end |}.

(** The callers pass a string literal or nothing as the title. *)
Definition createNewSession (e : Entropy) (t : option string) : Session :=
  let now := nowIso e in
  {| id := uid e "sess";
     title := match t with
              | Some s => if String.eqb s "" then "New Session" else s
              | None => "New Session"
              end;
     createdAt := now;
     updatedAt := now;
     messages := [] |}.

(** [all.findIndex(p)]: the callback may throw. *)
Fixpoint findIndex {A} (p : A -> result bool) (l : list A) : result (option nat) :=
  match l with
  | [] => Ok None
  | x :: rest =>
      b <- p x ;;
      if b : bool then Ok (Some 0%nat)
      else (r <- findIndex p rest ;; Ok (option_map S r))
  end.

(** [all.find(p)]. *)
Fixpoint find {A} (p : A -> result bool) (l : list A) : result (option A) :=
  match l with
  | [] => Ok None
  | x :: rest =>
      b <- p x ;;
      if b : bool then Ok (Some x) else find p rest
  end.

(** [all.filter(p)]. *)
Fixpoint filterM {A} (p : A -> result bool) (l : list A) : result (list A) :=
  match l with
  | [] => Ok []
  | x :: rest =>
      b <- p x ;;
      r <- filterM p rest ;;
      Ok (if b : bool then x :: r else r)
  end.

(** The callback [(s) => s.id === i]. *)
Definition idIs (i : value) (s : json) : result bool :=
  v <- get "id" (Some s) ;; Ok (strictEq v i).

Definition upsertSession (e : Entropy) (session : value) (st : Storage)
  : result (Storage * Session) :=
  let all := loadAll st in
  shaped <- ensureShape e session ;;
  idx <- findIndex (idIs (Some (JStr (id shaped)))) all ;;
  let all' := match idx with
              | Some i => <[i := toJson shaped]> all
              | None => toJson shaped :: all
              end in
  Ok (saveAll all' st, shaped).

Definition deleteAllSessions (st : Storage) : Storage :=
  setActiveId "" (saveAll [] st).

(** What an operation that may fail after it has written leaves: the
    state, with the value it returns or the name of the exception. *)
Inductive outcome (S A : Type) : Type :=
| Returns (s : S) (a : A)
| Throws (s : S) (err : string).

Arguments Returns {S A} s a.
Arguments Throws {S A} s err.

(** The state an operation leaves. *)
Definition stateOf {S A} (o : outcome S A) : S :=
  match o with
  | Returns s _ => s
  | Throws s _ => s
  end.

(** [deleteOne(id)]: the collection is saved before the pointer is moved,
    and [setActiveId] converts what it is given with [String]. *)
Definition deleteOne (i : string) (st : Storage) : outcome Storage (list json) :=
  match filterM (fun s => b <- idIs (Some (JStr i)) s ;; Ok (negb b)) (loadAll st) with
  | Throw e => Throws st e
  | Ok all =>
      let st1 := saveAll all st in
      if String.eqb (getActiveId st1) i
      then match toString (or_else (optGet "id" (head all)) (JStr "")) with
           | Ok next => Returns (setActiveId next st1) all
           | Throw e => Throws st1 e
           end
      else Returns st1 all
  end.

(** [getById(i)]; [None] is the [null] it returns when nothing is found. *)
Definition getById (e : Entropy) (i : value) (st : Storage) : result (option Session) :=
  found <- find (idIs i) (loadAll st) ;;
  if truthy found then (s <- ensureShape e found ;; Ok (Some s)) else Ok None.

(** [sess.title = ...; sess.updatedAt = ...] on the object [getById] made. *)
Definition withTitle (t : string) (u : string) (s : Session) : Session :=
  {| id := id s; title := t; createdAt := createdAt s; updatedAt := u;
     messages := messages s |}.

Definition slice0 (n : nat) (s : string) : string := String.substring 0 n s.

(** The clock and the random source are read once per call of
    [ensureShape], [createNewSession], [rename] and [addMessage]; [env k]
    is the k-th reading within one operation. *)
Definition rename (env : nat -> Entropy) (i : value) (newTitle : value) (st : Storage)
  : result (Storage * option Session) :=
  found <- getById (env 0%nat) i st ;;
  match found with
  | None => Ok (st, None)
  | Some sess =>
      t <- toString (or_else newTitle (JStr "Session")) ;;
      let sess' := withTitle (slice0 80 t) (nowIso (env 1%nat)) sess in
      r <- upsertSession (env 2%nat) (Some (toJson sess')) st ;;
      Ok (fst r, Some (snd r))
  end.

(** The message literal of [addMessage]. *)
Definition shapeMessage (e : Entropy) (message : value) : result json :=
  t <- toString (or_else (optGet "text" message) (JStr "")) ;;
  Ok (JObj [("id", or_else (optGet "id" message) (JStr (uid e "msg")));
            ("role", JStr (if strictEq (optGet "role" message) (Some (JStr "assistant"))
                           then "assistant" else "user"));
            ("text", JStr t);
            ("ts", or_else (optGet "ts" message) (JStr (nowIso e)))]).

Definition addMessage (env : nat -> Entropy) (sessionId : value) (message : value)
  (st : Storage) : result (Storage * option Session) :=
  found <- getById (env 0%nat) sessionId st ;;
  match found with
  | None => Ok (st, None)
  | Some sess =>
      let now := nowIso (env 1%nat) in
      shaped <- shapeMessage (env 1%nat) message ;;
      let sess' :=
        {| id := id sess; title := title sess; createdAt := createdAt sess;
           updatedAt := now;
           messages := messages sess ++ [shaped] |} in
      r <- upsertSession (env 2%nat) (Some (toJson sess')) st ;;
      Ok (fst r, Some (snd r))
  end.

(** ** Numbers and [Ids.clamp] *)

(** A JavaScript number: NaN, the two infinities, or a finite value (the
    finite doubles are rationals; the sign of zero is not kept). *)
Inductive number : Type :=
| NaN
| NegInf
| Fin (q : Q)
| PosInf.

(** [a <= b], false when either side is NaN. *)
Definition numLe (a b : number) : bool :=
  match a, b with
  | NaN, _ | _, NaN => false
  | NegInf, _ => true
  | _, PosInf => true
  | Fin x, Fin y => Qle_bool x y
  | _, _ => false
  end.

Definition Math_min (a b : number) : number :=
  match a, b with
  | NaN, _ | _, NaN => NaN
  | _, _ => if numLe a b then a else b
  end.

Definition Math_max (a b : number) : number :=
  match a, b with
  | NaN, _ | _, NaN => NaN
  | _, _ => if numLe a b then b else a
  end.

Definition clamp (n min max : number) : number :=
  Math_max min (Math_min max n).

(** ** GeminiService *)

(** The settings object; a field is a number, or absent ([null] or
    [undefined]). *)
Record Settings : Type := {
  apiKey : string;
  temperature : option number;
  maxTokens : option number
}.

(** [Number(v ?? d)] on a field that is a number or absent. *)
Definition numberOr (v : option number) (d : number) : number :=
  match v with
  | Some n => n
  | None => d
  end.

Record GeminiService : Type := {
  getApiKey : string;
  getSettings : Settings
}.

Definition model : string := "gemini-1.5-flash".
Definition base : string := "https://generativelanguage.googleapis.com/v1beta/models".

Definition inRange (lo hi : nat) (c : ascii) : bool :=
  (lo <=? nat_of_ascii c)%nat && (nat_of_ascii c <=? hi)%nat.

Fixpoint mem (c : ascii) (s : string) : bool :=
  match s with
  | EmptyString => false
  | String d rest => Ascii.eqb c d || mem c rest
  end.

Definition hexDigit (n : nat) : ascii :=
  ascii_of_nat (if (n <? 10)%nat then 48 + n else 55 + n)%nat.

Definition percent (n : nat) : string :=
  String "%" (String (hexDigit (n / 16)) (String (hexDigit (n mod 16)) "")).

(** [encodeURIComponent] on code units below 256: the unreserved
    characters stay, every other one is the percent-encoding of its UTF-8
    bytes. *)
Fixpoint encodeURIComponent (s : string) : string :=
  match s with
  | EmptyString => ""
  | String c rest =>
      let n := nat_of_ascii c in
      (if inRange 65 90 c || inRange 97 122 c || inRange 48 57 c || mem c "-_.!~*'()"
       then String c ""
       else if (n <? 128)%nat then percent n
       else percent (192 + n / 64) +:+ percent (128 + n mod 64))
      +:+ encodeURIComponent rest
  end.

Definition buildUrl (g : GeminiService) : string :=
  base +:+ "/" +:+ model +:+ ":generateContent?key=" +:+ encodeURIComponent (getApiKey g).

Definition newline : string := String (ascii_of_nat 10) "".

Record Part : Type := { text : string }.

Definition buildSystemInstruction : list Part :=
  [ {| text := join newline
      [ "You are AI GENESIS, an assistant operating inside a secure command dashboard.";
        "Language policy: Respond strictly in English. Do not use any other language.";
        "If the user requests non-English output, refuse and continue in English.";
        "Be concise but technically precise. Prefer structured output when appropriate.";
        "If you do not know, say you do not know. Do not fabricate APIs or facts." ] |} ].

(** An entry of the rolling memory: [{ role: m.role, text: m.text }]. *)
Record MemoryEntry : Type := {
  m_role : value;
  m_text : value
}.

Record Content : Type := {
  role : string;
  parts : list Part
}.

Fixpoint toGeminiContents (msgs : list MemoryEntry) : result (list Content) :=
  match msgs with
  | [] => Ok []
  | m :: rest =>
      if negb (truthy (m_text m)) then toGeminiContents rest
      else
        t <- toString (or_else (m_text m) JNull) ;;
        mapped <- toGeminiContents rest ;;
        Ok ({| role := if strictEq (m_role m) (Some (JStr "assistant"))
                       then "model" else "user";
               parts := [ {| text := t |} ] |} :: mapped)
  end.

Record GenerationConfig : Type := {
  cfg_temperature : number;
  maxOutputTokens : number
}.

Record Payload : Type := {
  systemInstruction : list Part;
  contents : list Content;
  generationConfig : GenerationConfig
}.

Record Request : Type := {
  url : string;
  payload : Payload
}.

(** What [fetch] and [res.text()] give: an exception, or a status with the
    body; [body] is [JSON.parse(raw)], [None] when it throws. *)
Inductive FetchOutcome : Type :=
| NetworkFailure
| Response (status : Z) (body : option json).

(** The error object [generate] throws, with the fields it sets. *)
Record GenError : Type := {
  message : string;
  err_status : option Z;
  details : option json;
  err_elapsedMs : option Z
}.

Record Generated : Type := {
  g_text : string;
  elapsedMs : Z;
  raw : json
}.

(** How the promise of [generate] settles: with a reply, with the error
    object [generate] made, or with an exception of the engine. *)
Inductive GenResult : Type :=
| Resolved (r : Generated)
| Rejected (err : GenError)
| Raised (name : string).

Definition ok (status : Z) : bool := (200 <=? status) && (status <=? 299).

(** [Ids.safeJsonParse(raw, null)]. *)
Definition safeJsonParse (body : option json) : json :=
  match body with
  | Some j => j
  | None => JNull
  end.

(** [v?.[0]]. *)
Definition optFirst (v : value) : value :=
  match v with
  | Some (JArr l) => head l
  | Some (JStr (String c _)) => Some (JStr (String c ""))
  | Some (JObj props) => assoc "0" props
  | _ => None
  end.

Fixpoint mapM {A B} (f : A -> result B) (l : list A) : result (list B) :=
  match l with
  | [] => Ok []
  | x :: rest => y <- f x ;; ys <- mapM f rest ;; Ok (y :: ys)
  end.

(** [json?.candidates?.[0]?.content?.parts?.map((p) => p.text)
      .filter(Boolean).join('') || ''] *)
Definition extractText (j : json) : result string :=
  match optGet "parts" (optGet "content" (optFirst (optGet "candidates" (Some j)))) with
  | None | Some JNull => Ok ""
  | Some (JArr ps) =>
      texts <- mapM (fun p => get "text" (Some p)) ps ;;
      fragments <- mapM (fun v => toString (or_else v JNull)) (List.filter truthy texts) ;;
      Ok (join "" fragments)
  | Some _ => Throw TypeError
  end.

(** The two clamps of [generate]. *)
Definition configOf (settings : Settings) : GenerationConfig :=
  let temperature := clamp (numberOr (temperature settings) (Fin (4 # 10))) (Fin 0) (Fin 1) in
  let maxOutputTokens := clamp (numberOr (maxTokens settings) (Fin 512)) (Fin 1) (Fin 2048) in
  {| cfg_temperature := temperature; maxOutputTokens := maxOutputTokens |}.

Definition buildPayload (settings : Settings) (memoryMessages : list MemoryEntry)
  : result Payload :=
  let config := configOf settings in
  mapped <- toGeminiContents memoryMessages ;;
  Ok {| systemInstruction := buildSystemInstruction;
        contents := mapped;
        generationConfig := config |}.

(** [generate({ memoryMessages, settingsOverride })]. [fetch] is the
    transport; [elapsed] is the rounded difference of the two readings of
    [performance.now()]. *)
Definition generate (g : GeminiService) (fetch : Request -> FetchOutcome) (elapsed : Z)
  (memoryMessages : list MemoryEntry) (settingsOverride : option Settings) : GenResult :=
  if String.eqb (getApiKey g) "" then
    Rejected {| message := "Missing API key"; err_status := Some 401;
                details := None; err_elapsedMs := None |}
  else
    let settings := match settingsOverride with
                    | Some s => s
                    | None => getSettings g
                    end in
    match buildPayload settings memoryMessages with
    | Throw e => Raised e
    | Ok p =>
        match fetch {| url := buildUrl g; payload := p |} with
        | NetworkFailure =>
            Rejected {| message := "Network error while contacting Gemini. Check your connection.";
                        err_status := Some 0; details := None; err_elapsedMs := None |}
        | Response status body =>
            if negb (ok status) then
              let parsed := safeJsonParse body in
              let m := optGet "message" (optGet "error" (Some parsed)) in
              match (if truthy m then toString (or_else m JNull) else Ok "") with
              | Throw e => Raised e
              | Ok messageFromServer =>
                  Rejected {| message := if String.eqb messageFromServer ""
                                         then "Gemini request failed (HTTP "
                                              +:+ pretty status +:+ ")."
                                         else messageFromServer;
                              err_status := Some status;
                              details := Some parsed;
                              err_elapsedMs := Some elapsed |}
              end
            else
              let j := safeJsonParse body in
              if negb (truthy (Some j)) then
                Rejected {| message := "Gemini returned an unreadable response.";
                            err_status := Some 500; details := None;
                            err_elapsedMs := Some elapsed |}
              else
                match extractText j with
                | Ok t => Resolved {| g_text := t; elapsedMs := elapsed; raw := j |}
                | Throw e => Raised e
                end
        end
    end.

Definition testKey (g : GeminiService) (fetch : Request -> FetchOutcome) (elapsed : Z)
  : GenResult :=
  let settings := getSettings g in
  let probeSettings := {| apiKey := apiKey settings; temperature := Some (Fin 0);
                          maxTokens := Some (Fin 16) |} in
  generate g fetch elapsed
    [ {| m_role := Some (JStr "user"); m_text := Some (JStr "Reply with exactly: OK") |} ]
    (Some probeSettings).

(** ** Regular expressions

    The regular expressions of the program, with the backtracking order of
    the JavaScript matcher: a greedy quantifier tries the longest repetition
    first, a lazy one the shortest.  Strings are sequences of code units
    below 256. *)

Inductive regex : Type :=
| Cls (p : ascii -> bool)
| Cat (r1 r2 : regex)
| Opt (r : regex)
| Star (r : regex)
| LazyStar (r : regex)
| Grp (i : nat) (r : regex)
| Eos.

Definition Plus (r : regex) : regex := Cat r (Star r).
Definition LazyPlus (r : regex) : regex := Cat r (LazyStar r).
Definition Chr (c : ascii) : regex := Cls (Ascii.eqb c).

Fixpoint Lit (s : string) (r : regex) : regex :=
  match s with
  | EmptyString => r
  | String c rest => Cat (Chr c) (Lit rest r)
  end.

(** The captures, most recent first. *)
Definition captures : Type := list (nat * string).

Fixpoint cap (i : nat) (c : captures) : string :=
  match c with
  | [] => ""
  | (j, s) :: rest => if Nat.eqb i j then s else cap i rest
  end.

Definition isEmpty (s : string) : bool :=
  match s with
  | EmptyString => true
  | String _ _ => false
  end.

Definition orElse {A} (a b : option A) : option A :=
  match a with
  | Some x => Some x
  | None => b
  end.

Section Matcher.
Context {R : Type}.

(** A continuation gets the text matched so far by the expression at
    hand, the rest of the input and the captures. *)
Definition cont : Type := string -> string -> captures -> option R.

Definition matcher : Type := string -> captures -> cont -> option R.

Fixpoint starLoop (body : matcher) (fuel : nat) : matcher :=
  fun s c k =>
    match fuel with
    | O => k "" s c
    | S fuel' =>
        orElse
          (body s c (fun m rest c1 =>
             if isEmpty m then None
             else starLoop body fuel' rest c1 (fun m' rest' c2 => k (m +:+ m') rest' c2)))
          (k "" s c)
    end.

Fixpoint lazyLoop (body : matcher) (fuel : nat) : matcher :=
  fun s c k =>
    match fuel with
    | O => k "" s c
    | S fuel' =>
        orElse
          (k "" s c)
          (body s c (fun m rest c1 =>
             if isEmpty m then None
             else lazyLoop body fuel' rest c1 (fun m' rest' c2 => k (m +:+ m') rest' c2)))
    end.

Fixpoint rmatch (r : regex) : matcher :=
  match r with
  | Cls p => fun s c k =>
      match s with
      | String a rest => if p a then k (String a "") rest c else None
      | EmptyString => None
      end
  | Cat r1 r2 => fun s c k =>
      rmatch r1 s c (fun m1 rest1 c1 =>
        rmatch r2 rest1 c1 (fun m2 rest2 c2 => k (m1 +:+ m2) rest2 c2))
  | Opt r1 => fun s c k => orElse (rmatch r1 s c k) (k "" s c)
  | Star r1 => fun s c k => starLoop (rmatch r1) (String.length s) s c k
  | LazyStar r1 => fun s c k => lazyLoop (rmatch r1) (String.length s) s c k
  | Grp i r1 => fun s c k => rmatch r1 s c (fun m rest c1 => k m rest ((i, m) :: c1))
  | Eos => fun s c k => if isEmpty s then k "" s c else None
  end.
End Matcher.

(** One attempt at the start of [s]: the matched text, the captures and the
    rest of the input. *)
Definition exec (r : regex) (s : string) : option (string * captures * string) :=
  rmatch r s [] (fun m rest c => Some (m, c, rest)).

(** [s.replace(r, f)] without the [g] flag: the first match, tried at each
    index from the left. *)
Fixpoint replaceFirst (r : regex) (f : string -> captures -> string) (s : string) : string :=
  match exec r s with
  | Some (m, c, rest) => f m c +:+ rest
  | None =>
      match s with
      | EmptyString => ""
      | String a rest => String a (replaceFirst r f rest)
      end
  end.

(** [s.replace(r, f)] with the [g] flag; [skip] counts the code units of
    the last match still to be passed over. *)
Fixpoint replaceFrom (r : regex) (f : string -> captures -> string) (skip : nat)
  (s : string) : string :=
  match skip with
  | S n =>
      match s with
      | EmptyString => ""
      | String _ rest => replaceFrom r f n rest
      end
  | O =>
      match exec r s with
      | Some (m, c, _) =>
          f m c +:+
          match s with
          | EmptyString => ""
          | String a rest =>
              if isEmpty m then String a (replaceFrom r f 0 rest)
              else replaceFrom r f (String.length m - 1) rest
          end
      | None =>
          match s with
          | EmptyString => ""
          | String a rest => String a (replaceFrom r f 0 rest)
          end
      end
  end.

Definition replaceAllRe (r : regex) (f : string -> captures -> string) (s : string) : string :=
  replaceFrom r f 0 s.

(** [s.split(r)] for a separator that does not match the empty string:
    [cur] is the piece being read. *)
Fixpoint splitFrom (r : regex) (skip : nat) (cur : string) (s : string) : list string :=
  match skip with
  | S n =>
      match s with
      | EmptyString => [cur]
      | String _ rest => splitFrom r n cur rest
      end
  | O =>
      match s with
      | EmptyString => [cur]
      | String a rest =>
          match exec r s with
          | Some (m, _, _) =>
              if isEmpty m then splitFrom r 0 (cur +:+ String a "") rest
              else cur :: splitFrom r (String.length m - 1) "" rest
          | None => splitFrom r 0 (cur +:+ String a "") rest
          end
      end
  end.

Definition split (r : regex) (s : string) : list string := splitFrom r 0 "" s.

(** ** Character classes *)

Definition codeIn (codes : list nat) (c : ascii) : bool :=
  existsb (Nat.eqb (nat_of_ascii c)) codes.

(** [\s], which is also what [trim] and [trimEnd] remove. *)
Definition isSpace : ascii -> bool := codeIn [9; 10; 11; 12; 13; 32; 160]%nat.

(** [.]: everything but the line terminators. *)
Definition isDot (c : ascii) : bool := negb (codeIn [10; 13]%nat c).

Definition isDigit : ascii -> bool := inRange 48 57.

Definition LF : ascii := ascii_of_nat 10.
Definition CR : ascii := ascii_of_nat 13.
Definition DQ : ascii := ascii_of_nat 34.

Fixpoint trimStart (s : string) : string :=
  match s with
  | EmptyString => ""
  | String c rest => if isSpace c then trimStart rest else s
  end.

Fixpoint trimEnd (s : string) : string :=
  match s with
  | EmptyString => ""
  | String c rest =>
      let rest' := trimEnd rest in
      if isEmpty rest' && isSpace c then "" else String c rest'
  end.

Definition trim (s : string) : string := trimEnd (trimStart s).

(** ** Markdown *)

Fixpoint replaceAll (c : ascii) (by_ : string) (s : string) : string :=
  match s with
  | EmptyString => ""
  | String a rest =>
      (if Ascii.eqb a c then by_ else String a "") +:+ replaceAll c by_ rest
  end.

Definition escapeHtml (t : string) : string :=
  replaceAll "'" "&#39;"
    (replaceAll DQ "&quot;"
      (replaceAll ">" "&gt;"
        (replaceAll "<" "&lt;"
          (replaceAll "&" "&amp;" t)))).

(** [/\*\*(.+?)\*\*/g] *)
Definition boldRe : regex :=
  Lit "**" (Cat (Grp 1 (LazyPlus (Cls isDot))) (Lit "*" (Chr "*"))).

(** [/`([^`]+?)`/g] *)
Definition codeRe : regex :=
  Cat (Chr "`") (Cat (Grp 1 (LazyPlus (Cls (fun c => negb (Ascii.eqb c "`"))))) (Chr "`")).

(** [/\[(.+?)\]\((https?:\/\/[^\s)]+)\)/g] *)
Definition urlRe : regex :=
  Lit "http" (Cat (Opt (Chr "s"))
    (Lit "://" (Plus (Cls (fun c => negb (isSpace c || Ascii.eqb c ")")))))).

Definition linkRe : regex :=
  Cat (Chr "[") (Cat (Grp 1 (LazyPlus (Cls isDot)))
    (Lit "](" (Cat (Grp 2 urlRe) (Chr ")")))).

Definition boldSubst (m : string) (c : captures) : string :=
  "<strong>" +:+ cap 1 c +:+ "</strong>".

Definition codeSubst (m : string) (c : captures) : string :=
  let inner := escapeHtml (cap 1 c) in
  "<code>" +:+ inner +:+ "</code>".

Definition linkSubst (m : string) (c : captures) : string :=
  "<a href=" +:+ String DQ (cap 2 c) +:+ String DQ " target=" +:+ String DQ "_blank"
  +:+ String DQ " rel=" +:+ String DQ "noopener noreferrer" +:+ String DQ ">"
  +:+ cap 1 c +:+ "</a>".

Definition formatInline (t : string) : string :=
  let safe := escapeHtml t in
  let safe := replaceAllRe boldRe boldSubst safe in
  let safe := replaceAllRe codeRe codeSubst safe in
  let safe := replaceAllRe linkRe linkSubst safe in
  safe.

(** [/^\s*[-*]\s+(.+)$/] *)
Definition ulRe : regex :=
  Cat (Star (Cls isSpace))
    (Cat (Cls (fun c => Ascii.eqb c "-" || Ascii.eqb c "*"))
      (Cat (Plus (Cls isSpace)) (Cat (Grp 1 (Plus (Cls isDot))) Eos))).

(** [/^\s*(\d+)\.\s+(.+)$/] *)
Definition olRe : regex :=
  Cat (Star (Cls isSpace))
    (Cat (Grp 1 (Plus (Cls isDigit)))
      (Cat (Chr ".") (Cat (Plus (Cls isSpace)) (Cat (Grp 2 (Plus (Cls isDot))) Eos)))).

(** [s.match(r)] for an expression that starts with [^]: one attempt, at
    index 0. *)
Definition matchAtStart (r : regex) (s : string) : option captures :=
  match exec r s with
  | Some (_, c, _) => Some c
  | None => None
  end.

Inductive ListMode : Type := ul | ol.

Definition isMode (a b : ListMode) : bool :=
  match a, b with
  | ul, ul | ol, ol => true
  | _, _ => false
  end.

(** The three variables of the line scan. *)
Record Scan : Type := {
  html : string;
  listMode : option ListMode;
  listBuf : list string
}.

Definition tagOf (m : ListMode) : string :=
  match m with
  | ol => "ol"
  | ul => "ul"
  end.

Definition listElement (m : ListMode) (buf : list string) : string :=
  let tag := tagOf m in
  let items := join "" (List.map (fun li => "<li>" +:+ formatInline li +:+ "</li>") buf) in
  "<" +:+ tag +:+ ">" +:+ items +:+ "</" +:+ tag +:+ ">".

Definition flushList (st : Scan) : Scan :=
  match listMode st, listBuf st with
  | None, _ => st
  | Some _, [] => st
  | Some m, buf =>
      {| html := html st +:+ listElement m buf; listMode := None; listBuf := [] |}
  end.

Definition paragraph (t : string) : string := "<p>" +:+ formatInline t +:+ "</p>".

Definition pushParagraph (line : string) (st : Scan) : Scan :=
  let t := trim line in
  if isEmpty t then st
  else {| html := html st +:+ paragraph t; listMode := listMode st; listBuf := listBuf st |}.

(** [if (listMode && listMode !== m) flushList(); listMode = m;
     listBuf.push(item)] *)
Definition pushItem (m : ListMode) (item : string) (st : Scan) : Scan :=
  let st1 := match listMode st with
             | Some m' => if isMode m' m then st else flushList st
             | None => st
             end in
  {| html := html st1; listMode := Some m; listBuf := listBuf st1 ++ [item] |}.

(** The body of the loop over the lines. *)
Definition scanLine (st : Scan) (line : string) : Scan :=
  let trimmed := trimEnd line in
  match matchAtStart ulRe trimmed with
  | Some c => pushItem ul (cap 1 c) st
  | None =>
      match matchAtStart olRe trimmed with
      | Some c => pushItem ol (cap 2 c) st
      | None =>
          if isEmpty (trim trimmed) then flushList st
          else pushParagraph trimmed (flushList st)
      end
  end.

(** [/\r?\n/] *)
Definition lineBreakRe : regex := Cat (Opt (Chr CR)) (Chr LF).

Definition scanStart : Scan := {| html := ""; listMode := None; listBuf := [] |}.

Definition formatInlineAndBlocks (t : string) : string :=
  let lines := split lineBreakRe t in
  html (flushList (fold_left scanLine lines scanStart)).

Definition fenceRe : regex := Lit "``" (Chr "`").

(** [rawCode.replace(/^\n+/, '').replace(/\n+$/, '')] *)
Definition stripBlankLines (rawCode : string) : string :=
  let s1 := match exec (Plus (Chr LF)) rawCode with
            | Some (_, _, rest) => rest
            | None => rawCode
            end in
  replaceFirst (Cat (Plus (Chr LF)) Eos) (fun _ _ => "") s1.

Fixpoint formatParts (isCode : bool) (ps : list string) : list string :=
  match ps with
  | [] => []
  | p :: rest =>
      (if isCode
       then "<pre><code>" +:+ escapeHtml (stripBlankLines p) +:+ "</code></pre>"
       else formatInlineAndBlocks p)
      :: formatParts (negb isCode) rest
  end.

Definition format (t : string) : string :=
  join "" (formatParts false (split fenceRe t)).

(** ** GenesisApp *)

(** The store and the fields of [this.state] the operations below use. *)
Record App : Type := {
  storage : Storage;
  settings : Settings;
  activeSessionId : string;
  lastError : string;
  lastLatencyMs : option Z
}.

Definition withStorage (st : Storage) (active : string) (a : App) : App :=
  {| storage := st; settings := settings a; activeSessionId := active;
     lastError := lastError a; lastLatencyMs := lastLatencyMs a |}.

Definition gemini (a : App) : GeminiService :=
  {| getApiKey := apiKey (settings a); getSettings := settings a |}.

(** [arr.map(f)] for a callback that may throw; [f k] is the callback at
    index [k]. *)
Fixpoint imapM {A B} (f : nat -> A -> result B) (l : list A) : result (list B) :=
  match l with
  | [] => Ok []
  | x :: rest =>
      y <- f 0%nat x ;;
      ys <- imapM (fun k => f (S k)) rest ;;
      Ok (y :: ys)
  end.

(** [env k] is the reading of the clock and of the random source at the
    k-th call of [ensureShape]; [createNewSession] takes the next one.
    The sessions are shaped before anything is written. *)
Definition ensureAtLeastOneSession (env : nat -> Entropy) (a : App) : result App :=
  let st := storage a in
  let activeId := getActiveId st in
  all <- imapM (fun k s => ensureShape (env k) (Some s)) (loadAll st) ;;
  match all with
  | [] =>
      let created := createNewSession (env 0%nat) (Some "Operator Session") in
      Ok (withStorage (setActiveId (id created) (saveAll [toJson created] st))
            (id created) a)
  | first :: _ =>
      if isEmpty activeId || negb (existsb (fun s => String.eqb (id s) activeId) all)
      then Ok (withStorage (setActiveId (id first) st) (id first) a)
      else Ok (withStorage st activeId a)
  end.

(** [clearAllSessions] once the dialog is confirmed. *)
Definition clearAllSessions (env : nat -> Entropy) (a : App) : result App :=
  ensureAtLeastOneSession env
    (withStorage (deleteAllSessions (storage a)) (activeSessionId a) a).

Definition getActiveSession (e : Entropy) (a : App) : result (option Session) :=
  let i := activeSessionId a in
  if isEmpty i then Ok None else getById e (Some (JStr i)) (storage a).

(** [arr.slice(start)] *)
Definition slice {A} (start : Z) (arr : list A) : list A :=
  let len := Z.of_nat (length arr) in
  let k := if start <? 0 then Z.max (len + start) 0 else Z.min start len in
  drop (Z.to_nat k) arr.

Definition memoryEntry (m : json) : result MemoryEntry :=
  r <- get "role" (Some m) ;;
  t <- get "text" (Some m) ;;
  Ok {| m_role := r; m_text := t |}.

Definition defaultLimit : Z := 15.

(** [getRollingMemory(session, limit = 15)]; [session] is a session object
    or [null], [limit] an integer or absent. *)
Definition getRollingMemory (session : option Session) (limit : option Z)
  : result (list MemoryEntry) :=
  let limit := match limit with
               | Some l => l
               | None => defaultLimit
               end in
  let msgs := match session with
              | Some s => messages s
              | None => []
              end in
  let sl := slice (Z.max 0 (Z.of_nat (length msgs) - limit)) msgs in
  mapM memoryEntry sl.





(** ** Vocabulary of the properties *)

(** What [getRollingMemory] keeps of a message. *)
Definition roleAndText (m : json) : MemoryEntry :=
  {| m_role := optGet "role" (Some m); m_text := optGet "text" (Some m) |}.

(** A message of a session, or a session of the collection, is a record;
    [null] is not one. *)
Definition notNull (m : json) : Prop := m <> JNull.

(** [n] is a number of the closed interval from [lo] to [hi]. *)
Definition within (lo hi : Q) (n : number) : Prop :=
  match n with
  | Fin q => (lo <= q)%Q /\ (q <= hi)%Q
  | _ => False
  end.

(** [settingsOverride || this.getSettings()] *)
Definition chosenSettings (g : GeminiService) (settingsOverride : option Settings) : Settings :=
  match settingsOverride with
  | Some s => s
  | None => getSettings g
  end.

(** The request [generate] sends, once the messages are converted. *)
Definition requestOf (g : GeminiService) (memoryMessages : list MemoryEntry)
  (settingsOverride : option Settings) : result Request :=
  p <- buildPayload (chosenSettings g settingsOverride) memoryMessages ;;
  Ok {| url := buildUrl g; payload := p |}.

(** The message of the error when the server gave none. *)
Definition genericMessage (status : Z) : string :=
  "Gemini request failed (HTTP " +:+ pretty status +:+ ").".

(** The [error.message] of a parsed body. *)
Definition serverMessage (body : option json) : value :=
  optGet "message" (optGet "error" (Some (safeJsonParse body))).

(** A value that [String] converts when it is truthy: every string,
    number and boolean, an object without a property of its own named
    [toString], an array of such elements. *)
Definition converts (v : value) : Prop :=
  match v with
  | Some j => truthy (Some j) = true -> exists s, toString j = Ok s
  | None => True
  end.

(** A value that, when it is truthy, [String] converts to a text that is
    not empty; among those that convert only arrays such as [[]] or
    [[null]] fail to be one. *)
Definition printsNonEmpty (v : value) : Prop :=
  match v with
  | Some j => truthy (Some j) = true -> exists s, toString j = Ok s /\ s <> ""
  | None => True
  end.

(** The four string fields of a candidate record. *)
Definition fieldsConvert (x : value) : Prop :=
  converts (optGet "id" x) /\ converts (optGet "title" x) /\
  converts (optGet "createdAt" x) /\ converts (optGet "updatedAt" x).

Definition fieldsPrint (x : value) : Prop :=
  printsNonEmpty (optGet "id" x) /\ printsNonEmpty (optGet "title" x) /\
  printsNonEmpty (optGet "createdAt" x) /\ printsNonEmpty (optGet "updatedAt" x).

(** [x.id === i] for a string [i], on an entry that is not [null]. *)
Definition hasId (i : string) (x : json) : bool :=
  strictEq (optGet "id" (Some x)) (Some (JStr i)).

(** The index of the first element that satisfies [p]. *)
Fixpoint firstIndex {A} (p : A -> bool) (l : list A) : option nat :=
  match l with
  | [] => None
  | x :: rest => if p x then Some 0%nat else option_map S (firstIndex p rest)
  end.

(** A stored session that carries a non-empty string as its id. *)
Definition hasStringId (x : json) : Prop :=
  exists i, optGet "id" (Some x) = Some (JStr i) /\ i <> "".

(** *** The line scan, seen as a sequence of blocks *)

(** What a line is for the scan, in the order of its tests. *)
Inductive LineKind : Type :=
| Item (m : ListMode) (t : string)
| Blank
| Para (t : string).

Definition classify (line : string) : LineKind :=
  let trimmed := trimEnd line in
  match matchAtStart ulRe trimmed with
  | Some c => Item ul (cap 1 c)
  | None =>
      match matchAtStart olRe trimmed with
      | Some c => Item ol (cap 2 c)
      | None => if isEmpty (trim trimmed) then Blank else Para trimmed
      end
  end.

(** The elements the scan emits. *)
Inductive Block : Type :=
| ListBlock (m : ListMode) (items : list string)
| ParaBlock (t : string).

Definition renderBlock (b : Block) : string :=
  match b with
  | ListBlock m items => listElement m items
  | ParaBlock t => paragraph t
  end.

Fixpoint render (bs : list Block) : string :=
  match bs with
  | [] => ""
  | b :: rest => renderBlock b +:+ render rest
  end.

(** The list that is open, if any, as a finished element. *)
Definition closeList (open : option (ListMode * list string)) : list Block :=
  match open with
  | Some (m, buf) => [ListBlock m buf]
  | None => []
  end.

(** Specification of the scan: consecutive items of one kind make one list;
    an item of the other kind, a blank line, a paragraph and the end of the
    segment close the open list. *)
Fixpoint group (open : option (ListMode * list string)) (ks : list LineKind) : list Block :=
  match ks with
  | [] => closeList open
  | Item m t :: rest =>
      match open with
      | Some (m', buf) =>
          if isMode m' m then group (Some (m, buf ++ [t])) rest
          else ListBlock m' buf :: group (Some (m, [t])) rest
      | None => group (Some (m, [t])) rest
      end
  | Blank :: rest => closeList open ++ group None rest
  | Para t :: rest => closeList open ++ ParaBlock (trim t) :: group None rest
  end.

(** The open list of a state of the scan. *)
Definition openOf (st : Scan) : option (ListMode * list string) :=
  match listMode st, listBuf st with
  | Some m, _ :: _ => Some (m, listBuf st)
  | _, _ => None
  end.

(** The mode is set exactly when the buffer holds an item. *)
Definition wellFormed (st : Scan) : Prop :=
  match listMode st, listBuf st with
  | None, [] => True
  | Some _, _ :: _ => True
  | _, _ => False
  end.

(** The items waiting in an open list, as the lines they came from. *)
Definition pending (open : option (ListMode * list string)) : list LineKind :=
  match open with
  | Some (m, buf) => List.map (Item m) buf
  | None => []
  end.

Definition scan (t : string) : Scan :=
  fold_left scanLine (split lineBreakRe t) scanStart.

(** The list element an open list makes when it is flushed. *)
Definition openList (st : Scan) : string :=
  match listMode st with
  | Some m => listElement m (listBuf st)
  | None => ""
  end.

(** *** What a regular expression matches

    [Matches r m rest c c']: [r] matches the text [m] when [rest] follows
    it, and takes the captures from [c] to [c']. *)
Inductive Matches : regex -> string -> string -> captures -> captures -> Prop :=
| M_Cls p a rest c :
    p a = true -> Matches (Cls p) (String a "") rest c c
| M_Cat r1 r2 m1 m2 rest c c1 c2 :
    Matches r1 m1 (m2 +:+ rest) c c1 ->
    Matches r2 m2 rest c1 c2 ->
    Matches (Cat r1 r2) (m1 +:+ m2) rest c c2
| M_Opt_some r m rest c c1 :
    Matches r m rest c c1 -> Matches (Opt r) m rest c c1
| M_Opt_none r rest c :
    Matches (Opt r) "" rest c c
| M_Star_nil r rest c :
    Matches (Star r) "" rest c c
| M_Star_cons r m1 m2 rest c c1 c2 :
    Matches r m1 (m2 +:+ rest) c c1 ->
    Matches (Star r) m2 rest c1 c2 ->
    Matches (Star r) (m1 +:+ m2) rest c c2
| M_Lazy_nil r rest c :
    Matches (LazyStar r) "" rest c c
| M_Lazy_cons r m1 m2 rest c c1 c2 :
    Matches r m1 (m2 +:+ rest) c c1 ->
    Matches (LazyStar r) m2 rest c1 c2 ->
    Matches (LazyStar r) (m1 +:+ m2) rest c c2
| M_Grp i r m rest c c1 :
    Matches r m rest c c1 -> Matches (Grp i r) m rest c ((i, m) :: c1)
| M_Eos c :
    Matches Eos "" "" c c.

Fixpoint groupFree (r : regex) : bool :=
  match r with
  | Cls _ | Eos => true
  | Cat r1 r2 => groupFree r1 && groupFree r2
  | Opt r1 | Star r1 | LazyStar r1 => groupFree r1
  | Grp _ _ => false
  end.

(** The anchor element of a label and a target. *)
Definition anchor (label target : string) : string :=
  "<a href=" +:+ String DQ target +:+ String DQ " target=" +:+ String DQ "_blank"
  +:+ String DQ " rel=" +:+ String DQ "noopener noreferrer" +:+ String DQ ">"
  +:+ label +:+ "</a>".

Definition linkPass (s : string) : string := replaceAllRe linkRe linkSubst s.

(** [needle] occurs in [s]. *)
Definition occursIn (needle s : string) : Prop :=
  exists before after, s = before +:+ needle +:+ after.

(** The test for it. *)
Fixpoint occursb (needle s : string) : bool :=
  String.prefix needle s ||
  match s with
  | EmptyString => false
  | String _ rest => occursb needle rest
  end.

(** The line as the link pass receives it. *)
Definition beforeLinks (t : string) : string :=
  replaceAllRe codeRe codeSubst (replaceAllRe boldRe boldSubst (escapeHtml t)).

(** A matcher that finds only what [r] matches, and hands it to its
    continuation. *)
Definition soundMatcher {R : Type} (r : regex) (f : @matcher R) : Prop :=
  forall s c k x,
    f s c k = Some x ->
    exists m rest c', s = m +:+ rest /\ Matches r m rest c c' /\ k m rest c' = Some x.

(** Two continuations that agree on every way of cutting [s] in two. *)
Definition agreeOn {R : Type} (s : string) (k k' : @cont R) : Prop :=
  forall m rest c, s = m +:+ rest -> k m rest c = k' m rest c.

(** A matcher that reads its continuation on the cuts of its input only,
    and that fails when its continuation does. *)
Definition localMatcher {R : Type} (f : @matcher R) : Prop :=
  (forall s c k k', agreeOn s k k' -> f s c k = f s c k') /\
  (forall s c, f s c (fun _ _ _ => None) = None).

(** ** Sample data of the examples *)

Definition entropy0 : Entropy :=
  {| isoBody := "2024-01-01T00:00:00.000"; timeHex := "18cc251f400"; randHex := "8f3a2c" |}.

Definition entropy1 : Entropy :=
  {| isoBody := "2024-01-01T00:00:01.000"; timeHex := "18cc251f7e8"; randHex := "c41d07" |}.

Definition emptyStorage : Storage := {| sessionsItem := None; activeItem := None |}.

Definition noSettings : Settings :=
  {| apiKey := ""; temperature := None; maxTokens := None |}.

Definition appOf (st : Storage) : App :=
  {| storage := st; settings := noSettings; activeSessionId := getActiveId st;
     lastError := "none"; lastLatencyMs := None |}.

Definition aMessage (r t : string) : json :=
  JObj [("id", JStr "m"); ("role", JStr r); ("text", JStr t); ("ts", JStr "t0")].

Definition threeMessages : Session :=
  {| id := "s1"; title := "Notes"; createdAt := "t0"; updatedAt := "t0";
     messages := [aMessage "user" "one"; aMessage "assistant" "two"; aMessage "user" "three"] |}.

Definition notes (i : string) : Session :=
  {| id := i; title := "Notes"; createdAt := "t0"; updatedAt := "t0"; messages := [] |}.

Definition partialRecord : json := JObj [("title", JStr "Notes")].

Definition holding (sessions : list json) (active : option string) : Storage :=
  {| sessionsItem := Some (JArr sessions); activeItem := active |}.

Definition freshId : string := "sess_18cc251f400_8f3a2c".


(** ** Vocabulary of the further properties *)

(** The same number: NaN with NaN, an infinity with itself, two finite
    values that are equal. *)
Definition sameNumber (a b : number) : Prop :=
  match a, b with
  | NaN, NaN | NegInf, NegInf | PosInf, PosInf => True
  | Fin x, Fin y => (x == y)%Q
  | _, _ => False
  end.

(** Every code unit of [s] satisfies [p]. *)
Fixpoint allChars (p : ascii -> bool) (s : string) : bool :=
  match s with
  | EmptyString => true
  | String c rest => p c && allChars p rest
  end.

(** The five characters [escapeHtml] replaces. *)
Definition isReserved (c : ascii) : bool :=
  Ascii.eqb c "&" || Ascii.eqb c "<" || Ascii.eqb c ">" || Ascii.eqb c DQ || Ascii.eqb c "'".

(** The characters that start the inline markup: the star of bold, the
    backtick of inline code and the bracket of a link. *)
Definition isInlineMarker (c : ascii) : bool :=
  Ascii.eqb c "*" || Ascii.eqb c "`" || Ascii.eqb c "[".

(** The lines a block was made of. *)
Definition linesOf (b : Block) : list LineKind :=
  match b with
  | ListBlock m items => List.map (Item m) items
  | ParaBlock t => [Para t]
  end.

(** The lines of a segment that show: the blank ones left out, the
    paragraphs trimmed. *)
Fixpoint visible (ks : list LineKind) : list LineKind :=
  match ks with
  | [] => []
  | Blank :: rest => visible rest
  | Item m t :: rest => Item m t :: visible rest
  | Para t :: rest => Para (trim t) :: visible rest
  end.

(** The blocks of a segment. *)
Definition blocksOf (t : string) : list Block :=
  group None (List.map classify (split lineBreakRe t)).

(** The element of a fenced code block. *)
Definition codeBlock (rawCode : string) : string :=
  "<pre><code>" +:+ escapeHtml (stripBlankLines rawCode) +:+ "</code></pre>".

(** [k] times the code unit [c]. *)
Fixpoint filler (k : nat) (c : ascii) : string :=
  match k with
  | O => ""
  | S k' => String c (filler k' c)
  end.

(** The first code unit of [s] is [c]; the last one is. *)
Definition headIs (c : ascii) (s : string) : bool :=
  match s with
  | EmptyString => false
  | String a _ => Ascii.eqb a c
  end.

Fixpoint lastIs (c : ascii) (s : string) : bool :=
  match s with
  | EmptyString => false
  | String a EmptyString => Ascii.eqb a c
  | String _ rest => lastIs c rest
  end.

(** The content [toGeminiContents] makes of an entry it keeps, whose
    text [String] converts to [t]. *)
Definition toContent (m : MemoryEntry) (t : string) : Content :=
  {| role := if strictEq (m_role m) (Some (JStr "assistant")) then "model" else "user";
     parts := [ {| text := t |} ] |}.

(** [c] is the content of the entry [m]. *)
Definition contentOf (m : MemoryEntry) (c : Content) : Prop :=
  exists t, toString (or_else (m_text m) JNull) = Ok t /\ c = toContent m t.

(** The entries [toGeminiContents] keeps. *)
Definition spoken (msgs : list MemoryEntry) : list MemoryEntry :=
  List.filter (fun m => truthy (m_text m)) msgs.

(** A part [{ text: s }] of a candidate, and a response whose first
    candidate has the given parts. *)
Definition textPart (s : string) : json := JObj [("text", JStr s)].

Definition responseOf (ps : list json) (others : list json) : json :=
  JObj [("candidates",
         JArr (JObj [("content", JObj [("parts", JArr ps)])] :: others))].

(** The request of [testKey]. *)
Definition probeRequest (g : GeminiService) : Request :=
  {| url := buildUrl g;
     payload :=
       {| systemInstruction := buildSystemInstruction;
          contents := [ {| role := "user";
                           parts := [ {| text := "Reply with exactly: OK" |} ] |} ];
          generationConfig := {| cfg_temperature := Fin 0; maxOutputTokens := Fin 16 |} |} |}.

(** The characters [encodeURIComponent] can return: the unreserved ones,
    the percent sign and the digits of its escapes. *)
Definition isUrlSafe (c : ascii) : bool :=
  inRange 65 90 c || inRange 97 122 c || inRange 48 57 c || mem c "-_.!~*'()"
  || Ascii.eqb c "%".

(** ** More of [GenesisApp] *)

(** [createAndActivateSession]: [env 0] is read by [createNewSession],
    [env 1] by [upsertSession]. *)
Definition createAndActivateSession (env : nat -> Entropy) (a : App) : result App :=
  let created := createNewSession (env 0%nat) (Some "New Session") in
  r <- upsertSession (env 1%nat) (Some (toJson created)) (storage a) ;;
  Ok (withStorage (setActiveId (id created) (fst r)) (id created) a).

(** [setActiveSession(id)] *)
Definition setActiveSession (i : string) (a : App) : App :=
  withStorage (setActiveId i (storage a)) i a.


(** ** Vocabulary of the store properties *)

(** Where [upsertSession] puts a session: in the place of the first entry
    with its id, or in front. *)
Definition placed (y : Session) (l : list json) : list json :=
  match firstIndex (hasId (id y)) l with
  | Some k => <[k := toJson y]> l
  | None => toJson y :: l
  end.

(** The entries [deleteOne] keeps. *)
Definition remaining (i : string) (l : list json) : list json :=
  List.filter (fun x => negb (hasId i x)) l.

(** What [getById] returns on a collection without [null] entries. *)
Definition lookup (e : Entropy) (i : string) (l : list json) : result (option Session) :=
  match List.find (hasId i) l with
  | Some f => s <- ensureShape e (Some f) ;; Ok (Some s)
  | None => Ok None
  end.

(** A session whose four string fields are not empty. *)
Definition filled (y : Session) : Prop :=
  id y <> "" /\ title y <> "" /\ createdAt y <> "" /\ updatedAt y <> "".

(** The session [addMessage] stores. *)
Definition withMessage (now : string) (m : json) (s : Session) : Session :=
  {| id := id s; title := title s; createdAt := createdAt s; updatedAt := now;
     messages := messages s ++ [m] |}.


(** The message [handleSend] stores for the text of the input box, and the
    one [runAssistantTurn] stores for a reply. *)
Definition userMessage (t : string) : value :=
  Some (JObj [("role", JStr "user"); ("text", JStr t)]).




(** ** [Ids.nowTimeString] *)

(** [s.padStart(n, c)] for a one-character filler. *)
Definition padStart (n : nat) (c : ascii) (s : string) : string :=
  filler (n - String.length s) c +:+ s.

(** [nowTimeString] on the hours, minutes and seconds of the clock. *)
Definition nowTimeString (hours minutes seconds : nat) : string :=
  let hh := padStart 2 "0" (pretty hours) in
  let mm := padStart 2 "0" (pretty minutes) in
  let ss := padStart 2 "0" (pretty seconds) in
  hh +:+ ":" +:+ mm +:+ ":" +:+ ss.

(** ** [saveSettings] *)

(** [saveSettings] on the text of the key box and the numbers
    [Number(input.value)] of the two sliders: the state it leaves.  The
    copies written under the keys [apiKey] and [settings], which the store
    of the sessions does not read, and the form are not modelled. *)
Definition saveSettings (key : string) (temperatureInput maxTokensInput : number) (a : App)
  : App :=
  {| storage := storage a;
     settings := {| apiKey := trim key;
                    temperature := Some (clamp temperatureInput (Fin 0) (Fin 1));
                    maxTokens := Some (clamp maxTokensInput (Fin 64) (Fin 2048)) |};
     activeSessionId := activeSessionId a;
     lastError := lastError a;
     lastLatencyMs := lastLatencyMs a |}.

(** ** The first client

    The file opens with an earlier application of the same name, which
    keeps one conversation and calls the model without the service class. *)
Module Legacy.

Definition SyntaxError : string := "SyntaxError".

(** The fields of [this.state] that [callGemini] reads. *)
Record State : Type := {
  apiKey : string;
  temperature : number;
  maxTokens : number
}.

(** The payload: one message and the generation settings. *)
Record Request : Type := {
  url : string;
  contents : list Content;
  generationConfig : GenerationConfig
}.

Definition request (st : State) (userMessage : string) : Request :=
  {| url := "https://generativelanguage.googleapis.com/v1beta/models/gemini-1.5-flash:generateContent?key="
            +:+ encodeURIComponent (apiKey st);
     contents := [ {| role := "user"; parts := [ {| text := userMessage |} ] |} ];
     generationConfig := {| cfg_temperature := temperature st;
                            maxOutputTokens := maxTokens st |} |}.

(** [data?.candidates?.[0]?.content?.parts?.[0]?.text] *)
Definition firstText (data : json) : value :=
  optGet "text"
    (optFirst (optGet "parts" (optGet "content" (optFirst (optGet "candidates" (Some data)))))).

(** How [callGemini] ends: with the text it returns, with an [Error] it
    made, of the given message, or with an exception of the engine. *)
Inductive Outcome : Type :=
| Returned (v : json)
| Failed (message : string)
| Raised (name : string).

(** [callGemini(userMessage)]; [resp.json()] throws on a body that does not
    parse, and [new Error(m)] converts [m] with [String]. *)
Definition callGemini (st : State) (fetch : Request -> FetchOutcome) (userMessage : string)
  : Outcome :=
  match fetch (request st userMessage) with
  | NetworkFailure => Raised TypeError
  | Response status body =>
      if negb (ok status) then
        match body with
        | None => Raised SyntaxError
        | Some err =>
            match get "error" (Some err) with
            | Throw e => Raised e
            | Ok e =>
                match toString (or_else (optGet "message" e)
                                  (JStr ("Gemini error " +:+ pretty status))) with
                | Throw e' => Raised e'
                | Ok m => Failed m
                end
            end
        end
      else
        match body with
        | None => Raised SyntaxError
        | Some data =>
            match firstText data with
            | Some t => if truthy (Some t) then Returned t
                        else Failed "Empty response from Gemini"
            | None => Failed "Empty response from Gemini"
            end
        end
  end.

End Legacy.

(** * Properties *)

(** ** The rolling memory *)

Lemma memoryEntry_record (m : json) :
  notNull m -> memoryEntry m = Ok (roleAndText m).
Proof.
  unfold notNull, memoryEntry, roleAndText.
  destruct m; intros H; try reflexivity. congruence.
Qed.

Lemma mapM_records (l : list json) :
  Forall notNull l -> mapM memoryEntry l = Ok (List.map roleAndText l).
Proof.
  induction 1 as [|m l Hm _ IH]; [reflexivity|].
  cbn [mapM List.map]. rewrite (memoryEntry_record m Hm). cbn [bind].
  rewrite IH. reflexivity.
Qed.

Lemma slice_window {A} (msgs : list A) (L : Z) :
  0 <= L ->
  slice (Z.max 0 (Z.of_nat (length msgs) - L)) msgs
  = drop (length msgs - Z.to_nat L) msgs.
Proof.
  intros HL. unfold slice.
  destruct (Z.ltb_spec (Z.max 0 (Z.of_nat (length msgs) - L)) 0) as [H|H]; [lia|].
  f_equal. lia.
Qed.

(** The window of [L] messages: the last [L], or all of them. *)
Lemma getRollingMemory_window (S : Session) (L : Z) :
  0 <= L ->
  Forall notNull (messages S) ->
  exists older window,
    messages S = older ++ window /\
    Z.of_nat (length window) = Z.min L (Z.of_nat (length (messages S))) /\
    getRollingMemory (Some S) (Some L) = Ok (List.map roleAndText window).
Proof.
  intros HL Hmsgs.
  set (n := (length (messages S) - Z.to_nat L)%nat).
  exists (take n (messages S)), (drop n (messages S)).
  split; [symmetry; apply take_drop|].
  split; [rewrite length_drop; subst n; lia|].
  unfold getRollingMemory. rewrite slice_window by exact HL.
  fold n. apply mapM_records, Forall_drop, Hmsgs.
Qed.

(** C1. For every session [S] and every limit [L >= 0], the memory window
    selector returns exactly [min(L, |S.messages|)] entries: the last [L]
    messages of [S], in their original order, each reduced to its role and
    its text (an entry has no other field). *)
Theorem getRollingMemory_last_messages (S : Session) (L : Z) :
  0 <= L ->
  Forall notNull (messages S) ->
  exists older window,
    messages S = older ++ window /\
    Z.of_nat (length window) = Z.min L (Z.of_nat (length (messages S))) /\
    getRollingMemory (Some S) (Some L) = Ok (List.map roleAndText window) /\
    Z.of_nat (length (List.map roleAndText window))
      = Z.min L (Z.of_nat (length (messages S))).
Proof.
  intros HL Hmsgs.
  destruct (getRollingMemory_window S L HL Hmsgs) as (older & window & Happ & Hlen & Hget).
  exists older, window. rewrite length_map. auto.
Qed.

Lemma getRollingMemory_last_messages_witness :
  exists older window,
    messages threeMessages = older ++ window /\
    Z.of_nat (length window) = Z.min 2 (Z.of_nat (length (messages threeMessages))) /\
    getRollingMemory (Some threeMessages) (Some 2) = Ok (List.map roleAndText window) /\
    Z.of_nat (length (List.map roleAndText window))
      = Z.min 2 (Z.of_nat (length (messages threeMessages))).
Proof.
  apply (getRollingMemory_last_messages threeMessages 2); [lia|].
  repeat constructor; discriminate.
Defined.

(** ** The generation client *)


Lemma clamp_within (n : number) (lo hi : Q) :
  n <> NaN -> (lo <= hi)%Q -> within lo hi (clamp n (Fin lo) (Fin hi)).
Proof.
  intros Hn Hlohi. unfold clamp.
  destruct n as [| |q|]; [congruence| | |]; cbn.
  - destruct (Qle_bool lo hi) eqn:E; cbn.
    + split; [apply Qle_refl|exact Hlohi].
    + split; [apply Qle_refl|exact Hlohi].
  - destruct (Qle_bool hi q) eqn:E1; cbn.
    + apply Qle_bool_iff in Hlohi as E2. rewrite E2. cbn.
      split; [exact Hlohi|apply Qle_refl].
    + destruct (Qle_bool lo q) eqn:E2; cbn.
      * apply Qle_bool_iff in E2. split; [exact E2|].
        apply Qnot_lt_le. intros Hlt. apply Qlt_le_weak in Hlt.
        apply Qle_bool_iff in Hlt. congruence.
      * split; [apply Qle_refl|exact Hlohi].
  - apply Qle_bool_iff in Hlohi as E2. rewrite E2. cbn.
    split; [exact Hlohi|apply Qle_refl].
Qed.

Lemma clamp_fixes (n : number) (lo hi : Q) :
  within lo hi n -> sameNumber (clamp n (Fin lo) (Fin hi)) n.
Proof.
  destruct n as [| |q|]; cbn; try tauto. intros [Hlo Hhi]. unfold clamp. cbn.
  destruct (Qle_bool hi q) eqn:E1; cbn.
  - assert (Hlh : Qle_bool lo hi = true)
      by (apply Qle_bool_iff; eapply Qle_trans; eassumption).
    rewrite Hlh. cbn. apply Qle_bool_iff in E1. apply Qle_antisym; assumption.
  - apply Qle_bool_iff in Hlo. rewrite Hlo. cbn. reflexivity.
Qed.

(** The request that is built carries the converted messages, the two
    clamped settings, the system instruction and the URL of the key. *)
Lemma requestOf_built (g : GeminiService) (memory : list MemoryEntry)
  (override : option Settings) (req : Request) :
  requestOf g memory override = Ok req ->
  toGeminiContents memory = Ok (contents (payload req)) /\
  generationConfig (payload req) = configOf (chosenSettings g override) /\
  systemInstruction (payload req) = buildSystemInstruction /\
  url req = buildUrl g.
Proof.
  unfold requestOf, buildPayload.
  destruct (toGeminiContents memory) as [mapped|]; cbn; [|discriminate].
  intros [= <-]. repeat split.
Qed.

Lemma requestOf_converts (g : GeminiService) (memory : list MemoryEntry)
  (override : option Settings) (mapped : list Content) :
  toGeminiContents memory = Ok mapped ->
  requestOf g memory override
  = Ok {| url := buildUrl g;
          payload := {| systemInstruction := buildSystemInstruction;
                        contents := mapped;
                        generationConfig := configOf (chosenSettings g override) |} |}.
Proof. intros H. unfold requestOf, buildPayload. rewrite H. reflexivity. Qed.

(** What [generate] does with the answer of the transport. *)
Lemma generate_built (g : GeminiService) (fetch : Request -> FetchOutcome) (elapsed : Z)
  (memory : list MemoryEntry) (override : option Settings) (req : Request) :
  getApiKey g <> "" ->
  requestOf g memory override = Ok req ->
  generate g fetch elapsed memory override
  = match fetch req with
    | NetworkFailure =>
        Rejected {| message := "Network error while contacting Gemini. Check your connection.";
                    err_status := Some 0; details := None; err_elapsedMs := None |}
    | Response status body =>
        if negb (ok status) then
          match (if truthy (serverMessage body)
                 then toString (or_else (serverMessage body) JNull) else Ok "") with
          | Throw e => Raised e
          | Ok messageFromServer =>
              Rejected {| message := if String.eqb messageFromServer ""
                                     then genericMessage status else messageFromServer;
                          err_status := Some status;
                          details := Some (safeJsonParse body);
                          err_elapsedMs := Some elapsed |}
          end
        else if negb (truthy (Some (safeJsonParse body))) then
          Rejected {| message := "Gemini returned an unreadable response.";
                      err_status := Some 500; details := None;
                      err_elapsedMs := Some elapsed |}
        else
          match extractText (safeJsonParse body) with
          | Ok t => Resolved {| g_text := t; elapsedMs := elapsed; raw := safeJsonParse body |}
          | Throw e => Raised e
          end
    end.
Proof.
  intros Hkey Hreq. apply String.eqb_neq in Hkey.
  unfold generate. rewrite Hkey.
  change (match override with
          | Some s => s
          | None => getSettings g
          end) with (chosenSettings g override).
  unfold requestOf in Hreq.
  destruct (buildPayload (chosenSettings g override) memory) as [p|]; cbn in Hreq;
    [|discriminate].
  injection Hreq as <-. reflexivity.
Qed.

(** [generate] consults the transport on the request of its settings and
    messages only. *)
Lemma generate_sends (g : GeminiService) (fetch : Request -> FetchOutcome) (elapsed : Z)
  (memory : list MemoryEntry) (override : option Settings) (req : Request) :
  requestOf g memory override = Ok req ->
  generate g fetch elapsed memory override
  = generate g (fun _ => fetch req) elapsed memory override.
Proof.
  intros Hreq. unfold generate.
  destruct (String.eqb (getApiKey g) ""); [reflexivity|].
  change (match override with
          | Some s => s
          | None => getSettings g
          end) with (chosenSettings g override).
  unfold requestOf in Hreq.
  destruct (buildPayload (chosenSettings g override) memory) as [p|]; cbn in Hreq;
    [|discriminate].
  injection Hreq as <-. reflexivity.
Qed.


(** C9, as the code has it. For every settings value supplied to
    [generate] whose temperature and maxTokens are absent or numbers other
    than NaN, the request carries a temperature within [0,1] and a
    maxOutputTokens within [1,2048]: an absent temperature counts as 0.4
    and an absent maxTokens as 512, a value of the range is kept, and the
    two values are the clamped settings whatever the messages are. *)
Theorem payload_settings_clamped (g : GeminiService) (memory : list MemoryEntry)
  (override : option Settings) :
  temperature (chosenSettings g override) <> Some NaN ->
  maxTokens (chosenSettings g override) <> Some NaN ->
  within 0 1 (cfg_temperature (configOf (chosenSettings g override))) /\
  within 1 2048 (maxOutputTokens (configOf (chosenSettings g override))) /\
  (temperature (chosenSettings g override) = None ->
   cfg_temperature (configOf (chosenSettings g override)) = Fin (4 # 10)) /\
  (maxTokens (chosenSettings g override) = None ->
   maxOutputTokens (configOf (chosenSettings g override)) = Fin 512) /\
  (forall n, temperature (chosenSettings g override) = Some n -> within 0 1 n ->
     sameNumber (cfg_temperature (configOf (chosenSettings g override))) n) /\
  (forall n, maxTokens (chosenSettings g override) = Some n -> within 1 2048 n ->
     sameNumber (maxOutputTokens (configOf (chosenSettings g override))) n) /\
  (forall n, temperature (chosenSettings g override) = Some n ->
     cfg_temperature (configOf (chosenSettings g override)) = clamp n (Fin 0) (Fin 1)) /\
  (forall n, maxTokens (chosenSettings g override) = Some n ->
     maxOutputTokens (configOf (chosenSettings g override)) = clamp n (Fin 1) (Fin 2048)) /\
  forall req,
    requestOf g memory override = Ok req ->
    generationConfig (payload req) = configOf (chosenSettings g override) /\
    forall fetch elapsed,
      generate g fetch elapsed memory override
      = generate g (fun _ => fetch req) elapsed memory override.
Proof.
  intros Ht Hm.
  cbn [configOf cfg_temperature maxOutputTokens].
  split; [|split; [|split; [|split; [|split; [|split; [|split; [|split]]]]]]].
  - apply clamp_within; [|unfold Qle; cbn; lia].
    destruct (temperature (chosenSettings g override)) as [n|]; cbn; congruence.
  - apply clamp_within; [|unfold Qle; cbn; lia].
    destruct (maxTokens (chosenSettings g override)) as [n|]; cbn; congruence.
  - intros ->. reflexivity.
  - intros ->. reflexivity.
  - intros n -> Hn. cbn [numberOr]. apply clamp_fixes, Hn.
  - intros n -> Hn. cbn [numberOr]. apply clamp_fixes, Hn.
  - intros n ->. reflexivity.
  - intros n ->. reflexivity.
  - intros req Hreq. split.
    + apply (requestOf_built g memory override req Hreq).
    + intros fetch elapsed. apply generate_sends, Hreq.
Qed.

(** C9, as the claim has it, fails: a NaN temperature goes through
    [Ids.clamp] unchanged. *)
Lemma payload_temperature_NaN :
  requestOf {| getApiKey := "key"; getSettings := noSettings |} []
    (Some {| apiKey := "key"; temperature := Some NaN; maxTokens := Some (Fin 512) |})
  = Ok {| url := buildUrl {| getApiKey := "key"; getSettings := noSettings |};
          payload := {| systemInstruction := buildSystemInstruction;
                        contents := [];
                        generationConfig := {| cfg_temperature := NaN;
                                               maxOutputTokens := Fin 512 |} |} |} /\
  within 0 1 NaN = False.
Proof. split; reflexivity. Qed.

Lemma payload_settings_clamped_witness :
  within 0 1
    (cfg_temperature (configOf {| apiKey := "key"; temperature := Some (Fin 7);
                                  maxTokens := None |})) /\
  maxOutputTokens (configOf {| apiKey := "key"; temperature := Some (Fin 7);
                               maxTokens := None |}) = Fin 512.
Proof.
  destruct (payload_settings_clamped {| getApiKey := "key"; getSettings := noSettings |} []
              (Some {| apiKey := "key"; temperature := Some (Fin 7); maxTokens := None |}))
    as (Ht & _ & _ & Hm & _); [cbn; discriminate|cbn; discriminate|].
  split; [exact Ht|apply Hm; reflexivity].
Defined.




(** ** The session store *)

Lemma append_nonempty_r (s t : string) : t <> "" -> s +:+ t <> "".
Proof. intros H. destruct s; cbn; [exact H|discriminate]. Qed.

Lemma nowIso_nonempty (e : Entropy) : nowIso e <> "".
Proof. apply append_nonempty_r. discriminate. Qed.

Lemma uid_sess_nonempty (e : Entropy) : uid e "sess" <> "".
Proof. discriminate. Qed.

Lemma printsNonEmpty_converts (v : value) : printsNonEmpty v -> converts v.
Proof.
  destruct v as [j|]; [|trivial]. intros H Ht. destruct (H Ht) as (s & Hs & _). eauto.
Qed.

(** Strings, numbers and booleans convert, to the text they hold. *)
Lemma converts_string (s : string) : converts (Some (JStr s)).
Proof. intros _. exists s. reflexivity. Qed.

Lemma or_else_converts (v : value) (d : string) :
  converts v -> exists s, toString (or_else v (JStr d)) = Ok s.
Proof.
  intros Hv. unfold or_else. destruct v as [j|]; [|exists d; reflexivity].
  destruct (truthy (Some j)) eqn:E; [|exists d; reflexivity]. apply Hv. exact E.
Qed.

Lemma or_else_nonempty (v : value) (d : string) :
  printsNonEmpty v -> d <> "" ->
  exists s, toString (or_else v (JStr d)) = Ok s /\ s <> "".
Proof.
  intros Hv Hd. unfold or_else. destruct v as [j|]; [|exists d; split; [reflexivity|exact Hd]].
  destruct (truthy (Some j)) eqn:E; [|exists d; split; [reflexivity|exact Hd]].
  apply Hv. exact E.
Qed.

Lemma or_else_string (s d : string) :
  s <> "" -> or_else (Some (JStr s)) (JStr d) = JStr s.
Proof.
  intros H. unfold or_else. cbn. apply String.eqb_neq in H. rewrite H. reflexivity.
Qed.

Lemma toJson_fields (y : Session) :
  optGet "id" (Some (toJson y)) = Some (JStr (id y)) /\
  optGet "title" (Some (toJson y)) = Some (JStr (title y)) /\
  optGet "createdAt" (Some (toJson y)) = Some (JStr (createdAt y)) /\
  optGet "updatedAt" (Some (toJson y)) = Some (JStr (updatedAt y)) /\
  optGet "messages" (Some (toJson y)) = Some (JArr (messages y)).
Proof. repeat split. Qed.

(** A session whose four string fields are not empty is left as it is. *)
Lemma ensureShape_fixed (e : Entropy) (y : Session) :
  filled y -> ensureShape e (Some (toJson y)) = Ok y.
Proof.
  intros (Hi & Ht & Hc & Hu).
  destruct (toJson_fields y) as (Ei & Et & Ec & Eu & Em).
  unfold ensureShape. rewrite Ei, Et, Ec, Eu, Em.
  rewrite !or_else_string by assumption. destruct y; reflexivity.
Qed.

(** [ensureShape] returns when the four fields convert. *)
Lemma ensureShape_returns (e : Entropy) (x : value) :
  fieldsConvert x -> exists y, ensureShape e x = Ok y.
Proof.
  intros (Hi & Ht & Hc & Hu). unfold ensureShape.
  destruct (or_else_converts _ (uid e "sess") Hi) as (i & ->).
  destruct (or_else_converts _ "Session" Ht) as (t & ->).
  destruct (or_else_converts _ (nowIso e) Hc) as (c & ->).
  destruct (or_else_converts _ (nowIso e) Hu) as (u & ->).
  cbn [bind]. eauto.
Qed.

(** It returns a session without an empty field when they print. *)
Lemma ensureShape_filled (e : Entropy) (x : value) :
  fieldsPrint x -> exists y, ensureShape e x = Ok y /\ filled y.
Proof.
  intros (Hi & Ht & Hc & Hu). unfold ensureShape.
  destruct (or_else_nonempty _ (uid e "sess") Hi (uid_sess_nonempty e)) as (i & -> & Ni).
  destruct (or_else_nonempty _ "Session" Ht) as (t & -> & Nt); [discriminate|].
  destruct (or_else_nonempty _ (nowIso e) Hc (nowIso_nonempty e)) as (c & -> & Nc).
  destruct (or_else_nonempty _ (nowIso e) Hu (nowIso_nonempty e)) as (u & -> & Nu).
  cbn [bind]. eexists. split; [reflexivity|]. repeat split; assumption.
Qed.

(** What it returns: the id when it is a string, and the messages. *)
Lemma ensureShape_keeps_id (e : Entropy) (x : value) (i : string) (y : Session) :
  optGet "id" x = Some (JStr i) -> i <> "" -> ensureShape e x = Ok y -> id y = i.
Proof.
  intros Hid Hne. unfold ensureShape. rewrite Hid, or_else_string by exact Hne.
  cbn [toString bind].
  destruct (toString (or_else (optGet "title" x) (JStr "Session"))); cbn [bind]; [|discriminate].
  destruct (toString (or_else (optGet "createdAt" x) (JStr (nowIso e)))); cbn [bind];
    [|discriminate].
  destruct (toString (or_else (optGet "updatedAt" x) (JStr (nowIso e)))); cbn [bind];
    [|discriminate].
  intros [= <-]. reflexivity.
Qed.


Ltac prints :=
  repeat split; cbn; try exact I;
  intros _; eexists; (split; [reflexivity|discriminate]).

(** C4, as the code has it. For every candidate record whose id, title,
    createdAt and updatedAt, where truthy, are converted by [String] to a
    text that is not empty (every record whose four fields are absent,
    strings, numbers, booleans or objects without a property of their own
    named [toString] is one), [ensureShape] returns, and normalizing the
    normalized record gives it back, whatever the clock and the random
    source are at the second call. *)
Theorem ensureShape_idempotent (e1 e2 : Entropy) (x : value) :
  fieldsPrint x ->
  exists y,
    ensureShape e1 x = Ok y /\
    ensureShape e2 (Some (toJson y)) = Ok y.
Proof.
  intros Hx.
  destruct (ensureShape_filled e1 x Hx) as (y & Hy & Hfilled).
  exists y. split; [exact Hy|]. apply ensureShape_fixed, Hfilled.
Qed.

(** C4, as the claim has it, fails on a record whose title is the empty
    array: the first call prints the title as the empty string, the second
    replaces it by the default title.  And on a record whose title is an
    object with a property of its own named [toString], [String] throws:
    there is no normalized record to compare. *)
Lemma ensureShape_not_idempotent :
  ensureShape entropy0
    (Some (JObj [("id", JStr "s1"); ("title", JArr []);
                 ("createdAt", JStr "t0"); ("updatedAt", JStr "t0");
                 ("messages", JArr [])]))
  = Ok {| id := "s1"; title := ""; createdAt := "t0"; updatedAt := "t0"; messages := [] |} /\
  ensureShape entropy1
    (Some (toJson {| id := "s1"; title := ""; createdAt := "t0"; updatedAt := "t0";
                     messages := [] |}))
  = Ok {| id := "s1"; title := "Session"; createdAt := "t0"; updatedAt := "t0";
          messages := [] |} /\
  ensureShape entropy0
    (Some (JObj [("id", JStr "s1"); ("title", JObj [("toString", JNum "1")])]))
  = Throw TypeError.
Proof. repeat split; vm_compute; reflexivity. Qed.

Lemma ensureShape_idempotent_witness :
  exists y,
    ensureShape entropy0 (Some (JObj [("title", JStr "Notes"); ("id", JNum "7")])) = Ok y /\
    ensureShape entropy1 (Some (toJson y)) = Ok y.
Proof.
  apply (ensureShape_idempotent entropy0 entropy1
           (Some (JObj [("title", JStr "Notes"); ("id", JNum "7")]))).
  prints.
Defined.

Lemma idIs_notNull (v : value) (x : json) :
  notNull x -> idIs v x = Ok (strictEq (optGet "id" (Some x)) v).
Proof. unfold notNull, idIs. destruct x; intros H; try reflexivity. congruence. Qed.

Lemma findIndex_notNull (i : string) (l : list json) :
  Forall notNull l ->
  findIndex (idIs (Some (JStr i))) l = Ok (firstIndex (hasId i) l).
Proof.
  induction 1 as [|x l Hx _ IH]; [reflexivity|].
  cbn [findIndex firstIndex]. rewrite (idIs_notNull _ x Hx). cbn [bind]. fold (hasId i x).
  destruct (hasId i x); [reflexivity|]. rewrite IH. reflexivity.
Qed.

Lemma find_notNull (i : string) (l : list json) :
  Forall notNull l ->
  find (idIs (Some (JStr i))) l = Ok (List.find (hasId i) l).
Proof.
  induction 1 as [|x l Hx _ IH]; [reflexivity|].
  cbn [find List.find]. rewrite (idIs_notNull _ x Hx). cbn [bind]. fold (hasId i x).
  destruct (hasId i x); [reflexivity|]. exact IH.
Qed.

Lemma firstIndex_Some {A} (p : A -> bool) (l : list A) (k : nat) :
  firstIndex p l = Some k ->
  exists old, l !! k = Some old /\ p old = true /\
    forall j x, (j < k)%nat -> l !! j = Some x -> p x = false.
Proof.
  revert k. induction l as [|y l IH]; intros k H; cbn in H; [discriminate|].
  destruct (p y) eqn:Hy.
  - injection H as <-. exists y. repeat split; [exact Hy|]. intros j x Hj. lia.
  - destruct (firstIndex p l) as [k'|] eqn:Hk; cbn in H; [|discriminate].
    injection H as <-. destruct (IH k' eq_refl) as (old & Hold & Hp & Hbefore).
    exists old. repeat split; [exact Hold|exact Hp|].
    intros [|j] x Hj Hx; cbn in Hx.
    + injection Hx as <-. exact Hy.
    + apply (Hbefore j x); [lia|exact Hx].
Qed.

Lemma firstIndex_None {A} (p : A -> bool) (l : list A) :
  firstIndex p l = None -> Forall (fun x => p x = false) l.
Proof.
  induction l as [|y l IH]; cbn; intros H; [constructor|].
  destruct (p y) eqn:Hy; [discriminate|].
  destruct (firstIndex p l); [discriminate|]. constructor; [exact Hy|apply IH; reflexivity].
Qed.

Lemma find_after_insert {A} (p : A -> bool) (l : list A) (k : nat) (y : A) :
  firstIndex p l = Some k -> p y = true -> List.find p (<[k := y]> l) = Some y.
Proof.
  revert k. induction l as [|x l IH]; intros k H Hy; cbn in H; [discriminate|].
  destruct (p x) eqn:Hx.
  - injection H as <-. cbn. rewrite Hy. reflexivity.
  - destruct (firstIndex p l) as [k'|] eqn:Hk; cbn in H; [|discriminate].
    injection H as <-. cbn. rewrite Hx. apply IH; [reflexivity|exact Hy].
Qed.

Lemma notNull_toJson (y : Session) : notNull (toJson y).
Proof. discriminate. Qed.

Lemma hasId_toJson (y : Session) : hasId (id y) (toJson y) = true.
Proof. unfold hasId. cbn. apply String.eqb_refl. Qed.

Lemma Forall_notNull_insert (l : list json) (k : nat) (y : json) :
  Forall notNull l -> notNull y -> Forall notNull (<[k := y]> l).
Proof. intros Hl Hy. apply Forall_insert; assumption. Qed.

(** C3, as the code has it. For every record [s] whose id is a non-empty
    string and whose title, createdAt and updatedAt, where truthy, are
    converted by [String] to a text that is not empty, on a collection
    without [null] entries, [upsertSession(s)] normalizes [s] via
    [ensureShape] and either replaces the first entry whose id matches, in
    place, or, when no entry matches, puts the normalized session in front;
    the active pointer is not touched, and [getById(s.id)] then returns a
    session equal to the normalized one. *)
Theorem upsertSession_then_getById (e e' : Entropy) (s : value) (st : Storage) (i : string) :
  optGet "id" s = Some (JStr i) ->
  i <> "" ->
  fieldsPrint s ->
  Forall notNull (loadAll st) ->
  exists shaped st1,
    ensureShape e s = Ok shaped /\
    upsertSession e s st = Ok (st1, shaped) /\
    id shaped = i /\
    ((exists k old,
         loadAll st !! k = Some old /\ hasId i old = true /\
         (forall j x, (j < k)%nat -> loadAll st !! j = Some x -> hasId i x = false) /\
         loadAll st1 = <[k := toJson shaped]> (loadAll st))
     \/ (Forall (fun x => hasId i x = false) (loadAll st) /\
         loadAll st1 = toJson shaped :: loadAll st)) /\
    getActiveId st1 = getActiveId st /\
    getById e' (optGet "id" s) st1 = Ok (Some shaped).
Proof.
  intros Hid Hne Hprint Hall.
  destruct (ensureShape_filled e s Hprint) as (shaped & Hshape & Hfilled).
  assert (Eid : id shaped = i) by exact (ensureShape_keeps_id e s i shaped Hid Hne Hshape).
  exists shaped.
  unfold upsertSession. rewrite Hshape. cbn [bind]. rewrite Eid.
  rewrite (findIndex_notNull i _ Hall). cbn [bind].
  eexists. split; [reflexivity|]. split; [reflexivity|]. split; [reflexivity|].
  assert (Hfixed : forall l, Forall notNull l -> List.find (hasId i) l = Some (toJson shaped) ->
            getById e' (optGet "id" s) (saveAll l st) = Ok (Some shaped)).
  { intros l Hl Hfind. unfold getById. rewrite Hid. cbn [loadAll saveAll sessionsItem].
    rewrite (find_notNull i l Hl), Hfind. cbn [bind truthy toJson].
    rewrite (ensureShape_fixed e' shaped Hfilled). reflexivity. }
  destruct (firstIndex (hasId i) (loadAll st)) as [k|] eqn:Hk.
  - split; [|split; [reflexivity|]].
    + left. destruct (firstIndex_Some _ _ _ Hk) as (old & Hold & Hp & Hbefore).
      exists k, old. repeat split; assumption.
    + apply Hfixed.
      * apply Forall_notNull_insert; [exact Hall|apply notNull_toJson].
      * apply find_after_insert; [exact Hk|]. rewrite <- Eid. apply hasId_toJson.
  - split; [|split; [reflexivity|]].
    + right. split; [apply firstIndex_None; exact Hk|reflexivity].
    + apply Hfixed.
      * constructor; [apply notNull_toJson|exact Hall].
      * cbn [List.find]. rewrite <- Eid, hasId_toJson. reflexivity.
Qed.

(** C3, as the claim has it, fails on a record without an id, and on a
    session whose id is the empty string: the session is stored under a
    fresh id and [getById(s.id)] finds nothing.  And on a record whose
    title is an object with a property of its own named [toString],
    [upsertSession] throws and stores nothing. *)
Lemma upsertSession_without_id_not_found :
  (exists shaped,
      id shaped = freshId /\
      upsertSession entropy0 (Some partialRecord) emptyStorage
      = Ok (holding [toJson shaped] None, shaped) /\
      getById entropy1 (optGet "id" (Some partialRecord)) (holding [toJson shaped] None)
      = Ok None) /\
  upsertSession entropy0 (Some (toJson (notes ""))) emptyStorage
  = Ok (holding [toJson (notes freshId)] None, notes freshId) /\
  getById entropy1 (optGet "id" (Some (toJson (notes ""))))
    (holding [toJson (notes freshId)] None)
  = Ok None /\
  upsertSession entropy0
    (Some (JObj [("id", JStr "s1"); ("title", JObj [("toString", JNum "1")])])) emptyStorage
  = Throw TypeError.
Proof.
  split; [|repeat split; vm_compute; reflexivity].
  exists {| id := freshId; title := "Notes"; createdAt := nowIso entropy0;
            updatedAt := nowIso entropy0; messages := [] |}.
  split; [|split]; vm_compute; reflexivity.
Qed.

Lemma upsertSession_then_getById_witness :
  exists shaped st1,
    upsertSession entropy0 (Some (JObj [("id", JStr "s1"); ("title", JStr "Notes")]))
      {| sessionsItem := Some (JArr [JObj [("id", JStr "s0")]; JObj [("id", JStr "s1")]]);
         activeItem := Some "s0" |}
    = Ok (st1, shaped)
    /\ getById entropy1 (Some (JStr "s1")) st1 = Ok (Some shaped).
Proof.
  destruct (upsertSession_then_getById entropy0 entropy1
              (Some (JObj [("id", JStr "s1"); ("title", JStr "Notes")]))
              {| sessionsItem := Some (JArr [JObj [("id", JStr "s0")]; JObj [("id", JStr "s1")]]);
                 activeItem := Some "s0" |} "s1")
    as (shaped & st1 & _ & Hup & _ & _ & _ & Hget).
  - reflexivity.
  - discriminate.
  - prints.
  - repeat constructor; discriminate.
  - exists shaped, st1. split; [exact Hup|exact Hget].
Defined.

Lemma createNewSession_filled (e : Entropy) (t : string) :
  t <> "" -> filled (createNewSession e (Some t)).
Proof.
  intros Ht. unfold filled. cbn. repeat split.
  - discriminate.
  - apply String.eqb_neq in Ht. rewrite Ht. apply String.eqb_neq. exact Ht.
  - apply nowIso_nonempty.
  - apply nowIso_nonempty.
Qed.

Lemma createNewSession_fixed (e e' : Entropy) (t : string) :
  t <> "" ->
  ensureShape e' (Some (toJson (createNewSession e (Some t)))) = Ok (createNewSession e (Some t)).
Proof. intros Ht. apply ensureShape_fixed, createNewSession_filled, Ht. Qed.

Lemma hasId_of_field (x : json) (i : string) :
  optGet "id" (Some x) = Some (JStr i) -> hasId i x = true.
Proof. intros H. unfold hasId. rewrite H. cbn. apply String.eqb_refl. Qed.

Lemma loadAll_setActiveId (i : string) (st : Storage) :
  loadAll (setActiveId i st) = loadAll st.
Proof. reflexivity. Qed.

Lemma getActiveId_setActiveId (i : string) (st : Storage) :
  getActiveId (setActiveId i st) = i.
Proof. reflexivity. Qed.

(** The sessions are shaped one by one, in order. *)
Lemma imapM_cons {A B} (f : nat -> A -> result B) (x : A) (l : list A) (all : list B) :
  imapM f (x :: l) = Ok all ->
  exists y ys, all = y :: ys /\ f 0%nat x = Ok y /\ imapM (fun k => f (S k)) l = Ok ys.
Proof.
  cbn [imapM]. destruct (f 0%nat x) as [y|]; cbn [bind]; [|discriminate].
  destruct (imapM (fun k => f (S k)) l) as [ys|]; cbn [bind]; [|discriminate].
  intros [= <-]. eauto.
Qed.

Lemma imapM_returns (env : nat -> Entropy) (l : list json) :
  Forall (fun x => fieldsConvert (Some x)) l ->
  exists all, imapM (fun k s => ensureShape (env k) (Some s)) l = Ok all.
Proof.
  intros Hl. revert env. induction Hl as [|x l Hx _ IH]; intros env; [exists []; reflexivity|].
  cbn [imapM]. destruct (ensureShape_returns (env 0%nat) (Some x) Hx) as (y & ->).
  destruct (IH (fun k => env (S k))) as (ys & ->). cbn [bind]. eauto.
Qed.

Lemma existsb_shaped (env : nat -> Entropy) (active : string) (l : list json)
  (all : list Session) :
  Forall hasStringId l ->
  imapM (fun k s => ensureShape (env k) (Some s)) l = Ok all ->
  existsb (fun s => String.eqb (id s) active) all = true ->
  exists x, x ∈ l /\ hasId active x = true.
Proof.
  intros Hl. revert env all.
  induction Hl as [|x l (i & Hid & Hne) _ IH]; intros env all Hall H.
  - injection Hall as <-. discriminate.
  - apply imapM_cons in Hall as (y & ys & -> & Hy & Hys).
    cbn [existsb] in H. apply orb_true_iff in H as [H|H].
    + exists x. split; [left|].
      apply String.eqb_eq in H. rewrite <- H.
      rewrite (ensureShape_keeps_id _ _ i y Hid Hne Hy). apply hasId_of_field. exact Hid.
    + destruct (IH (fun k => env (S k)) ys Hys H) as (z & Hz & Hhas).
      exists z. split; [right; exact Hz|exact Hhas].
Qed.

(** What [ensureAtLeastOneSession] returns, by the sessions it shaped. *)
Lemma ensureAtLeastOneSession_returned (env : nat -> Entropy) (a a' : App) :
  ensureAtLeastOneSession env a = Ok a' ->
  exists all,
    imapM (fun k s => ensureShape (env k) (Some s)) (loadAll (storage a)) = Ok all /\
    match all with
    | [] =>
        loadAll (storage a) = [] /\
        a' = withStorage
               (setActiveId (uid (env 0%nat) "sess")
                  (saveAll [toJson (createNewSession (env 0%nat) (Some "Operator Session"))]
                     (storage a)))
               (uid (env 0%nat) "sess") a
    | first :: _ =>
        loadAll (storage a) <> [] /\
        ((isEmpty (getActiveId (storage a))
          || negb (existsb (fun s => String.eqb (id s) (getActiveId (storage a))) all) = true /\
          a' = withStorage (setActiveId (id first) (storage a)) (id first) a)
         \/ (isEmpty (getActiveId (storage a)) = false /\
             existsb (fun s => String.eqb (id s) (getActiveId (storage a))) all = true /\
             a' = withStorage (storage a) (getActiveId (storage a)) a))
    end.
Proof.
  unfold ensureAtLeastOneSession.
  destruct (imapM _ (loadAll (storage a))) as [all|] eqn:Hall; cbn [bind]; [|discriminate].
  intros H. exists all. split; [reflexivity|].
  destruct all as [|first rest].
  - injection H as <-. split; [|reflexivity].
    destruct (loadAll (storage a)) as [|x l]; [reflexivity|].
    apply imapM_cons in Hall as (y & ys & E & _). discriminate.
  - split; [intros E; rewrite E in Hall; discriminate|].
    destruct (isEmpty (getActiveId (storage a))
              || negb (existsb (fun s => String.eqb (id s) (getActiveId (storage a)))
                         (first :: rest))) eqn:Hc;
      injection H as <-.
    + left. split; reflexivity.
    + right. apply orb_false_iff in Hc as [Hempty Hex]. apply negb_false_iff in Hex.
      repeat split; assumption.
Qed.

(** C2, as the code has it. From every state of the store,
    [deleteAllSessions()] followed by [ensureAtLeastOneSession()] leaves
    exactly one session, and the active pointer references it; whenever
    [ensureAtLeastOneSession()] returns, the collection is not empty, and
    it returns when [String] converts the fields of every stored session;
    and when moreover every stored session carries a non-empty string id,
    the active pointer is then a non-empty id of a stored session. *)
Theorem ensureAtLeastOneSession_heals (env : nat -> Entropy) (a : App) :
  (exists created a',
      clearAllSessions env a = Ok a' /\
      loadAll (storage a') = [toJson created] /\
      getActiveId (storage a') = id created /\
      activeSessionId a' = id created /\
      id created <> "" /\
      forall e, getById e (Some (JStr (id created))) (storage a') = Ok (Some created)) /\
  (forall a',
      ensureAtLeastOneSession env a = Ok a' ->
      loadAll (storage a') <> [] /\
      activeSessionId a' = getActiveId (storage a')) /\
  (Forall (fun x => fieldsConvert (Some x)) (loadAll (storage a)) ->
   exists a', ensureAtLeastOneSession env a = Ok a') /\
  (Forall hasStringId (loadAll (storage a)) ->
   Forall (fun x => fieldsConvert (Some x)) (loadAll (storage a)) ->
   exists a',
     ensureAtLeastOneSession env a = Ok a' /\
     getActiveId (storage a') <> "" /\
     exists x, x ∈ loadAll (storage a') /\ hasId (getActiveId (storage a')) x = true).
Proof.
  assert (Hreturns : Forall (fun x => fieldsConvert (Some x)) (loadAll (storage a)) ->
                     exists a', ensureAtLeastOneSession env a = Ok a').
  { intros Hconv. unfold ensureAtLeastOneSession.
    destruct (imapM_returns env _ Hconv) as (all & ->). cbn [bind].
    destruct all as [|first rest]; [eauto|].
    destruct (isEmpty _ || negb _); eauto. }
  split; [|split; [|split]].
  - exists (createNewSession (env 0%nat) (Some "Operator Session")).
    eexists. split; [reflexivity|].
    repeat split; try reflexivity; [discriminate|].
    intros e. unfold getById.
    change (loadAll _) with [toJson (createNewSession (env 0%nat) (Some "Operator Session"))].
    cbn [find idIs get optGet toJson assoc String.eqb Ascii.eqb Bool.eqb bind strictEq id
         createNewSession].
    rewrite String.eqb_refl.
    change (JObj _) with (toJson (createNewSession (env 0%nat) (Some "Operator Session"))).
    cbn [bind]. change (truthy (Some (toJson _))) with true. cbv iota.
    rewrite (createNewSession_fixed (env 0%nat) e "Operator Session") by discriminate.
    reflexivity.
  - intros a' H.
    destruct (ensureAtLeastOneSession_returned env a a' H) as (all & _ & Hall).
    destruct all as [|first rest].
    + destruct Hall as (_ & ->). split; [discriminate|reflexivity].
    + destruct Hall as (Hne & [(_ & ->)|(_ & _ & ->)]);
        cbn [withStorage storage activeSessionId];
        rewrite ?loadAll_setActiveId, ?getActiveId_setActiveId; split; auto.
  - exact Hreturns.
  - intros Hl Hconv. destruct (Hreturns Hconv) as (a' & H). exists a'. split; [exact H|].
    destruct (ensureAtLeastOneSession_returned env a a' H) as (all & Hshaped & Hall).
    destruct all as [|first rest].
    + destruct Hall as (_ & ->). cbn. split; [discriminate|].
      exists (toJson (createNewSession (env 0%nat) (Some "Operator Session"))).
      split; [left|]. unfold hasId. cbn. apply String.eqb_refl.
    + destruct Hall as (Hne & Hcase).
      destruct (loadAll (storage a)) as [|x l] eqn:Hload; [congruence|].
      pose proof Hl as Hl0. apply Forall_cons in Hl0 as [(i & Hid & Hnei) _].
      pose proof Hshaped as Hshaped0.
      apply imapM_cons in Hshaped0 as (y & ys & [= <- <-] & Hy & _).
      destruct Hcase as [(_ & ->)|(Hempty & Hex & ->)];
        cbn [withStorage storage activeSessionId];
        rewrite ?loadAll_setActiveId, ?getActiveId_setActiveId, Hload.
      * rewrite (ensureShape_keeps_id _ _ i first Hid Hnei Hy).
        split; [exact Hnei|].
        exists x. split; [left|apply hasId_of_field; exact Hid].
      * split.
        -- intros E. rewrite E in Hempty. discriminate.
        -- apply (existsb_shaped env (getActiveId (storage a)) (x :: l) _ Hl Hshaped Hex).
Qed.

(** C2, as the claim has it, fails when a stored session carries no id, or
    the empty string as its id: the pointer is set to an id made for the
    occasion, which no stored session carries.  And on a stored session
    whose title is an object with a property of its own named [toString],
    [ensureAtLeastOneSession] throws. *)
Lemma ensureAtLeastOneSession_dangling :
  (ensureAtLeastOneSession (fun _ => entropy0) (appOf (holding [partialRecord] None))
   = Ok (withStorage (holding [partialRecord] (Some freshId)) freshId
           (appOf (holding [partialRecord] None))) /\
   getById entropy1 (Some (JStr freshId)) (holding [partialRecord] (Some freshId))
   = Ok None) /\
  (ensureAtLeastOneSession (fun _ => entropy0) (appOf (holding [toJson (notes "")] (Some "")))
   = Ok (withStorage (holding [toJson (notes "")] (Some freshId)) freshId
           (appOf (holding [toJson (notes "")] (Some "")))) /\
   getById entropy1 (Some (JStr freshId)) (holding [toJson (notes "")] (Some freshId))
   = Ok None) /\
  ensureAtLeastOneSession (fun _ => entropy0)
    (appOf (holding [JObj [("id", JStr "s1"); ("title", JObj [("toString", JNum "1")])]]
              (Some "s1")))
  = Throw TypeError.
Proof. repeat split; vm_compute; reflexivity. Qed.

Lemma ensureAtLeastOneSession_heals_witness :
  exists a',
    ensureAtLeastOneSession (fun _ => entropy0)
      (appOf {| sessionsItem := Some (JArr [JObj [("id", JStr "s0")]; JObj [("id", JStr "s1")]]);
                activeItem := Some "gone" |}) = Ok a' /\
    exists x, x ∈ loadAll (storage a') /\ hasId (getActiveId (storage a')) x = true.
Proof.
  destruct (ensureAtLeastOneSession_heals (fun _ => entropy0)
     (appOf {| sessionsItem := Some (JArr [JObj [("id", JStr "s0")]; JObj [("id", JStr "s1")]]);
               activeItem := Some "gone" |})) as (_ & _ & _ & H).
  destruct H as (a' & Hrun & _ & Hx); [| |exists a'; split; [exact Hrun|exact Hx]].
  - repeat constructor.
    + exists "s0". split; [reflexivity|discriminate].
    + exists "s1". split; [reflexivity|discriminate].
  - repeat constructor; cbn; try exact I; intros _; eexists; reflexivity.
Defined.

(** ** The markdown renderer *)

Lemma append_nil_r (s : string) : s +:+ "" = s.
Proof. induction s as [|a s IH]; [reflexivity|]. change (String a (s +:+ "") = String a s). now rewrite IH. Qed.

Lemma append_assoc (s t u : string) : (s +:+ t) +:+ u = s +:+ (t +:+ u).
Proof.
  induction s as [|a s IH]; [reflexivity|].
  change (String a ((s +:+ t) +:+ u) = String a (s +:+ (t +:+ u))). now rewrite IH.
Qed.

Lemma render_app (bs cs : list Block) : render (bs ++ cs) = render bs +:+ render cs.
Proof.
  induction bs as [|b bs IH]; [reflexivity|].
  cbn [render app]. rewrite IH, append_assoc. reflexivity.
Qed.

Lemma scanLine_classify (st : Scan) (line : string) :
  scanLine st line =
  match classify line with
  | Item m t => pushItem m t st
  | Blank => flushList st
  | Para p => pushParagraph p (flushList st)
  end.
Proof.
  unfold scanLine, classify.
  destruct (matchAtStart ulRe (trimEnd line)); [reflexivity|].
  destruct (matchAtStart olRe (trimEnd line)); [reflexivity|].
  destruct (isEmpty (trim (trimEnd line))); reflexivity.
Qed.

Lemma trim_empty_trimEnd (s : string) : trim s = "" -> trimEnd s = "".
Proof.
  unfold trim. induction s as [|c s IH]; [reflexivity|].
  cbn [trimStart trimEnd]. destruct (isSpace c) eqn:Hc.
  - intros H. rewrite (IH H). reflexivity.
  - intros H. cbn [trimEnd] in H. rewrite Hc in H. exact H.
Qed.

Lemma isEmpty_true (s : string) : isEmpty s = true <-> s = "".
Proof. destruct s; cbn; split; congruence. Qed.

(** A line of white space only is a blank line of the scan. *)
Lemma classify_blank (line : string) : isEmpty (trim line) = true -> classify line = Blank.
Proof.
  intros H. apply isEmpty_true, trim_empty_trimEnd in H.
  unfold classify. rewrite H. reflexivity.
Qed.

Lemma flushList_open (st : Scan) :
  wellFormed st ->
  flushList st = {| html := html st +:+ render (closeList (openOf st));
                    listMode := None; listBuf := [] |}.
Proof.
  destruct st as [h [m|] [|x buf]]; cbn; try tauto; intros _.
  - unfold flushList, openOf. cbn. rewrite append_nil_r. reflexivity.
  - rewrite append_nil_r. reflexivity.
Qed.

Lemma wellFormed_scanLine (st : Scan) (line : string) :
  wellFormed st -> wellFormed (scanLine st line).
Proof.
  intros Hwf. rewrite scanLine_classify.
  destruct (classify line) as [m t| |p].
  - unfold pushItem. destruct st as [h [m'|] [|x buf]]; cbn in *; try tauto.
    destruct (isMode m' m); cbn; exact I.
  - rewrite (flushList_open st Hwf). exact I.
  - rewrite (flushList_open st Hwf). unfold pushParagraph. cbn.
    destruct (isEmpty (trim p)); exact I.
Qed.

Lemma wellFormed_fold (lines : list string) (st : Scan) :
  wellFormed st -> wellFormed (fold_left scanLine lines st).
Proof.
  revert st. induction lines as [|l lines IH]; intros st H; [exact H|].
  cbn [fold_left]. apply IH, wellFormed_scanLine, H.
Qed.

Lemma isMode_false (a b : ListMode) : isMode a b = false <-> a <> b.
Proof. destruct a, b; cbn; split; congruence. Qed.

Lemma isMode_true (a b : ListMode) : isMode a b = true <-> a = b.
Proof. destruct a, b; cbn; split; congruence. Qed.

Lemma classify_para (line p : string) : classify line = Para p -> isEmpty (trim p) = false.
Proof.
  unfold classify.
  destruct (matchAtStart ulRe (trimEnd line)); [discriminate|].
  destruct (matchAtStart olRe (trimEnd line)); [discriminate|].
  destruct (isEmpty (trim (trimEnd line))) eqn:E; [discriminate|].
  intros H. injection H as <-. exact E.
Qed.

(** The scan computes the blocks of its specification. *)
Lemma scan_refines_group (lines : list string) (st : Scan) :
  wellFormed st ->
  html (flushList (fold_left scanLine lines st))
  = html st +:+ render (group (openOf st) (List.map classify lines)).
Proof.
  revert st. induction lines as [|line lines IH]; intros st Hwf.
  - cbn [fold_left List.map group]. rewrite (flushList_open st Hwf). reflexivity.
  - cbn [fold_left List.map]. rewrite (IH _ (wellFormed_scanLine st line Hwf)).
    rewrite scanLine_classify.
    destruct (classify line) as [m t| |p] eqn:Hk.
    + destruct st as [h [m'|] [|x buf]]; cbn in Hwf; try tauto; try reflexivity.
      unfold pushItem. cbn [listMode listBuf html openOf group].
      destruct (isMode m' m) eqn:Hm; cbn [html listMode listBuf app openOf].
      * reflexivity.
      * cbn [flushList listMode listBuf html app render renderBlock].
        rewrite append_assoc. reflexivity.
    + rewrite (flushList_open st Hwf). cbn [html openOf listMode listBuf group].
      rewrite render_app, append_assoc. reflexivity.
    + rewrite (flushList_open st Hwf). unfold pushParagraph.
      cbn [html openOf listMode listBuf group].
      rewrite (classify_para line p Hk). cbn [html openOf listMode listBuf].
      rewrite render_app. cbn [render renderBlock]. rewrite !append_assoc. reflexivity.
Qed.

(** Every list of the specification is a run of consecutive items of its
    own kind. *)
Lemma group_runs (ks : list LineKind) (open : option (ListMode * list string))
  (m : ListMode) (items : list string) :
  In (ListBlock m items) (group open ks) ->
  exists before after, pending open ++ ks = before ++ List.map (Item m) items ++ after.
Proof.
  revert open. induction ks as [|k ks IH]; intros open Hin.
  - destruct open as [[m' buf]|]; cbn in Hin; [|tauto].
    destruct Hin as [E|[]]. injection E as -> ->.
    exists [], []. cbn. rewrite !app_nil_r. reflexivity.
  - destruct k as [m1 t| |p].
    + destruct open as [[m' buf]|]; cbn [group] in Hin.
      * destruct (isMode m' m1) eqn:Hm.
        -- apply isMode_true in Hm as ->.
           destruct (IH _ Hin) as (before & after & E).
           exists before, after. rewrite <- E. cbn [pending].
           rewrite map_app, <- app_assoc. reflexivity.
        -- destruct Hin as [E|Hin].
           ++ injection E as -> ->. exists [], (Item m1 t :: ks). reflexivity.
           ++ destruct (IH _ Hin) as (before & after & E).
              exists (pending (Some (m', buf)) ++ before), after.
              rewrite <- app_assoc, <- E. reflexivity.
      * destruct (IH _ Hin) as (before & after & E).
        exists before, after. rewrite <- E. reflexivity.
    + cbn [group] in Hin. apply in_app_or in Hin as [Hin|Hin].
      * destruct open as [[m' buf]|]; cbn in Hin; [|tauto].
        destruct Hin as [E|[]]. injection E as -> ->.
        exists [], (Blank :: ks). reflexivity.
      * destruct (IH _ Hin) as (before & after & E). cbn [pending app] in E.
        exists (pending open ++ Blank :: before), after.
        rewrite E, <- app_assoc. reflexivity.
    + cbn [group] in Hin. apply in_app_or in Hin as [Hin|[Hin|Hin]].
      * destruct open as [[m' buf]|]; cbn in Hin; [|tauto].
        destruct Hin as [E|[]]. injection E as -> ->.
        exists [], (Para p :: ks). reflexivity.
      * discriminate.
      * destruct (IH _ Hin) as (before & after & E). cbn [pending app] in E.
        exists (pending open ++ Para p :: before), after.
        rewrite E, <- app_assoc. reflexivity.
Qed.

Lemma openList_render (st : Scan) :
  wellFormed st -> render (closeList (openOf st)) = openList st.
Proof.
  destruct st as [h [m|] [|x buf]]; cbn; try tauto; intros _.
  apply append_nil_r.
Qed.

Lemma wellFormed_scan (t : string) : wellFormed (scan t).
Proof. apply wellFormed_fold. exact I. Qed.

(** C5. In the line scan of the renderer, at every point of every segment:
    a list item of one kind met while a list of the other kind is open
    first flushes the open list as a finished element and then starts the
    new list; a blank line flushes the open list and emits nothing else;
    the end of the segment flushes the list still open; and every list
    element emitted is made of consecutive items of its own kind only. *)
Theorem list_scan_flushes (t : string) (lines : list string) (line : string) :
  (forall m m' item,
      classify line = Item m item ->
      listMode (fold_left scanLine lines scanStart) = Some m' ->
      m' <> m ->
      listBuf (fold_left scanLine lines scanStart) <> [] /\
      scanLine (fold_left scanLine lines scanStart) line
      = {| html := html (fold_left scanLine lines scanStart)
                   +:+ listElement m' (listBuf (fold_left scanLine lines scanStart));
           listMode := Some m;
           listBuf := [item] |}) /\
  (isEmpty (trim line) = true ->
   scanLine (fold_left scanLine lines scanStart) line
   = {| html := html (fold_left scanLine lines scanStart)
                +:+ openList (fold_left scanLine lines scanStart);
        listMode := None;
        listBuf := [] |}) /\
  formatInlineAndBlocks t = html (scan t) +:+ openList (scan t) /\
  formatInlineAndBlocks t = render (group None (List.map classify (split lineBreakRe t))) /\
  (forall m items,
      In (ListBlock m items) (group None (List.map classify (split lineBreakRe t))) ->
      exists before after,
        List.map classify (split lineBreakRe t)
        = before ++ List.map (Item m) items ++ after).
Proof.
  pose proof (wellFormed_fold lines scanStart I) as Hwf.
  set (st := fold_left scanLine lines scanStart) in *.
  split; [|split; [|split; [|split]]].
  - intros m m' item Hk Hmode Hne.
    rewrite scanLine_classify, Hk. unfold pushItem. rewrite Hmode.
    apply isMode_false in Hne. rewrite Hne.
    destruct st as [h [m0|] [|x buf]]; cbn in Hwf, Hmode; try tauto; try discriminate.
    injection Hmode as ->. split; [discriminate|reflexivity].
  - intros Hblank. rewrite scanLine_classify, (classify_blank line Hblank).
    rewrite (flushList_open st Hwf), (openList_render st Hwf). reflexivity.
  - unfold formatInlineAndBlocks. fold (scan t).
    rewrite (flushList_open (scan t) (wellFormed_scan t)).
    rewrite (openList_render (scan t) (wellFormed_scan t)). reflexivity.
  - unfold formatInlineAndBlocks. rewrite (scan_refines_group _ scanStart I). reflexivity.
  - intros m items Hin. apply (group_runs _ None m items Hin).
Qed.

(** *** The matcher finds only what the expression matches *)

Lemma orElse_Some {A} (a b : option A) (x : A) :
  orElse a b = Some x -> a = Some x \/ b = Some x.
Proof. destruct a; cbn; intros H; [left|right]; exact H. Qed.

Section MatcherSound.
Context {R : Type}.

Lemma starLoop_sound (r : regex) (body : @matcher R) (fuel : nat) :
  soundMatcher r body -> soundMatcher (Star r) (starLoop body fuel).
Proof.
  intros Hbody. induction fuel as [|fuel IH]; intros s c k x H; cbn [starLoop] in H.
  - exists "", s, c. repeat split; [constructor|exact H].
  - apply orElse_Some in H as [H|H].
    + apply Hbody in H as (m1 & rest1 & c1 & -> & Hm1 & H).
      destruct (isEmpty m1); [discriminate|].
      apply IH in H as (m2 & rest2 & c2 & -> & Hm2 & H).
      exists (m1 +:+ m2), rest2, c2. rewrite append_assoc.
      repeat split; [|exact H]. econstructor; eassumption.
    + exists "", s, c. repeat split; [constructor|exact H].
Qed.

Lemma lazyLoop_sound (r : regex) (body : @matcher R) (fuel : nat) :
  soundMatcher r body -> soundMatcher (LazyStar r) (lazyLoop body fuel).
Proof.
  intros Hbody. induction fuel as [|fuel IH]; intros s c k x H; cbn [lazyLoop] in H.
  - exists "", s, c. repeat split; [constructor|exact H].
  - apply orElse_Some in H as [H|H].
    + exists "", s, c. repeat split; [constructor|exact H].
    + apply Hbody in H as (m1 & rest1 & c1 & -> & Hm1 & H).
      destruct (isEmpty m1); [discriminate|].
      apply IH in H as (m2 & rest2 & c2 & -> & Hm2 & H).
      exists (m1 +:+ m2), rest2, c2. rewrite append_assoc.
      repeat split; [|exact H]. econstructor; eassumption.
Qed.

Lemma rmatch_sound (r : regex) : soundMatcher r (@rmatch R r).
Proof.
  induction r as [p|r1 IH1 r2 IH2|r1 IH1|r1 IH1|r1 IH1|i r1 IH1|]; cbn [rmatch].
  - intros [|a s] c k x H; [discriminate|].
    destruct (p a) eqn:Hp; [|discriminate].
    exists (String a ""), s, c. repeat split; [constructor; exact Hp|exact H].
  - intros s c k x H.
    apply IH1 in H as (m1 & rest1 & c1 & -> & Hm1 & H).
    apply IH2 in H as (m2 & rest2 & c2 & -> & Hm2 & H).
    exists (m1 +:+ m2), rest2, c2. rewrite append_assoc.
    repeat split; [|exact H]. econstructor; eassumption.
  - intros s c k x H. apply orElse_Some in H as [H|H].
    + apply IH1 in H as (m & rest & c1 & -> & Hm & H).
      exists m, rest, c1. repeat split; [apply M_Opt_some; exact Hm|exact H].
    + exists "", s, c. repeat split; [apply M_Opt_none|exact H].
  - intros s c k x H. apply (starLoop_sound r1 _ _ IH1) in H. exact H.
  - intros s c k x H. apply (lazyLoop_sound r1 _ _ IH1) in H. exact H.
  - intros s c k x H.
    apply IH1 in H as (m & rest & c1 & -> & Hm & H).
    exists m, rest, ((i, m) :: c1). repeat split; [constructor; exact Hm|exact H].
  - intros s c k x H. destruct s; [|discriminate].
    exists "", "", c. repeat split; [constructor|exact H].
Qed.
End MatcherSound.

(** *** The fuel of the repetitions is enough

    A repetition is given as much fuel as its input has code units; every
    round takes at least one, so more fuel changes nothing. *)

Lemma length_append (s t : string) :
  String.length (s +:+ t) = (String.length s + String.length t)%nat.
Proof.
  induction s as [|a s IH]; [reflexivity|].
  change (S (String.length (s +:+ t)) = S (String.length s + String.length t)).
  now rewrite IH.
Qed.

Lemma isEmpty_false_length (m : string) : isEmpty m = false -> (1 <= String.length m)%nat.
Proof. destruct m; cbn; [discriminate|lia]. Qed.

Section MatcherFuel.
Context {R : Type}.

Lemma starLoop_local (body : @matcher R) (fuel : nat) :
  localMatcher body -> localMatcher (starLoop body fuel).
Proof.
  intros [Hloc Hnone]. induction fuel as [|fuel [IHloc IHnone]]; split; cbn [starLoop].
  - intros s c k k' Hk. apply Hk. reflexivity.
  - reflexivity.
  - intros s c k k' Hk. f_equal; [|apply Hk; reflexivity].
    apply Hloc. intros m rest c1 ->. destruct (isEmpty m); [reflexivity|].
    apply IHloc. intros m' rest' c2 ->. apply Hk. symmetry. apply append_assoc.
  - intros s c.
    rewrite (Hloc s c _ (fun _ _ _ => None)); [rewrite Hnone; reflexivity|].
    intros m rest c1 _. destruct (isEmpty m); [reflexivity|]. apply IHnone.
Qed.

Lemma lazyLoop_local (body : @matcher R) (fuel : nat) :
  localMatcher body -> localMatcher (lazyLoop body fuel).
Proof.
  intros [Hloc Hnone]. induction fuel as [|fuel [IHloc IHnone]]; split; cbn [lazyLoop].
  - intros s c k k' Hk. apply Hk. reflexivity.
  - reflexivity.
  - intros s c k k' Hk. f_equal; [apply Hk; reflexivity|].
    apply Hloc. intros m rest c1 ->. destruct (isEmpty m); [reflexivity|].
    apply IHloc. intros m' rest' c2 ->. apply Hk. symmetry. apply append_assoc.
  - intros s c. cbn [orElse].
    rewrite (Hloc s c _ (fun _ _ _ => None)); [apply Hnone|].
    intros m rest c1 _. destruct (isEmpty m); [reflexivity|]. apply IHnone.
Qed.

Lemma rmatch_local (r : regex) : localMatcher (@rmatch R r).
Proof.
  induction r as [p|r1 [L1 N1] r2 [L2 N2]|r1 [L1 N1]|r1 IH1|r1 IH1|i r1 [L1 N1]|];
    cbn [rmatch].
  - split.
    + intros [|a s] c k k' Hk; [reflexivity|].
      destruct (p a); [|reflexivity]. apply Hk. reflexivity.
    + intros [|a s] c; [reflexivity|]. destruct (p a); reflexivity.
  - split.
    + intros s c k k' Hk. apply L1. intros m1 rest1 c1 ->.
      apply L2. intros m2 rest2 c2 ->. apply Hk. symmetry. apply append_assoc.
    + intros s c. rewrite (L1 s c _ (fun _ _ _ => None)); [apply N1|].
      intros m1 rest1 c1 _. apply N2.
  - split.
    + intros s c k k' Hk. f_equal; [apply L1; exact Hk|apply Hk; reflexivity].
    + intros s c. rewrite N1. reflexivity.
  - split.
    + intros s c k k' Hk. apply (starLoop_local _ _ IH1). exact Hk.
    + intros s c. apply (starLoop_local _ _ IH1).
  - split.
    + intros s c k k' Hk. apply (lazyLoop_local _ _ IH1). exact Hk.
    + intros s c. apply (lazyLoop_local _ _ IH1).
  - split.
    + intros s c k k' Hk. apply L1. intros m rest c1 E. apply Hk. exact E.
    + intros s c. apply N1.
  - split.
    + intros s c k k' Hk. destruct (isEmpty s); [apply Hk|]; reflexivity.
    + intros s c. destruct (isEmpty s); reflexivity.
Qed.

Lemma body_on_empty (body : @matcher R) (c : captures) (k : @cont R) :
  localMatcher body ->
  body "" c (fun m rest c1 => if isEmpty m then None else k m rest c1) = None.
Proof.
  intros [Hloc Hnone]. rewrite (Hloc "" c _ (fun _ _ _ => None)); [apply Hnone|].
  intros m rest c1 E. destruct m; [reflexivity|discriminate].
Qed.

Lemma starLoop_fuel (body : @matcher R) (n n' : nat) (s : string) (c : captures)
  (k : @cont R) :
  localMatcher body ->
  (String.length s <= n)%nat -> (String.length s <= n')%nat ->
  starLoop body n s c k = starLoop body n' s c k.
Proof.
  intros Hbody. revert n' s c k.
  induction n as [|n IH]; intros n' s c k Hn Hn'.
  - destruct s; [|cbn in Hn; lia]. destruct n' as [|n']; [reflexivity|].
    cbn [starLoop]. rewrite (body_on_empty body c _ Hbody). reflexivity.
  - destruct n' as [|n'].
    + destruct s; [|cbn in Hn'; lia].
      cbn [starLoop]. rewrite (body_on_empty body c _ Hbody). reflexivity.
    + cbn [starLoop]. f_equal. apply Hbody. intros m rest c1 ->.
      destruct (isEmpty m) eqn:Em; [reflexivity|].
      apply isEmpty_false_length in Em. rewrite length_append in Hn, Hn'.
      apply IH; lia.
Qed.

Lemma lazyLoop_fuel (body : @matcher R) (n n' : nat) (s : string) (c : captures)
  (k : @cont R) :
  localMatcher body ->
  (String.length s <= n)%nat -> (String.length s <= n')%nat ->
  lazyLoop body n s c k = lazyLoop body n' s c k.
Proof.
  intros Hbody. revert n' s c k.
  induction n as [|n IH]; intros n' s c k Hn Hn'.
  - destruct s; [|cbn in Hn; lia]. destruct n' as [|n']; [reflexivity|].
    cbn [lazyLoop]. rewrite (body_on_empty body c _ Hbody).
    destruct (k "" "" c); reflexivity.
  - destruct n' as [|n'].
    + destruct s; [|cbn in Hn'; lia].
      cbn [lazyLoop]. rewrite (body_on_empty body c _ Hbody).
      destruct (k "" "" c); reflexivity.
    + cbn [lazyLoop]. f_equal. apply Hbody. intros m rest c1 ->.
      destruct (isEmpty m) eqn:Em; [reflexivity|].
      apply isEmpty_false_length in Em. rewrite length_append in Hn, Hn'.
      apply IH; lia.
Qed.

(** The repetitions of [rmatch] with any larger fuel. *)
Lemma rmatch_star_fuel (r : regex) (n : nat) (s : string) (c : captures) (k : @cont R) :
  (String.length s <= n)%nat ->
  starLoop (rmatch r) n s c k = rmatch (Star r) s c k /\
  lazyLoop (rmatch r) n s c k = rmatch (LazyStar r) s c k.
Proof.
  intros Hn. cbn [rmatch]. split.
  - apply starLoop_fuel; [apply rmatch_local|exact Hn|lia].
  - apply lazyLoop_fuel; [apply rmatch_local|exact Hn|lia].
Qed.
End MatcherFuel.

Lemma exec_sound (r : regex) (s m rest : string) (c : captures) :
  exec r s = Some (m, c, rest) -> s = m +:+ rest /\ Matches r m rest [] c.
Proof.
  intros H. apply rmatch_sound in H as (m0 & rest0 & c0 & -> & Hm & E).
  injection E as <- <- <-. split; [reflexivity|exact Hm].
Qed.

Lemma Matches_groupFree (r : regex) (m rest : string) (c c' : captures) :
  Matches r m rest c c' -> groupFree r = true -> c' = c.
Proof.
  induction 1; cbn [groupFree]; intros Hg; try reflexivity;
    try (apply andb_true_iff in Hg as [Hg1 Hg2]); try discriminate.
  - rewrite IHMatches2, IHMatches1; auto.
  - auto.
  - rewrite IHMatches2, IHMatches1; auto.
  - rewrite IHMatches2, IHMatches1; auto.
Qed.

Lemma Matches_Cat_inv (r1 r2 : regex) (m rest : string) (c c' : captures) :
  Matches (Cat r1 r2) m rest c c' ->
  exists m1 m2 c1,
    m = m1 +:+ m2 /\ Matches r1 m1 (m2 +:+ rest) c c1 /\ Matches r2 m2 rest c1 c'.
Proof. inversion 1; subst. eauto 7. Qed.

Lemma Matches_Chr_inv (a : ascii) (m rest : string) (c c' : captures) :
  Matches (Chr a) m rest c c' -> m = String a "" /\ c' = c.
Proof.
  unfold Chr. inversion 1; subst.
  match goal with H : Ascii.eqb _ _ = true |- _ => apply Ascii.eqb_eq in H; subst end.
  split; reflexivity.
Qed.

Lemma Matches_Grp_inv (i : nat) (r : regex) (m rest : string) (c c' : captures) :
  Matches (Grp i r) m rest c c' -> exists c1, c' = (i, m) :: c1 /\ Matches r m rest c c1.
Proof. inversion 1; subst. eauto. Qed.

Lemma Matches_Opt_Chr_inv (a : ascii) (m rest : string) (c c' : captures) :
  Matches (Opt (Chr a)) m rest c c' -> (m = String a "" \/ m = "") /\ c' = c.
Proof.
  inversion 1; subst.
  - match goal with H : Matches (Chr _) _ _ _ _ |- _ => apply Matches_Chr_inv in H as [-> ->] end.
    split; [left|]; reflexivity.
  - split; [right|]; reflexivity.
Qed.

Lemma Matches_Lit_inv (s : string) (r : regex) (m rest : string) (c c' : captures) :
  Matches (Lit s r) m rest c c' -> exists m', m = s +:+ m' /\ Matches r m' rest c c'.
Proof.
  revert m c. induction s as [|a s IH]; intros m c H; cbn [Lit] in H.
  - exists m. split; [reflexivity|exact H].
  - apply Matches_Cat_inv in H as (m1 & m2 & c1 & -> & H1 & H2).
    apply Matches_Chr_inv in H1 as [-> ->].
    apply IH in H2 as (m' & -> & H2).
    exists m'. split; [reflexivity|exact H2].
Qed.

(** What the expression of a link target matches starts with [http://] or
    [https://]. *)
Lemma urlRe_scheme (m rest : string) (c c' : captures) :
  Matches urlRe m rest c c' ->
  c' = c /\ exists tail, m = "http://" +:+ tail \/ m = "https://" +:+ tail.
Proof.
  intros H. split; [apply (Matches_groupFree _ _ _ _ _ H); reflexivity|].
  unfold urlRe in H.
  apply Matches_Lit_inv in H as (m1 & -> & H).
  apply Matches_Cat_inv in H as (o & m2 & c1 & -> & Ho & H).
  apply Matches_Lit_inv in H as (tail & -> & _).
  exists tail. apply Matches_Opt_Chr_inv in Ho as [[-> | ->] _]; [right|left]; reflexivity.
Qed.

(** What the expression of a link matches, and what it is replaced by. *)
Lemma linkRe_shape (m rest : string) (c : captures) :
  Matches linkRe m rest [] c ->
  exists label target,
    m = "[" +:+ label +:+ "](" +:+ target +:+ ")" /\
    (exists tail, target = "http://" +:+ tail \/ target = "https://" +:+ tail) /\
    linkSubst m c = anchor label target.
Proof.
  intros H. unfold linkRe in H.
  apply Matches_Cat_inv in H as (m1 & m2 & c1 & -> & H1 & H).
  apply Matches_Chr_inv in H1 as [-> ->].
  apply Matches_Cat_inv in H as (label & m3 & c2 & -> & Hl & H).
  apply Matches_Grp_inv in Hl as (c2' & -> & Hl).
  apply Matches_groupFree in Hl as ->; [|reflexivity].
  apply Matches_Lit_inv in H as (m4 & -> & H).
  apply Matches_Cat_inv in H as (target & m5 & c3 & -> & Ht & H).
  apply Matches_Chr_inv in H as [-> ->].
  apply Matches_Grp_inv in Ht as (c3' & -> & Ht).
  apply urlRe_scheme in Ht as [-> Hscheme].
  exists label, target. repeat split; [exact Hscheme].
Qed.

Lemma occursIn_cons (needle s : string) (a : ascii) :
  occursIn needle s -> occursIn needle (String a s).
Proof. intros (b & af & ->). exists (String a b), af. reflexivity. Qed.

Lemma prefix_append (n after : string) : String.prefix n (n +:+ after) = true.
Proof.
  induction n as [|a n IH]; [destruct after; reflexivity|].
  change (String.prefix (String a n) (String a (n +:+ after)) = true).
  cbn [String.prefix]. destruct (ascii_dec a a) as [_|Hne]; [exact IH|congruence].
Qed.

Lemma occursIn_occursb (needle s : string) : occursIn needle s -> occursb needle s = true.
Proof.
  intros (before & after & ->). induction before as [|a before IH].
  - change ("" +:+ needle +:+ after) with (needle +:+ after).
    destruct (needle +:+ after) eqn:E; cbn [occursb]; rewrite <- E, prefix_append; reflexivity.
  - change (String a before +:+ needle +:+ after) with (String a (before +:+ needle +:+ after)).
    cbn [occursb]. rewrite IH. apply orb_true_r.
Qed.

Lemma link_occurs (s m rest : string) (c : captures) :
  exec linkRe s = Some (m, c, rest) ->
  occursIn "](http://" s \/ occursIn "](https://" s.
Proof.
  intros H. apply exec_sound in H as [-> H].
  apply linkRe_shape in H as (label & target & -> & (tail & [-> | ->]) & _); [left|right].
  - exists ("[" +:+ label), (tail +:+ ")" +:+ rest).
    rewrite !append_assoc. reflexivity.
  - exists ("[" +:+ label), (tail +:+ ")" +:+ rest).
    rewrite !append_assoc. reflexivity.
Qed.

Lemma linkPass_unchanged (s : string) :
  ~ occursIn "](http://" s -> ~ occursIn "](https://" s -> linkPass s = s.
Proof.
  unfold linkPass, replaceAllRe. induction s as [|a s IH]; intros H1 H2; [reflexivity|].
  cbn [replaceFrom].
  destruct (exec linkRe (String a s)) as [[[m c] rest]|] eqn:E.
  - apply link_occurs in E. tauto.
  - f_equal. apply IH; intros Ho; [apply H1|apply H2]; apply occursIn_cons, Ho.
Qed.

(** C7, as the code has it. The link pass turns into anchors only targets
    that start with [http://] or [https://]: what it replaces is an
    occurrence of [[label](target)] with such a target, replaced by the
    anchor of that label and target, and a line with no [](http://] and no
    [](https://] is left as it is. The label is copied as it stands in the
    line the pass receives - the line after escaping, the bold pass and the
    inline-code pass. *)
Theorem link_pass_http_only (s : string) :
  (forall m c rest,
      exec linkRe s = Some (m, c, rest) ->
      exists label target,
        s = ("[" +:+ label +:+ "](" +:+ target +:+ ")") +:+ rest /\
        (exists tail, target = "http://" +:+ tail \/ target = "https://" +:+ tail) /\
        linkSubst m c = anchor label target) /\
  (~ occursIn "](http://" s -> ~ occursIn "](https://" s -> linkPass s = s) /\
  formatInline s = linkPass (beforeLinks s).
Proof.
  split; [|split].
  - intros m c rest H. apply exec_sound in H as [-> H].
    apply linkRe_shape in H as (label & target & -> & Hscheme & Hsubst).
    exists label, target. repeat split; assumption.
  - apply linkPass_unchanged.
  - reflexivity.
Qed.

(** C7, as the claim has it, fails: bold inside a link label is rendered,
    the label is not the escaped text of the source. *)
Lemma link_label_is_processed :
  formatInline "[**b**](http://x)" = anchor "<strong>b</strong>" "http://x" /\
  formatInline "[**b**](http://x)" <> anchor (escapeHtml "**b**") "http://x".
Proof. split; [vm_compute; reflexivity|vm_compute; discriminate]. Qed.

Lemma link_pass_http_only_witness :
  (exists label target,
      "[a](https://b.c) d" = ("[" +:+ label +:+ "](" +:+ target +:+ ")") +:+ " d" /\
      linkSubst "[a](https://b.c)" [(2%nat, "https://b.c"); (1%nat, "a")] = anchor label target) /\
  linkPass "[a](ftp://b.c) d" = "[a](ftp://b.c) d".
Proof.
  destruct (link_pass_http_only "[a](https://b.c) d") as (Hshape & _ & _).
  destruct (link_pass_http_only "[a](ftp://b.c) d") as (_ & Hsame & _).
  split.
  - destruct (Hshape "[a](https://b.c)" [(2%nat, "https://b.c"); (1%nat, "a")] " d" eq_refl)
      as (label & target & Hs & _ & Hsubst).
    exists label, target. split; assumption.
  - apply Hsame; intros Ho; apply occursIn_occursb in Ho; vm_compute in Ho; discriminate.
Defined.

(** C6, evaluated. Bold markers between single backticks are turned into
    strong tags by the bold pass, which runs first, and the inline-code pass
    then escapes those tags into the content of the code element; a fenced
    code block keeps the same text as it is. *)
Theorem inline_code_is_bold_processed :
  formatInline "`**x**`" = "<code>&lt;strong&gt;x&lt;/strong&gt;</code>" /\
  formatInline "`**x**`" <> "<code>**x**</code>" /\
  format "```**x**```" = "<pre><code>**x**</code></pre>".
Proof. repeat split; vm_compute; try reflexivity; discriminate. Qed.

Lemma list_scan_flushes_witness :
  scanLine (fold_left scanLine ["- a"] scanStart) "1. b"
  = {| html := "<ul><li>a</li></ul>"; listMode := Some ol; listBuf := ["b"] |} /\
  scanLine (fold_left scanLine ["- a"] scanStart) "  "
  = {| html := "<ul><li>a</li></ul>"; listMode := None; listBuf := [] |}.
Proof.
  destruct (list_scan_flushes "" ["- a"] "1. b") as (Hswitch & _).
  destruct (list_scan_flushes "" ["- a"] "  ") as (_ & Hblank & _).
  split.
  - destruct (Hswitch ol ul "b") as [_ E]; [reflexivity|reflexivity|discriminate|].
    rewrite E. reflexivity.
  - rewrite Hblank; reflexivity.
Defined.

(** *** The examples of the renderer *)

Example format_bold_and_code :
  format "**bold** and `code`" = "<p><strong>bold</strong> and <code>code</code></p>".
Proof. vm_compute. reflexivity. Qed.

Example format_list_then_paragraph :
  format ("- a" +:+ newline +:+ "- b" +:+ newline +:+ newline +:+ "text")
  = "<ul><li>a</li><li>b</li></ul><p>text</p>".
Proof. vm_compute. reflexivity. Qed.

Example format_fenced_script :
  format ("```" +:+ newline +:+ "<script>" +:+ newline +:+ "```")
  = "<pre><code>&lt;script&gt;</code></pre>".
Proof. vm_compute. reflexivity. Qed.

Example format_ordered_list :
  format ("1. one" +:+ newline +:+ "2. two") = "<ol><li>one</li><li>two</li></ol>".
Proof. vm_compute. reflexivity. Qed.

Example format_empty : format "" = "".
Proof. vm_compute. reflexivity. Qed.

Example format_lists_of_two_kinds :
  format ("- a" +:+ newline +:+ "1. b" +:+ newline +:+ "* c")
  = "<ul><li>a</li></ul><ol><li>b</li></ol><ul><li>c</li></ul>".
Proof. vm_compute. reflexivity. Qed.

(** * Further properties *)

(** ** [Ids.clamp] *)

Lemma within_wider (lo hi lo' hi' : Q) (n : number) :
  (lo' <= lo)%Q -> (hi <= hi')%Q -> within lo hi n -> within lo' hi' n.
Proof.
  destruct n as [| |q|]; cbn; try tauto. intros H1 H2 [H3 H4].
  split; eapply Qle_trans; eassumption.
Qed.

Lemma clamp_NaN (lo hi : number) : clamp NaN lo hi = NaN.
Proof. destruct lo, hi; reflexivity. Qed.

(** X1. [Ids.clamp] leaves a number of the interval as it is, so clamping
    twice, or clamping again to a wider interval - as [generate] does,
    to [1,2048], with the maxTokens that [saveSettings] clamped to
    [64,2048] - changes nothing; NaN stays NaN. *)
Theorem clamp_again (n : number) (lo hi lo' hi' : Q) :
  (lo <= hi)%Q -> (lo' <= lo)%Q -> (hi <= hi')%Q ->
  sameNumber (clamp (clamp n (Fin lo) (Fin hi)) (Fin lo') (Fin hi'))
             (clamp n (Fin lo) (Fin hi)) /\
  (within lo hi n -> sameNumber (clamp n (Fin lo) (Fin hi)) n) /\
  (n <> NaN -> within lo hi (clamp n (Fin lo) (Fin hi))) /\
  clamp NaN (Fin lo) (Fin hi) = NaN.
Proof.
  intros Hlh Hlo Hhi. split; [|split; [|split]].
  - destruct n as [| |q|].
    + reflexivity.
    + apply clamp_fixes, (within_wider lo hi); auto. apply clamp_within; congruence.
    + apply clamp_fixes, (within_wider lo hi); auto. apply clamp_within; congruence.
    + apply clamp_fixes, (within_wider lo hi); auto. apply clamp_within; congruence.
  - apply clamp_fixes.
  - intros Hn. apply clamp_within; assumption.
  - reflexivity.
Qed.

Lemma clamp_again_witness :
  sameNumber (clamp (clamp (Fin 5000) (Fin 64) (Fin 2048)) (Fin 1) (Fin 2048))
             (clamp (Fin 5000) (Fin 64) (Fin 2048)).
Proof.
  apply (clamp_again (Fin 5000) 64 2048 1 2048); unfold Qle; cbn; lia.
Defined.

(** ** [Markdown.escapeHtml] *)

Lemma append_cons (a : ascii) (s t : string) : String a s +:+ t = String a (s +:+ t).
Proof. reflexivity. Qed.

Lemma mem_append (c : ascii) (s t : string) : mem c (s +:+ t) = mem c s || mem c t.
Proof.
  induction s as [|a s IH]; [reflexivity|].
  rewrite append_cons. cbn [mem]. rewrite IH. apply orb_assoc.
Qed.

Lemma replaceAll_append (c : ascii) (by_ s t : string) :
  replaceAll c by_ (s +:+ t) = replaceAll c by_ s +:+ replaceAll c by_ t.
Proof.
  induction s as [|a s IH]; [reflexivity|].
  rewrite append_cons. cbn [replaceAll]. rewrite IH, append_assoc. reflexivity.
Qed.

Lemma replaceAll_removes (c : ascii) (by_ s : string) :
  mem c by_ = false -> mem c (replaceAll c by_ s) = false.
Proof.
  intros Hby. induction s as [|a s IH]; [reflexivity|].
  cbn [replaceAll]. rewrite mem_append, IH, orb_false_r.
  destruct (Ascii.eqb a c) eqn:E; [exact Hby|].
  cbn. rewrite Ascii.eqb_sym, E. reflexivity.
Qed.

Lemma replaceAll_keeps_out (d c : ascii) (by_ s : string) :
  mem d by_ = false -> mem d s = false -> mem d (replaceAll c by_ s) = false.
Proof.
  intros Hby. induction s as [|a s IH]; [reflexivity|].
  cbn [mem replaceAll]. intros H. apply orb_false_iff in H as [Ha Hs].
  rewrite mem_append, (IH Hs), orb_false_r.
  destruct (Ascii.eqb a c); [exact Hby|]. cbn. rewrite Ha. reflexivity.
Qed.

Lemma replaceAll_absent (c : ascii) (by_ s : string) :
  mem c s = false -> replaceAll c by_ s = s.
Proof.
  induction s as [|a s IH]; [reflexivity|].
  cbn [mem replaceAll]. intros H. apply orb_false_iff in H as [Ha Hs].
  rewrite Ascii.eqb_sym, Ha, (IH Hs). reflexivity.
Qed.

Lemma allChars_mem (p : ascii -> bool) (s : string) (c : ascii) :
  allChars p s = true -> p c = false -> mem c s = false.
Proof.
  intros Hall Hc. induction s as [|a s IH]; [reflexivity|].
  cbn [allChars] in Hall. apply andb_true_iff in Hall as [Ha Hs].
  cbn [mem]. rewrite (IH Hs), orb_false_r.
  destruct (Ascii.eqb c a) eqn:E; [|reflexivity].
  apply Ascii.eqb_eq in E. subst a. congruence.
Qed.

(** A character that is in none of the five entities and not in the text
    is not in the escaped text. *)
Lemma escapeHtml_keeps_out (d : ascii) (t : string) :
  mem d "&amp;&lt;&gt;&quot;&#39;" = false -> mem d t = false ->
  mem d (escapeHtml t) = false.
Proof.
  intros Hd Ht. unfold escapeHtml.
  change "&amp;&lt;&gt;&quot;&#39;" with ("&amp;" +:+ "&lt;" +:+ "&gt;" +:+ "&quot;" +:+ "&#39;")
    in Hd.
  rewrite !mem_append in Hd.
  apply orb_false_iff in Hd as [H1 Hd]. apply orb_false_iff in Hd as [H2 Hd].
  apply orb_false_iff in Hd as [H3 Hd]. apply orb_false_iff in Hd as [H4 H5].
  repeat apply replaceAll_keeps_out; assumption.
Qed.

(** X2. The text [escapeHtml] returns holds no [<], no [>], no double quote
    and no apostrophe, whatever the input. *)
Theorem escapeHtml_safe (t : string) :
  mem "<" (escapeHtml t) = false /\
  mem ">" (escapeHtml t) = false /\
  mem DQ (escapeHtml t) = false /\
  mem "'" (escapeHtml t) = false.
Proof.
  unfold escapeHtml. repeat split.
  - do 2 (apply replaceAll_keeps_out; [reflexivity|]).
    apply replaceAll_keeps_out; [reflexivity|]. apply replaceAll_removes. reflexivity.
  - do 2 (apply replaceAll_keeps_out; [reflexivity|]). apply replaceAll_removes. reflexivity.
  - apply replaceAll_keeps_out; [reflexivity|]. apply replaceAll_removes. reflexivity.
  - apply replaceAll_removes. reflexivity.
Qed.

(** X3. [escapeHtml] works piece by piece - the escaped text of a
    concatenation is the concatenation of the escaped texts - and it
    returns a text without any of the five reserved characters as it
    is. *)
Theorem escapeHtml_pieces (s t : string) :
  escapeHtml (s +:+ t) = escapeHtml s +:+ escapeHtml t /\
  (allChars (fun c => negb (isReserved c)) t = true -> escapeHtml t = t).
Proof.
  split.
  - unfold escapeHtml. rewrite !replaceAll_append. reflexivity.
  - intros Hall. unfold escapeHtml.
    rewrite (replaceAll_absent "&" _ t) by (apply (allChars_mem _ _ _ Hall); reflexivity).
    rewrite (replaceAll_absent "<" _ t) by (apply (allChars_mem _ _ _ Hall); reflexivity).
    rewrite (replaceAll_absent ">" _ t) by (apply (allChars_mem _ _ _ Hall); reflexivity).
    rewrite (replaceAll_absent DQ _ t) by (apply (allChars_mem _ _ _ Hall); reflexivity).
    apply replaceAll_absent, (allChars_mem _ _ _ Hall). reflexivity.
Qed.

Lemma escapeHtml_pieces_witness :
  escapeHtml "plain text, 100%" = "plain text, 100%".
Proof.
  destruct (escapeHtml_pieces "" "plain text, 100%") as [_ H]. apply H. reflexivity.
Defined.

(** ** [Markdown.formatInline] on plain text *)

(** A replacement whose matches all start with a character the text does
    not hold leaves the text as it is. *)
Lemma replaceAllRe_unchanged (r : regex) (f : string -> captures -> string) (c0 : ascii)
  (s : string) :
  (forall s' m c rest, exec r s' = Some (m, c, rest) -> exists tail, s' = String c0 tail) ->
  mem c0 s = false ->
  replaceAllRe r f s = s.
Proof.
  intros Hhead. unfold replaceAllRe. induction s as [|a s IH]; intros Hs.
  - cbn [replaceFrom]. destruct (exec r "") as [[[m c] rest]|] eqn:E; [|reflexivity].
    apply Hhead in E as [tail E]. discriminate.
  - cbn [mem] in Hs. apply orb_false_iff in Hs as [Ha Hs]. cbn [replaceFrom].
    destruct (exec r (String a s)) as [[[m c] rest]|] eqn:E.
    + apply Hhead in E as [tail E]. injection E as -> _.
      rewrite Ascii.eqb_refl in Ha. discriminate.
    + f_equal. apply IH, Hs.
Qed.

Lemma boldRe_head (s m : string) (c : captures) (rest : string) :
  exec boldRe s = Some (m, c, rest) -> exists tail, s = String "*" tail.
Proof.
  intros H. apply exec_sound in H as [-> H]. unfold boldRe in H.
  apply Matches_Lit_inv in H as (m' & -> & _). eexists. reflexivity.
Qed.

Lemma codeRe_head (s m : string) (c : captures) (rest : string) :
  exec codeRe s = Some (m, c, rest) -> exists tail, s = String "`" tail.
Proof.
  intros H. apply exec_sound in H as [-> H]. unfold codeRe in H.
  apply Matches_Cat_inv in H as (m1 & m2 & c1 & -> & H1 & _).
  apply Matches_Chr_inv in H1 as [-> _]. eexists. reflexivity.
Qed.

Lemma linkRe_head (s m : string) (c : captures) (rest : string) :
  exec linkRe s = Some (m, c, rest) -> exists tail, s = String "[" tail.
Proof.
  intros H. apply exec_sound in H as [-> H]. unfold linkRe in H.
  apply Matches_Cat_inv in H as (m1 & m2 & c1 & -> & H1 & _).
  apply Matches_Chr_inv in H1 as [-> _]. eexists. reflexivity.
Qed.

(** X4. A text that holds no star, no backtick and no opening bracket
    goes through [formatInline] escaped and otherwise unchanged: the three
    replacements find nothing in it. *)
Theorem formatInline_plain (t : string) :
  allChars (fun c => negb (isInlineMarker c)) t = true ->
  formatInline t = escapeHtml t.
Proof.
  intros Hall. unfold formatInline.
  assert (Hstar : mem "*" (escapeHtml t) = false)
    by (apply escapeHtml_keeps_out; [reflexivity|apply (allChars_mem _ _ _ Hall); reflexivity]).
  assert (Htick : mem "`" (escapeHtml t) = false)
    by (apply escapeHtml_keeps_out; [reflexivity|apply (allChars_mem _ _ _ Hall); reflexivity]).
  assert (Hbrk : mem "[" (escapeHtml t) = false)
    by (apply escapeHtml_keeps_out; [reflexivity|apply (allChars_mem _ _ _ Hall); reflexivity]).
  rewrite (replaceAllRe_unchanged boldRe _ "*" _ boldRe_head Hstar).
  rewrite (replaceAllRe_unchanged codeRe _ "`" _ codeRe_head Htick).
  apply (replaceAllRe_unchanged linkRe _ "[" _ linkRe_head Hbrk).
Qed.

Lemma formatInline_plain_witness :
  formatInline "a < b & c" = escapeHtml "a < b & c".
Proof. apply formatInline_plain. reflexivity. Defined.

(** ** [Markdown.formatInlineAndBlocks]: nothing is lost *)

Lemma group_lines (ks : list LineKind) (open : option (ListMode * list string)) :
  flat_map linesOf (group open ks) = pending open ++ visible ks.
Proof.
  revert open. induction ks as [|k ks IH]; intros open.
  - destruct open as [[m buf]|]; cbn; rewrite ?app_nil_r; reflexivity.
  - destruct k as [m t| |p]; cbn [group visible].
    + destruct open as [[m' buf]|].
      * destruct (isMode m' m) eqn:Hm.
        -- apply isMode_true in Hm as ->. rewrite IH. cbn [pending].
           rewrite map_app, <- app_assoc. reflexivity.
        -- cbn [flat_map linesOf]. rewrite IH. reflexivity.
      * rewrite IH. reflexivity.
    + rewrite flat_map_app, IH.
      destruct open as [[m' buf]|]; cbn; rewrite ?app_nil_r; reflexivity.
    + rewrite flat_map_app. cbn [flat_map linesOf]. rewrite IH.
      destruct open as [[m' buf]|]; cbn; rewrite ?app_nil_r; reflexivity.
Qed.

(** X5. The scan loses no line and keeps their order: the markup of a
    segment is the rendering of blocks whose items and paragraphs, read in
    order, are exactly the lines of the segment that are not blank. *)
Theorem scan_keeps_lines (t : string) :
  formatInlineAndBlocks t = render (blocksOf t) /\
  flat_map linesOf (blocksOf t) = visible (List.map classify (split lineBreakRe t)).
Proof.
  split.
  - unfold formatInlineAndBlocks, blocksOf.
    rewrite (scan_refines_group _ scanStart I). reflexivity.
  - unfold blocksOf. rewrite group_lines. reflexivity.
Qed.

(** ** [Markdown.format]: the fences *)

Lemma fenceRe_match (s m : string) (c : captures) (rest : string) :
  exec fenceRe s = Some (m, c, rest) -> s = "```" +:+ rest.
Proof.
  intros H. apply exec_sound in H as [-> H]. unfold fenceRe in H.
  apply Matches_Lit_inv in H as (m' & -> & H).
  apply Matches_Chr_inv in H as [-> _]. reflexivity.
Qed.

Lemma exec_fence (rest : string) : exec fenceRe ("```" +:+ rest) = Some ("```", [], rest).
Proof. reflexivity. Qed.

Lemma exec_fence_other (a : ascii) (s : string) :
  Ascii.eqb a "`" = false -> exec fenceRe (String a s) = None.
Proof.
  intros Ha. unfold exec, fenceRe. cbn [Lit rmatch Chr].
  rewrite Ascii.eqb_sym, Ha. reflexivity.
Qed.

Lemma splitFrom_no_match (r : regex) (cur s : string) :
  (forall before after, s = before +:+ after -> exec r after = None) ->
  splitFrom r 0 cur s = [cur +:+ s].
Proof.
  revert cur. induction s as [|a s IH]; intros cur H.
  - cbn. rewrite append_nil_r. reflexivity.
  - cbn [splitFrom]. rewrite (H "" (String a s) eq_refl).
    rewrite IH.
    + rewrite append_assoc. reflexivity.
    + intros before after ->. apply (H (String a before) after). reflexivity.
Qed.

(** Up to the next backtick the splitter only reads. *)
Lemma splitFrom_fence_reads (code cur tail : string) :
  mem "`" code = false ->
  splitFrom fenceRe 0 cur (code +:+ tail) = splitFrom fenceRe 0 (cur +:+ code) tail.
Proof.
  revert cur. induction code as [|a code IH]; intros cur H.
  - rewrite append_nil_r. reflexivity.
  - cbn [mem] in H. apply orb_false_iff in H as [Ha Hcode].
    rewrite append_cons. cbn [splitFrom].
    rewrite exec_fence_other by (rewrite Ascii.eqb_sym; exact Ha).
    rewrite (IH _ Hcode), append_assoc. reflexivity.
Qed.

Lemma splitFrom_fence_all (code cur : string) :
  mem "`" code = false -> splitFrom fenceRe 0 cur code = [cur +:+ code].
Proof.
  intros H. pose proof (splitFrom_fence_reads code cur "" H) as E.
  rewrite append_nil_r in E. rewrite E. reflexivity.
Qed.

(** X6. A text in which no code fence occurs is one prose segment:
    [format] gives exactly what [formatInlineAndBlocks] gives. *)
Theorem format_without_fence (t : string) :
  ~ occursIn "```" t -> format t = formatInlineAndBlocks t.
Proof.
  intros Hno. unfold format, split.
  rewrite splitFrom_no_match; [reflexivity|].
  intros before after ->.
  destruct (exec fenceRe after) as [[[m c] rest]|] eqn:E; [|reflexivity].
  apply fenceRe_match in E. subst after. exfalso. apply Hno.
  exists before, rest. reflexivity.
Qed.

Lemma format_without_fence_witness :
  format "some `code` here" = formatInlineAndBlocks "some `code` here".
Proof.
  apply format_without_fence.
  intros Ho. apply occursIn_occursb in Ho. vm_compute in Ho. discriminate.
Defined.

(** A greedy repetition of one code unit takes the whole run when what
    follows the repetition accepts that. *)
Lemma starLoop_run {R : Type} (c0 : ascii) (k n : nat) (t : string) (cs : captures)
  (K : @cont R) (x : R) :
  headIs c0 t = false ->
  (k <= n)%nat ->
  K (filler k c0) t cs = Some x ->
  starLoop (rmatch (Chr c0)) n (filler k c0 +:+ t) cs K = Some x.
Proof.
  intros Ht.
  assert (Hstop : forall k0 : @cont R, rmatch (Chr c0) t cs k0 = None).
  { intros k0. cbn [rmatch Chr]. destruct t as [|a t]; [reflexivity|].
    cbn [headIs] in Ht. rewrite Ascii.eqb_sym, Ht. reflexivity. }
  assert (Hstep : forall (k0 : @cont R) s,
             rmatch (Chr c0) (String c0 s) cs k0 = k0 (String c0 "") s cs).
  { intros k0 s. cbn [rmatch Chr]. rewrite Ascii.eqb_refl. reflexivity. }
  revert n K. induction k as [|k IH]; intros n K Hn HK.
  - change (filler 0 c0 +:+ t) with t. destruct n as [|n]; [exact HK|].
    cbn [starLoop]. rewrite Hstop. exact HK.
  - destruct n as [|n]; [lia|].
    change (filler (S k) c0 +:+ t) with (String c0 (filler k c0 +:+ t)).
    cbn [starLoop]. rewrite Hstep. cbn [isEmpty].
    rewrite (IH n (fun m' rest' c2 => K (String c0 "" +:+ m') rest' c2)); [reflexivity|lia|].
    exact HK.
Qed.

Lemma length_filler (k : nat) (c : ascii) : String.length (filler k c) = k.
Proof. induction k as [|k IH]; [reflexivity|]. cbn. rewrite IH. reflexivity. Qed.

(** The newlines at the start of a text are what [/^\n+/] matches. *)
Lemma exec_leading_newlines (k : nat) (t : string) :
  headIs LF t = false ->
  exec (Plus (Chr LF)) (filler (S k) LF +:+ t) = Some (filler (S k) LF, [], t).
Proof.
  intros Ht. unfold exec, Plus.
  change (filler (S k) LF +:+ t) with (String LF (filler k LF +:+ t)).
  cbn [rmatch Chr]. rewrite Ascii.eqb_refl.
  apply starLoop_run; [exact Ht| |reflexivity].
  rewrite length_append, length_filler. lia.
Qed.

Lemma exec_no_newline (t : string) :
  headIs LF t = false -> exec (Plus (Chr LF)) t = None.
Proof.
  intros Ht. unfold exec, Plus. cbn [rmatch Chr]. destruct t as [|a t]; [reflexivity|].
  cbn [headIs] in Ht. rewrite Ascii.eqb_sym, Ht. reflexivity.
Qed.

(** A run of newlines up to the end is what [/\n+$/] matches. *)
Lemma exec_trailing_newlines (j : nat) :
  exists m, exec (Cat (Plus (Chr LF)) Eos) (filler (S j) LF) = Some (m, [], "").
Proof.
  exists (filler (S j) LF +:+ ""). unfold exec, Plus.
  rewrite <- (append_nil_r (filler (S j) LF)) at 1.
  change (filler (S j) LF +:+ "") with (String LF (filler j LF +:+ "")) at 1.
  cbn [rmatch Chr]. rewrite Ascii.eqb_refl.
  apply starLoop_run; [reflexivity| |reflexivity].
  rewrite length_append, length_filler. cbn. lia.
Qed.

Lemma Matches_Star_Chr (c0 : ascii) (m rest : string) (c c' : captures) :
  Matches (Star (Chr c0)) m rest c c' -> allChars (Ascii.eqb c0) m = true.
Proof.
  intros H. remember (Star (Chr c0)) as r eqn:Er.
  induction H; try discriminate; [reflexivity|].
  injection Er as ->. apply Matches_Chr_inv in H as [-> _].
  change (String c0 "" +:+ m2) with (String c0 m2). cbn [allChars].
  rewrite Ascii.eqb_refl. apply IHMatches2. reflexivity.
Qed.

(** [/\n+$/] matches at the start of a text of newlines only. *)
Lemma exec_trailing_only (s m rest : string) (c : captures) :
  exec (Cat (Plus (Chr LF)) Eos) s = Some (m, c, rest) ->
  allChars (Ascii.eqb LF) s = true.
Proof.
  intros H. apply exec_sound in H as [-> H].
  apply Matches_Cat_inv in H as (m1 & m2 & c1 & -> & H1 & H2).
  inversion H2; subst. unfold Plus in H1.
  apply Matches_Cat_inv in H1 as (m3 & m4 & c2 & -> & H3 & H4).
  apply Matches_Chr_inv in H3 as [-> _].
  apply Matches_Star_Chr in H4.
  rewrite !append_nil_r. change (String LF "" +:+ m4) with (String LF m4).
  cbn [allChars]. rewrite Ascii.eqb_refl. exact H4.
Qed.

Lemma lastIs_of_run (c : ascii) (body tail : string) :
  body <> "" -> allChars (Ascii.eqb c) (body +:+ tail) = true -> lastIs c body = true.
Proof.
  induction body as [|a body IH]; [congruence|]. intros _ H.
  rewrite append_cons in H. cbn [allChars] in H. apply andb_true_iff in H as [Ha H].
  destruct body as [|b body].
  - cbn [lastIs]. rewrite Ascii.eqb_sym. exact Ha.
  - change (lastIs c (String a (String b body))) with (lastIs c (String b body)).
    apply IH; [discriminate|exact H].
Qed.

Lemma replaceFirst_trailing_newlines (body : string) (j : nat) :
  lastIs LF body = false ->
  replaceFirst (Cat (Plus (Chr LF)) Eos) (fun _ _ => "") (body +:+ filler j LF) = body.
Proof.
  induction body as [|a body IH]; intros Hlast.
  - change ("" +:+ filler j LF) with (filler j LF). destruct j as [|j]; [reflexivity|].
    destruct (exec_trailing_newlines j) as (m & E).
    change (filler (S j) LF) with (String LF (filler j LF)) in *.
    cbn [replaceFirst]. rewrite E. reflexivity.
  - rewrite append_cons. cbn [replaceFirst].
    destruct (exec (Cat (Plus (Chr LF)) Eos) (String a (body +:+ filler j LF)))
      as [[[m c] rest]|] eqn:E.
    + apply exec_trailing_only in E. rewrite <- append_cons in E.
      apply lastIs_of_run in E; [congruence|discriminate].
    + f_equal. apply IH. destruct body; [reflexivity|exact Hlast].
Qed.

(** [stripBlankLines] takes away the newlines at both ends. *)
Lemma stripBlankLines_ends (body : string) (k j : nat) :
  headIs LF body = false -> lastIs LF body = false ->
  stripBlankLines (filler k LF +:+ body +:+ filler j LF) = body.
Proof.
  intros Hhead Hlast. unfold stripBlankLines.
  assert (Hrest : headIs LF (body +:+ filler j LF) = false \/ body = "").
  { destruct body; [right; reflexivity|left; exact Hhead]. }
  destruct Hrest as [Hrest| ->].
  - destruct k as [|k].
    + change (filler 0 LF +:+ body +:+ filler j LF) with (body +:+ filler j LF).
      rewrite (exec_no_newline _ Hrest).
      apply replaceFirst_trailing_newlines, Hlast.
    + rewrite (exec_leading_newlines k _ Hrest).
      apply replaceFirst_trailing_newlines, Hlast.
  - change ("" +:+ filler j LF) with (filler j LF).
    assert (E : filler k LF +:+ filler j LF = filler (k + j) LF).
    { induction k as [|k IHk]; [reflexivity|]. cbn [filler Nat.add].
      rewrite append_cons, IHk. reflexivity. }
    rewrite E. destruct (k + j)%nat as [|n].
    + reflexivity.
    + pose proof (exec_leading_newlines n "" eq_refl) as E1.
      rewrite append_nil_r in E1. rewrite E1. reflexivity.
Qed.

Lemma mem_filler (c d : ascii) (k : nat) : Ascii.eqb c d = false -> mem c (filler k d) = false.
Proof. intros H. induction k as [|k IH]; [reflexivity|]. cbn [filler mem]. rewrite H. exact IH. Qed.

(** A fence, opened and closed or only opened, makes one code element of
    what follows it. *)
Lemma format_fence (code : string) :
  mem "`" code = false ->
  format ("```" +:+ code +:+ "```") = codeBlock code /\
  format ("```" +:+ code) = codeBlock code.
Proof.
  intros Hcode. split.
  - unfold format, split.
    change ("```" +:+ code +:+ "```")
      with (String "`" (String "`" (String "`" (code +:+ "```")))).
    cbn [splitFrom].
    change (exec fenceRe (String "`" (String "`" (String "`" (code +:+ "```")))))
      with (exec fenceRe ("```" +:+ (code +:+ "```"))).
    rewrite exec_fence. cbn [isEmpty String.length Nat.sub splitFrom].
    rewrite (splitFrom_fence_reads code "" "```" Hcode).
    change ("" +:+ code) with code.
    change (splitFrom fenceRe 0 code "```") with [code; ""].
    cbn [formatParts negb join]. change (formatInlineAndBlocks "") with "".
    fold (codeBlock code). change ("" +:+ "" +:+ codeBlock code +:+ "" +:+ "")
      with (codeBlock code +:+ ""). apply append_nil_r.
  - unfold format, split.
    change ("```" +:+ code) with (String "`" (String "`" (String "`" code))).
    cbn [splitFrom].
    change (exec fenceRe (String "`" (String "`" (String "`" code))))
      with (exec fenceRe ("```" +:+ code)).
    rewrite exec_fence. cbn [isEmpty String.length Nat.sub splitFrom].
    rewrite (splitFrom_fence_all code "" Hcode).
    change ("" +:+ code) with code.
    cbn [formatParts negb join]. change (formatInlineAndBlocks "") with "".
    fold (codeBlock code). reflexivity.
Qed.

(** X7. A fenced block whose content holds no backtick is rendered as one
    preformatted code element, whether the fence is closed or not: for a
    content made of any number of newlines, a body that neither starts nor
    ends with a newline, and any number of newlines again, the element
    holds the body alone, escaped and otherwise kept, its inner newlines
    too. *)
Theorem format_fenced_block (body : string) (k j : nat) :
  mem "`" body = false ->
  headIs LF body = false ->
  lastIs LF body = false ->
  format ("```" +:+ filler k LF +:+ body +:+ filler j LF +:+ "```")
  = "<pre><code>" +:+ escapeHtml body +:+ "</code></pre>" /\
  format ("```" +:+ filler k LF +:+ body +:+ filler j LF)
  = "<pre><code>" +:+ escapeHtml body +:+ "</code></pre>".
Proof.
  intros Hbody Hhead Hlast.
  assert (Hcode : mem "`" (filler k LF +:+ body +:+ filler j LF) = false).
  { rewrite !mem_append, Hbody, !mem_filler by reflexivity. reflexivity. }
  destruct (format_fence _ Hcode) as [Hclosed Hopen].
  rewrite !append_assoc in Hclosed. rewrite Hclosed, Hopen.
  unfold codeBlock. rewrite (stripBlankLines_ends body k j Hhead Hlast).
  split; reflexivity.
Qed.

Lemma format_fenced_block_witness :
  format ("```" +:+ filler 2 LF +:+ "<b>**x**</b>" +:+ filler 1 LF +:+ "```")
  = "<pre><code>&lt;b&gt;**x**&lt;/b&gt;</code></pre>".
Proof.
  apply (format_fenced_block "<b>**x**</b>" 2 1); reflexivity.
Defined.

(** ** [GeminiService] *)

Lemma toGeminiContents_kept (msgs : list MemoryEntry) (mapped : list Content) :
  toGeminiContents msgs = Ok mapped -> Forall2 contentOf (spoken msgs) mapped.
Proof.
  revert mapped. induction msgs as [|m msgs IH]; intros mapped H; cbn in H.
  - injection H as <-. constructor.
  - unfold spoken. cbn [List.filter]. destruct (truthy (m_text m)); cbn [negb] in H.
    + destruct (toString (or_else (m_text m) JNull)) as [t|] eqn:Ht; cbn [bind] in H;
        [|discriminate].
      destruct (toGeminiContents msgs) as [cs|]; cbn [bind] in H; [|discriminate].
      injection H as <-. constructor; [|apply IH; reflexivity].
      exists t. split; [exact Ht|reflexivity].
    + apply IH, H.
Qed.

Lemma toGeminiContents_returns (msgs : list MemoryEntry) :
  Forall (fun m => converts (m_text m)) msgs ->
  exists mapped, toGeminiContents msgs = Ok mapped.
Proof.
  induction 1 as [|m msgs Hm _ (cs & IH)]; [exists []; reflexivity|].
  cbn [toGeminiContents]. destruct (truthy (m_text m)) eqn:Ht; cbn [negb]; [|eauto].
  destruct (m_text m) as [j|] eqn:Hj; [|discriminate].
  destruct (Hm Ht) as (t & Hconv). unfold or_else. rewrite Ht, Hconv, IH. cbn [bind]. eauto.
Qed.

(** X8. [toGeminiContents] keeps, in order, the entries whose text is
    truthy; each becomes a content of one part - the text as [String]
    converts it - whose role is [model] for an assistant entry and [user]
    for any other.  It returns when [String] converts every truthy text,
    and whenever it returns every kept entry has its content; the text of
    a part is never empty when the truthy texts print as non-empty texts
    (as strings do). *)
Theorem toGeminiContents_contents (msgs : list MemoryEntry) :
  (forall mapped,
      toGeminiContents msgs = Ok mapped ->
      Forall2 contentOf (spoken msgs) mapped /\
      Forall (fun c => (role c = "model" \/ role c = "user") /\ length (parts c) = 1%nat)
             mapped) /\
  (Forall (fun m => converts (m_text m)) msgs ->
   exists mapped, toGeminiContents msgs = Ok mapped) /\
  (Forall (fun m => printsNonEmpty (m_text m)) msgs ->
   exists mapped,
     toGeminiContents msgs = Ok mapped /\
     Forall (fun c => Forall (fun p => text p <> "") (parts c)) mapped).
Proof.
  split; [|split].
  - intros mapped H. pose proof (toGeminiContents_kept msgs mapped H) as Hkept.
    split; [exact Hkept|]. clear H.
    induction Hkept as [|m c ms cs (t & _ & ->) _ IH]; [constructor|].
    constructor; [|exact IH].
    cbn [toContent role parts]. split; [|reflexivity].
    destruct (strictEq (m_role m) (Some (JStr "assistant"))); [left|right]; reflexivity.
  - apply toGeminiContents_returns.
  - intros Hprint.
    destruct (toGeminiContents_returns msgs) as (mapped & Hmapped).
    { eapply Forall_impl; [exact Hprint|]. intros m. apply printsNonEmpty_converts. }
    exists mapped. split; [exact Hmapped|].
    pose proof (toGeminiContents_kept msgs mapped Hmapped) as Hkept.
    assert (Hspoken : Forall (fun m => truthy (m_text m) = true /\ printsNonEmpty (m_text m))
                        (spoken msgs)).
    { unfold spoken. clear Hkept Hmapped. induction Hprint as [|m ms Hm _ IH]; [constructor|].
      cbn [List.filter]. destruct (truthy (m_text m)) eqn:Ht; [|exact IH].
      constructor; [split; assumption|exact IH]. }
    clear Hmapped.
    induction Hkept as [|m c ms cs (t & Ht & ->) _ IH]; [constructor|].
    apply Forall_cons in Hspoken as [[Htruthy Hm] Hspoken].
    constructor; [|apply IH; exact Hspoken].
    cbn [toContent parts]. constructor; [|constructor]. cbn [text].
    destruct (m_text m) as [j|]; [|discriminate].
    destruct (Hm Htruthy) as (t' & Ht' & Hne).
    unfold or_else in Ht. rewrite Htruthy, Ht' in Ht. injection Ht as <-. exact Hne.
Qed.

Lemma toGeminiContents_contents_witness :
  exists mapped,
    toGeminiContents
      [ {| m_role := Some (JStr "user"); m_text := Some (JStr "hello") |};
        {| m_role := Some (JStr "assistant"); m_text := Some (JStr "") |};
        {| m_role := None; m_text := None |} ] = Ok mapped /\
    Forall (fun c => Forall (fun p => text p <> "") (parts c)) mapped.
Proof.
  destruct (toGeminiContents_contents
       [ {| m_role := Some (JStr "user"); m_text := Some (JStr "hello") |};
         {| m_role := Some (JStr "assistant"); m_text := Some (JStr "") |};
         {| m_role := None; m_text := None |} ]) as (_ & _ & H).
  apply H. repeat constructor; cbn; try discriminate.
  intros _. exists "hello". split; [reflexivity|discriminate].
Defined.

Lemma join_no_separator (l : list string) : join "" l = fold_right String.append "" l.
Proof.
  induction l as [|x l IH]; [reflexivity|].
  cbn [join fold_right]. destruct l as [|y l].
  - cbn. symmetry. apply append_nil_r.
  - rewrite IH. reflexivity.
Qed.

Lemma mapM_text_parts (ss : list string) :
  mapM (fun p => get "text" (Some p)) (List.map textPart ss)
  = Ok (List.map (fun s => Some (JStr s)) ss).
Proof.
  induction ss as [|s ss IH]; [reflexivity|].
  cbn [List.map mapM]. rewrite IH. reflexivity.
Qed.

Lemma joined_fragments (ss : list string) :
  (fragments <- mapM (fun v => toString (or_else v JNull))
                  (List.filter truthy (List.map (fun s => Some (JStr s)) ss)) ;;
   Ok (join "" fragments))
  = Ok (fold_right String.append "" ss).
Proof.
  assert (H : exists fragments,
             mapM (fun v => toString (or_else v JNull))
               (List.filter truthy (List.map (fun s => Some (JStr s)) ss)) = Ok fragments /\
             fold_right String.append "" fragments = fold_right String.append "" ss).
  { induction ss as [|s ss (fs & Hfs & IH)]; [exists []; split; reflexivity|].
    cbn [List.map List.filter]. destruct s as [|a s].
    - cbn [truthy String.eqb negb]. exists fs. split; [exact Hfs|exact IH].
    - cbn [truthy String.eqb negb mapM]. unfold or_else at 1.
      cbn [truthy String.eqb negb toString bind]. rewrite Hfs. cbn [bind].
      eexists. split; [reflexivity|]. cbn [fold_right]. rewrite IH. reflexivity. }
  destruct H as (fs & -> & Hfs). cbn [bind]. rewrite join_no_separator, Hfs. reflexivity.
Qed.

Lemma extractText_parts (ss : list string) (others : list json) :
  extractText (responseOf (List.map textPart ss) others)
  = Ok (fold_right String.append "" ss).
Proof.
  unfold extractText, responseOf.
  cbn [optGet assoc String.eqb Ascii.eqb Bool.eqb optFirst head].
  rewrite mapM_text_parts. cbn [bind]. apply joined_fragments.
Qed.

(** X9. The text [generate] extracts from a response is the concatenation,
    in order, of the text fragments of its first candidate - the other
    candidates are not read, and empty fragments add nothing; a response
    without candidates gives the empty text. *)
Theorem extractText_first_candidate (ss : list string) (others : list json) (j : json) :
  extractText (responseOf (List.map textPart ss) others)
  = Ok (fold_right String.append "" ss) /\
  (optGet "candidates" (Some j) = None -> extractText j = Ok "").
Proof.
  split.
  - apply extractText_parts.
  - intros H. unfold extractText. rewrite H. reflexivity.
Qed.

Lemma extractText_first_candidate_witness :
  extractText (JObj [("promptFeedback", JObj [])]) = Ok "".
Proof.
  destruct (extractText_first_candidate [] [] (JObj [("promptFeedback", JObj [])])) as [_ H].
  apply H. reflexivity.
Defined.

(** X10. [generate] resolves only on a response with a status from 200 to
    299 whose body parsed to a truthy value; what it resolves with is then
    the text extracted from that body, the body itself and the elapsed
    time. *)
Theorem generate_resolves_only (g : GeminiService) (fetch : Request -> FetchOutcome)
  (elapsed : Z) (memory : list MemoryEntry) (override : option Settings) (r : Generated) :
  generate g fetch elapsed memory override = Resolved r ->
  getApiKey g <> "" /\
  exists req status,
    requestOf g memory override = Ok req /\
    fetch req = Response status (Some (raw r)) /\
    ok status = true /\
    truthy (Some (raw r)) = true /\
    extractText (raw r) = Ok (g_text r) /\
    elapsedMs r = elapsed.
Proof.
  intros H.
  assert (Hkey : getApiKey g <> "").
  { intros E. unfold generate in H. rewrite E in H. discriminate. }
  split; [exact Hkey|].
  destruct (requestOf g memory override) as [req|e] eqn:Hreq.
  - rewrite (generate_built g fetch elapsed memory override req Hkey Hreq) in H.
    exists req. destruct (fetch req) as [|status body]; [discriminate|].
    exists status.
    destruct (ok status) eqn:Hok; cbn [negb] in H.
    + destruct (truthy (Some (safeJsonParse body))) eqn:Htruthy; cbn [negb] in H;
        [|discriminate].
      destruct (extractText (safeJsonParse body)) as [t|e] eqn:Htext; [|discriminate].
      injection H as <-. cbn [raw g_text elapsedMs].
      destruct body as [j|]; [|discriminate].
      repeat split; assumption.
    + destruct (if truthy (serverMessage body) then _ else _); discriminate.
  - exfalso. unfold generate in H. apply String.eqb_neq in Hkey. rewrite Hkey in H.
    unfold requestOf in Hreq.
    change (match override with
            | Some s => s
            | None => getSettings g
            end) with (chosenSettings g override) in H.
    destruct (buildPayload (chosenSettings g override) memory); [discriminate|discriminate].
Qed.

Lemma generate_resolves_only_witness :
  exists req status,
    requestOf {| getApiKey := "key"; getSettings := noSettings |} [] None = Ok req /\
    Response 200 (Some (responseOf [textPart "O"; textPart "K"] []))
    = Response status (Some (responseOf [textPart "O"; textPart "K"] [])) /\
    ok status = true.
Proof.
  destruct (generate_resolves_only {| getApiKey := "key"; getSettings := noSettings |}
              (fun _ => Response 200 (Some (responseOf [textPart "O"; textPart "K"] [])))
              7 [] None
              {| g_text := "OK"; elapsedMs := 7;
                 raw := responseOf [textPart "O"; textPart "K"] [] |})
    as (_ & req & status & Hreq & Hf & Hok & _); [reflexivity|].
  exists req, status. split; [exact Hreq|]. split; assumption.
Defined.



(** X12. The request of [testKey] is always the same probe - one user
    message, temperature 0 and at most 16 tokens - whatever the stored
    temperature and maxTokens are; only the API key, in the URL, varies. *)
Theorem testKey_probe (g : GeminiService) (fetch : Request -> FetchOutcome) (elapsed : Z) :
  testKey g fetch elapsed = testKey g (fun _ => fetch (probeRequest g)) elapsed /\
  forall s',
    testKey g fetch elapsed
    = testKey {| getApiKey := getApiKey g; getSettings := s' |} fetch elapsed.
Proof. split; [|intros s']; reflexivity. Qed.

Lemma allChars_append (p : ascii -> bool) (s t : string) :
  allChars p (s +:+ t) = allChars p s && allChars p t.
Proof.
  induction s as [|a s IH]; [reflexivity|].
  rewrite append_cons. cbn [allChars]. rewrite IH. apply andb_assoc.
Qed.

Lemma hexDigit_safe (k : nat) : (k < 16)%nat -> isUrlSafe (hexDigit k) = true.
Proof.
  intros H. do 16 (destruct k as [|k]; [reflexivity|]). lia.
Qed.

Lemma percent_safe (n : nat) : (n < 256)%nat -> allChars isUrlSafe (percent n) = true.
Proof.
  intros H. unfold percent. cbn [allChars].
  rewrite !hexDigit_safe; [reflexivity| |].
  - apply Nat.mod_upper_bound. lia.
  - apply Nat.Div0.div_lt_upper_bound. lia.
Qed.

Lemma encodeURIComponent_safe (s : string) : allChars isUrlSafe (encodeURIComponent s) = true.
Proof.
  induction s as [|c s IH]; [reflexivity|].
  cbn [encodeURIComponent]. rewrite allChars_append, IH, andb_true_r.
  pose proof (nat_ascii_bounded c) as Hc.
  destruct (inRange 65 90 c || inRange 97 122 c || inRange 48 57 c || mem c "-_.!~*'()") eqn:E.
  - cbn [allChars]. unfold isUrlSafe. rewrite E. reflexivity.
  - destruct (Nat.ltb_spec (nat_of_ascii c) 128) as [Hlt|Hge].
    + apply percent_safe. lia.
    + rewrite allChars_append, !percent_safe; [reflexivity| |].
      * pose proof (Nat.mod_upper_bound (nat_of_ascii c) 64). lia.
      * assert (nat_of_ascii c / 64 < 4)%nat
          by (apply Nat.Div0.div_lt_upper_bound; lia). lia.
Qed.

(** X13. The API key cannot leave its place in the URL: the URL
    [buildUrl] makes is the fixed endpoint followed by a value of the [key]
    parameter that holds only unreserved characters and percent escapes -
    so no [&], [=], [#], [?], [/] and no space. *)
Theorem buildUrl_key_encoded (g : GeminiService) :
  exists q,
    buildUrl g
    = "https://generativelanguage.googleapis.com/v1beta/models/gemini-1.5-flash:generateContent?key="
      +:+ q /\
    allChars isUrlSafe q = true /\
    mem "&" q = false /\ mem "=" q = false /\ mem "#" q = false /\
    mem "?" q = false /\ mem "/" q = false /\ mem " " q = false.
Proof.
  exists (encodeURIComponent (getApiKey g)).
  pose proof (encodeURIComponent_safe (getApiKey g)) as H.
  split; [reflexivity|]. split; [exact H|].
  repeat split; apply (allChars_mem _ _ _ H); reflexivity.
Qed.

(** ** [SessionStore]: the other operations *)

Lemma hasId_field (i : string) (x : json) :
  hasId i x = true -> optGet "id" (Some x) = Some (JStr i).
Proof.
  unfold hasId. destruct (optGet "id" (Some x)) as [[| | |s| |]|]; cbn; try discriminate.
  intros H. apply String.eqb_eq in H. subst s. reflexivity.
Qed.

Lemma hasId_other (i j : string) (x : json) :
  hasId i x = true -> i <> j -> hasId j x = false.
Proof.
  intros H Hne. apply hasId_field in H. unfold hasId. rewrite H. cbn.
  apply String.eqb_neq. exact Hne.
Qed.

Lemma hasId_truthy (i : string) (x : json) : hasId i x = true -> truthy (Some x) = true.
Proof.
  intros H. apply hasId_field in H. destruct x; cbn in H; try discriminate. reflexivity.
Qed.

Lemma getById_lookup (e : Entropy) (i : string) (st : Storage) :
  Forall notNull (loadAll st) ->
  getById e (Some (JStr i)) st = lookup e i (loadAll st).
Proof.
  intros Hall. unfold getById, lookup. rewrite (find_notNull i _ Hall). cbn [bind].
  destruct (List.find (hasId i) (loadAll st)) as [f|] eqn:Hf; [|reflexivity].
  apply find_some in Hf as [_ Hf]. rewrite (hasId_truthy i f Hf). reflexivity.
Qed.

Lemma upsertSession_placed (e : Entropy) (s : value) (st : Storage) (shaped : Session) :
  Forall notNull (loadAll st) ->
  ensureShape e s = Ok shaped ->
  upsertSession e s st = Ok (saveAll (placed shaped (loadAll st)) st, shaped).
Proof.
  intros Hall Hshape. unfold upsertSession, placed. rewrite Hshape. cbn [bind].
  rewrite (findIndex_notNull _ _ Hall). reflexivity.
Qed.

Lemma upsertSession_throws (e : Entropy) (s : value) (st : Storage) (err : string) :
  ensureShape e s = Throw err -> upsertSession e s st = Throw err.
Proof. intros H. unfold upsertSession. rewrite H. reflexivity. Qed.

Lemma placed_notNull (y : Session) (l : list json) :
  Forall notNull l -> Forall notNull (placed y l).
Proof.
  intros Hl. unfold placed. destruct (firstIndex (hasId (id y)) l).
  - apply Forall_notNull_insert; [exact Hl|apply notNull_toJson].
  - constructor; [apply notNull_toJson|exact Hl].
Qed.

Lemma find_placed (y : Session) (l : list json) :
  List.find (hasId (id y)) (placed y l) = Some (toJson y).
Proof.
  unfold placed. destruct (firstIndex (hasId (id y)) l) as [k|] eqn:Hk.
  - apply find_after_insert; [exact Hk|apply hasId_toJson].
  - cbn [List.find]. rewrite hasId_toJson. reflexivity.
Qed.

Lemma find_insert_other (i j : string) (l : list json) (k : nat) (y : json) :
  firstIndex (hasId i) l = Some k -> i <> j -> hasId j y = false ->
  List.find (hasId j) (<[k := y]> l) = List.find (hasId j) l.
Proof.
  intros Hk Hne Hy. revert k Hk. induction l as [|x l IH]; intros k Hk; [discriminate|].
  cbn [firstIndex] in Hk. destruct (hasId i x) eqn:Hx.
  - injection Hk as <-. cbn. rewrite Hy, (hasId_other i j x Hx Hne). reflexivity.
  - destruct (firstIndex (hasId i) l) as [k'|]; [|discriminate]. injection Hk as <-.
    cbn. destruct (hasId j x); [reflexivity|]. apply IH. reflexivity.
Qed.

Lemma find_placed_other (y : Session) (j : string) (l : list json) :
  id y <> j -> List.find (hasId j) (placed y l) = List.find (hasId j) l.
Proof.
  intros Hne. assert (Hy : hasId j (toJson y) = false)
    by (apply (hasId_other (id y)); [apply hasId_toJson|exact Hne]).
  unfold placed. destruct (firstIndex (hasId (id y)) l) as [k|] eqn:Hk.
  - apply (find_insert_other (id y)); assumption.
  - cbn [List.find]. rewrite Hy. reflexivity.
Qed.

Lemma lookup_placed (e : Entropy) (y : Session) (l : list json) :
  filled y -> lookup e (id y) (placed y l) = Ok (Some y).
Proof.
  intros Hy. unfold lookup. rewrite find_placed, (ensureShape_fixed e y Hy). reflexivity.
Qed.

Lemma find_firstIndex {A} (p : A -> bool) (l : list A) :
  match List.find p l with
  | Some _ => exists k, firstIndex p l = Some k
  | None => firstIndex p l = None
  end.
Proof.
  induction l as [|y l IH]; [reflexivity|]. cbn [List.find firstIndex].
  destruct (p y); [eauto|]. destruct (List.find p l).
  - destruct IH as [k ->]. cbn. eauto.
  - rewrite IH. reflexivity.
Qed.

Lemma firstIndex_absent {A} (p : A -> bool) (l : list A) :
  Forall (fun x => p x = false) l -> firstIndex p l = None.
Proof.
  induction 1 as [|y l Hy _ IH]; [reflexivity|]. cbn [firstIndex]. rewrite Hy, IH. reflexivity.
Qed.

(** An entry is replaced, or one is added. *)
Lemma length_placed (y : Session) (l : list json) :
  length (placed y l)
  = match List.find (hasId (id y)) l with
    | Some _ => length l
    | None => S (length l)
    end.
Proof.
  unfold placed. pose proof (find_firstIndex (hasId (id y)) l) as H.
  destruct (List.find (hasId (id y)) l).
  - destruct H as [k ->]. apply length_insert.
  - rewrite H. reflexivity.
Qed.

(** What the store holds after a session with filled fields was put. *)
Lemma upsertSession_filled (e : Entropy) (y : Session) (st : Storage) :
  Forall notNull (loadAll st) -> filled y ->
  upsertSession e (Some (toJson y)) st = Ok (saveAll (placed y (loadAll st)) st, y) /\
  (forall e', getById e' (Some (JStr (id y))) (saveAll (placed y (loadAll st)) st)
              = Ok (Some y)) /\
  (forall e' j, j <> id y ->
     getById e' (Some (JStr j)) (saveAll (placed y (loadAll st)) st)
     = getById e' (Some (JStr j)) st).
Proof.
  intros Hall Hy. split; [|split].
  - apply upsertSession_placed; [exact Hall|apply ensureShape_fixed, Hy].
  - intros e'. rewrite getById_lookup by (apply placed_notNull, Hall).
    cbn [loadAll saveAll sessionsItem]. apply lookup_placed, Hy.
  - intros e' j Hne.
    rewrite !getById_lookup; [|exact Hall|apply placed_notNull, Hall].
    unfold lookup. cbn [loadAll saveAll sessionsItem].
    rewrite find_placed_other by congruence. reflexivity.
Qed.

(** X14. On a collection without [null] entries, [upsertSession] of a
    record that [ensureShape] accepts leaves every other session as it
    was: the lookup of any other id gives the same result as before, the
    collection keeps its length when an entry of that id was stored and
    grows by one otherwise, and the active pointer is not touched; a record
    on which [ensureShape] throws is not stored. *)
Theorem upsertSession_others (e : Entropy) (s : value) (st : Storage) :
  Forall notNull (loadAll st) ->
  match ensureShape e s with
  | Ok shaped =>
      exists st',
        upsertSession e s st = Ok (st', shaped) /\
        (forall e' j, j <> id shaped ->
           getById e' (Some (JStr j)) st' = getById e' (Some (JStr j)) st) /\
        length (loadAll st')
        = match List.find (hasId (id shaped)) (loadAll st) with
          | Some _ => length (loadAll st)
          | None => S (length (loadAll st))
          end /\
        getActiveId st' = getActiveId st
  | Throw err => upsertSession e s st = Throw err
  end.
Proof.
  intros Hall. destruct (ensureShape e s) as [shaped|err] eqn:Hshape;
    [|apply upsertSession_throws; exact Hshape].
  eexists. split; [apply upsertSession_placed; [exact Hall|exact Hshape]|].
  split; [|split; [|reflexivity]].
  - intros e' j Hne.
    rewrite !getById_lookup; [|exact Hall|apply placed_notNull, Hall].
    unfold lookup. cbn [loadAll saveAll sessionsItem].
    rewrite find_placed_other by congruence. reflexivity.
  - cbn [loadAll saveAll sessionsItem]. apply length_placed.
Qed.

Lemma upsertSession_others_witness :
  exists st',
    upsertSession entropy0 (Some (toJson (notes "s1")))
      (holding [toJson (notes "s0"); toJson (notes "s1")] (Some "s0"))
    = Ok (st', notes "s1") /\
    length (loadAll st') = 2%nat /\
    getActiveId st' = "s0".
Proof.
  pose proof (upsertSession_others entropy0 (Some (toJson (notes "s1")))
                (holding [toJson (notes "s0"); toJson (notes "s1")] (Some "s0"))) as H.
  change (ensureShape entropy0 (Some (toJson (notes "s1")))) with (Ok (notes "s1")) in H.
  destruct H as (st' & Hup & _ & Hlen & Hact).
  - repeat constructor; discriminate.
  - exists st'. split; [exact Hup|]. split; [exact Hlen|exact Hact].
Defined.

Lemma filterM_remaining (i : string) (l : list json) :
  Forall notNull l ->
  filterM (fun s => b <- idIs (Some (JStr i)) s ;; Ok (negb b)) l = Ok (remaining i l).
Proof.
  induction 1 as [|x l Hx _ IH]; [reflexivity|].
  cbn [filterM remaining List.filter]. rewrite (idIs_notNull _ x Hx). cbn [bind].
  fold (hasId i x). rewrite IH. cbn [bind]. destruct (hasId i x); reflexivity.
Qed.

Lemma remaining_notNull (i : string) (l : list json) :
  Forall notNull l -> Forall notNull (remaining i l).
Proof.
  intros H. unfold remaining. induction H as [|x l Hx _ IH]; [constructor|].
  cbn [List.filter]. destruct (negb (hasId i x)); [constructor; assumption|exact IH].
Qed.

Lemma find_remaining_self (i : string) (l : list json) :
  List.find (hasId i) (remaining i l) = None.
Proof.
  induction l as [|x l IH]; [reflexivity|].
  cbn [remaining List.filter]. destruct (hasId i x) eqn:Hx; cbn [negb]; [exact IH|].
  cbn [List.find]. rewrite Hx. exact IH.
Qed.

Lemma find_remaining_other (i j : string) (l : list json) :
  i <> j -> List.find (hasId j) (remaining i l) = List.find (hasId j) l.
Proof.
  intros Hne. induction l as [|x l IH]; [reflexivity|].
  cbn [remaining List.filter List.find]. destruct (hasId i x) eqn:Hx; cbn [negb].
  - rewrite (hasId_other i j x Hx Hne). exact IH.
  - cbn [List.find]. destruct (hasId j x); [reflexivity|exact IH].
Qed.

(** [deleteOne] on a collection without [null] entries. *)
Lemma deleteOne_remaining (i : string) (st : Storage) :
  Forall notNull (loadAll st) ->
  deleteOne i st
  = if String.eqb (getActiveId st) i
    then match toString (or_else (optGet "id" (head (remaining i (loadAll st)))) (JStr "")) with
         | Ok next =>
             Returns (setActiveId next (saveAll (remaining i (loadAll st)) st))
               (remaining i (loadAll st))
         | Throw err => Throws (saveAll (remaining i (loadAll st)) st) err
         end
    else Returns (saveAll (remaining i (loadAll st)) st) (remaining i (loadAll st)).
Proof.
  intros Hall. unfold deleteOne. rewrite (filterM_remaining i _ Hall). reflexivity.
Qed.

(** X15. On a collection without [null] entries, [deleteOne(i)] removes
    every entry whose id is [i] and nothing else: afterwards the lookup of
    [i] finds nothing and the lookup of any other id gives what it gave.
    The active pointer is kept unless it was [i]; then it becomes the empty
    string when no entry is left or the first one left has no truthy id,
    and the text of that id when [String] converts it; when [String]
    throws on that id, [deleteOne] throws with the collection saved and the
    pointer left on [i]. *)
Theorem deleteOne_removes (i : string) (st : Storage) :
  Forall notNull (loadAll st) ->
  loadAll (stateOf (deleteOne i st)) = remaining i (loadAll st) /\
  (forall e, getById e (Some (JStr i)) (stateOf (deleteOne i st)) = Ok None) /\
  (forall e j, j <> i ->
     getById e (Some (JStr j)) (stateOf (deleteOne i st)) = getById e (Some (JStr j)) st) /\
  (getActiveId st <> i ->
   deleteOne i st
   = Returns (saveAll (remaining i (loadAll st)) st) (remaining i (loadAll st)) /\
   getActiveId (stateOf (deleteOne i st)) = getActiveId st) /\
  (getActiveId st = i ->
   (truthy (optGet "id" (head (remaining i (loadAll st)))) = false ->
    deleteOne i st
    = Returns (setActiveId "" (saveAll (remaining i (loadAll st)) st))
        (remaining i (loadAll st)) /\
    getActiveId (stateOf (deleteOne i st)) = "") /\
   (forall v next,
      optGet "id" (head (remaining i (loadAll st))) = Some v ->
      truthy (Some v) = true ->
      toString v = Ok next ->
      deleteOne i st
      = Returns (setActiveId next (saveAll (remaining i (loadAll st)) st))
          (remaining i (loadAll st)) /\
      getActiveId (stateOf (deleteOne i st)) = next) /\
   (forall v err,
      optGet "id" (head (remaining i (loadAll st))) = Some v ->
      truthy (Some v) = true ->
      toString v = Throw err ->
      deleteOne i st = Throws (saveAll (remaining i (loadAll st)) st) err /\
      getActiveId (stateOf (deleteOne i st)) = i)).
Proof.
  intros Hall. rewrite (deleteOne_remaining i st Hall).
  assert (Hload : loadAll (stateOf
                     (if String.eqb (getActiveId st) i
                      then match toString (or_else (optGet "id" (head (remaining i (loadAll st))))
                                             (JStr "")) with
                           | Ok next =>
                               Returns (setActiveId next (saveAll (remaining i (loadAll st)) st))
                                 (remaining i (loadAll st))
                           | Throw err => Throws (saveAll (remaining i (loadAll st)) st) err
                           end
                      else Returns (saveAll (remaining i (loadAll st)) st)
                             (remaining i (loadAll st))))
                  = remaining i (loadAll st)).
  { destruct (String.eqb (getActiveId st) i); [|reflexivity].
    destruct (toString _); reflexivity. }
  split; [exact Hload|]. split; [|split; [|split]].
  - intros e. rewrite getById_lookup by (rewrite Hload; apply remaining_notNull, Hall).
    rewrite Hload. unfold lookup. rewrite find_remaining_self. reflexivity.
  - intros e j Hne.
    rewrite !getById_lookup;
      [|exact Hall|rewrite Hload; apply remaining_notNull, Hall].
    rewrite Hload. unfold lookup. rewrite find_remaining_other by congruence. reflexivity.
  - intros Hne. apply String.eqb_neq in Hne. rewrite Hne. split; reflexivity.
  - intros Heq. apply String.eqb_eq in Heq. rewrite Heq. split; [|split].
    + intros Hfalsy. unfold or_else.
      destruct (optGet "id" (head (remaining i (loadAll st)))) as [v|];
        [|split; reflexivity].
      rewrite Hfalsy. split; reflexivity.
    + intros v next Hv Htruthy Hnext. unfold or_else. rewrite Hv, Htruthy, Hnext.
      split; reflexivity.
    + intros v err Hv Htruthy Herr. unfold or_else. rewrite Hv, Htruthy, Herr.
      split; [reflexivity|]. apply String.eqb_eq in Heq. exact Heq.
Qed.

Lemma deleteOne_removes_witness :
  deleteOne "s0" (holding [toJson (notes "s0"); toJson (notes "s1")] (Some "s0"))
  = Returns (holding [toJson (notes "s1")] (Some "s1")) [toJson (notes "s1")].
Proof.
  destruct (deleteOne_removes "s0"
              (holding [toJson (notes "s0"); toJson (notes "s1")] (Some "s0")))
    as (_ & _ & _ & _ & H).
  - repeat constructor; discriminate.
  - destruct (H eq_refl) as (_ & Hnext & _).
    apply (Hnext (JStr "s1") "s1"); reflexivity.
Defined.

Lemma found_shaped (e : Entropy) (i : string) (l : list json) (found : json) :
  List.find (hasId i) l = Some found -> i <> "" -> fieldsPrint (Some found) ->
  exists sess, ensureShape e (Some found) = Ok sess /\ id sess = i /\ filled sess.
Proof.
  intros Hf Hne Hprint. apply find_some in Hf as [_ Hf]. apply hasId_field in Hf.
  destruct (ensureShape_filled e (Some found) Hprint) as (sess & Hsess & Hfilled).
  exists sess. split; [exact Hsess|]. split; [|exact Hfilled].
  apply (ensureShape_keeps_id e (Some found) i sess Hf Hne Hsess).
Qed.

(** The message literal, when [String] converts the text. *)
Lemma shapeMessage_returns (e : Entropy) (msg : value) (t : string) :
  toString (or_else (optGet "text" msg) (JStr "")) = Ok t ->
  exists m,
    shapeMessage e msg = Ok m /\
    optGet "role" (Some m)
    = Some (JStr (if strictEq (optGet "role" msg) (Some (JStr "assistant"))
                  then "assistant" else "user")) /\
    optGet "text" (Some m) = Some (JStr t) /\
    notNull m.
Proof.
  intros Ht. unfold shapeMessage. rewrite Ht. cbn [bind]. eexists.
  split; [reflexivity|]. split; [reflexivity|]. split; [reflexivity|discriminate].
Qed.

Lemma withMessage_filled (now : string) (m : json) (sess : Session) :
  filled sess -> now <> "" -> filled (withMessage now m sess).
Proof.
  intros (Hi & Ht & Hc & _) Hnow. unfold filled.
  cbn [withMessage id title createdAt updatedAt]. repeat split; assumption.
Qed.

(** [addMessage] once the session is found and the message shaped. *)
Lemma addMessage_found (env : nat -> Entropy) (sid : string) (msg : value) (st : Storage)
  (found : json) (sess : Session) (m : json) :
  Forall notNull (loadAll st) ->
  List.find (hasId sid) (loadAll st) = Some found ->
  ensureShape (env 0%nat) (Some found) = Ok sess ->
  filled sess ->
  shapeMessage (env 1%nat) msg = Ok m ->
  addMessage env (Some (JStr sid)) msg st
  = Ok (saveAll (placed (withMessage (nowIso (env 1%nat)) m sess) (loadAll st)) st,
        Some (withMessage (nowIso (env 1%nat)) m sess)).
Proof.
  intros Hall Hfound Hsess Hfilled Hm.
  destruct (upsertSession_filled (env 2%nat) (withMessage (nowIso (env 1%nat)) m sess) st Hall
              (withMessage_filled _ m sess Hfilled (nowIso_nonempty _))) as (Hup & _).
  unfold addMessage. rewrite (getById_lookup _ _ _ Hall).
  unfold lookup. rewrite Hfound, Hsess. cbn [bind]. rewrite Hm. cbn [bind].
  change {| id := id sess; title := title sess; createdAt := createdAt sess;
            updatedAt := nowIso (env 1%nat);
            messages := messages sess ++ [m] |}
    with (withMessage (nowIso (env 1%nat)) m sess).
  rewrite Hup. reflexivity.
Qed.

(** X16. On a collection without [null] entries, [addMessage] on an id
    that no session carries changes nothing and returns [null].  On the
    non-empty id of a stored session whose four string fields print as
    non-empty texts, and with a message whose text [String] converts, it
    appends exactly one message to the messages of that session: its role
    is [assistant] when the role given is that string and [user]
    otherwise, its text is the converted text.  The id, the title and the
    creation time stay, [updatedAt] is set, the number of sessions is
    kept, the other sessions are left as they were, and the session it
    returns is the one the store then gives for that id.  On the id of a
    stored session that [ensureShape] accepts, when [String] throws on the
    text of the message, [addMessage] throws. *)
Theorem addMessage_appends (env : nat -> Entropy) (sid : string) (msg : value)
  (st : Storage) :
  Forall notNull (loadAll st) ->
  (List.find (hasId sid) (loadAll st) = None ->
   addMessage env (Some (JStr sid)) msg st = Ok (st, None)) /\
  (forall found t,
      List.find (hasId sid) (loadAll st) = Some found ->
      sid <> "" ->
      fieldsPrint (Some found) ->
      toString (or_else (optGet "text" msg) (JStr "")) = Ok t ->
      exists sess st' m s',
        ensureShape (env 0%nat) (Some found) = Ok sess /\
        addMessage env (Some (JStr sid)) msg st = Ok (st', Some s') /\
        messages s' = messages sess ++ [m] /\
        optGet "role" (Some m)
        = Some (JStr (if strictEq (optGet "role" msg) (Some (JStr "assistant"))
                      then "assistant" else "user")) /\
        optGet "text" (Some m) = Some (JStr t) /\
        id s' = sid /\
        title s' = title sess /\
        createdAt s' = createdAt sess /\
        updatedAt s' = nowIso (env 1%nat) /\
        (forall e, getById e (Some (JStr sid)) st' = Ok (Some s')) /\
        (forall e j, j <> sid ->
           getById e (Some (JStr j)) st' = getById e (Some (JStr j)) st) /\
        length (loadAll st') = length (loadAll st) /\
        getActiveId st' = getActiveId st) /\
  (forall found sess err,
      List.find (hasId sid) (loadAll st) = Some found ->
      ensureShape (env 0%nat) (Some found) = Ok sess ->
      toString (or_else (optGet "text" msg) (JStr "")) = Throw err ->
      addMessage env (Some (JStr sid)) msg st = Throw err).
Proof.
  intros Hall. split; [|split].
  - intros Hnone. unfold addMessage. rewrite (getById_lookup _ _ _ Hall).
    unfold lookup. rewrite Hnone. reflexivity.
  - intros found t Hfound Hne Hprint Ht.
    destruct (found_shaped (env 0%nat) sid _ found Hfound Hne Hprint)
      as (sess & Hsess & Hid & Hfilled).
    destruct (shapeMessage_returns (env 1%nat) msg t Ht) as (m & Hm & Hrole & Htext & _).
    pose proof (addMessage_found env sid msg st found sess m Hall Hfound Hsess Hfilled Hm)
      as Hadd.
    destruct (upsertSession_filled (env 2%nat) (withMessage (nowIso (env 1%nat)) m sess) st Hall
                (withMessage_filled _ m sess Hfilled (nowIso_nonempty _)))
      as (_ & Hget & Hother).
    exists sess, (saveAll (placed (withMessage (nowIso (env 1%nat)) m sess) (loadAll st)) st),
      m, (withMessage (nowIso (env 1%nat)) m sess).
    split; [exact Hsess|]. split; [exact Hadd|]. split; [reflexivity|].
    split; [exact Hrole|]. split; [exact Htext|]. split; [exact Hid|].
    split; [reflexivity|]. split; [reflexivity|]. split; [reflexivity|].
    split; [|split; [|split; [|reflexivity]]].
    + intros e. rewrite <- Hid at 1. apply Hget.
    + intros e j Hj. apply Hother. cbn [withMessage id]. congruence.
    + cbn [loadAll saveAll sessionsItem]. rewrite length_placed.
      cbn [withMessage id]. rewrite Hid, Hfound. reflexivity.
  - intros found sess err Hfound Hsess Herr.
    unfold addMessage. rewrite (getById_lookup _ _ _ Hall).
    unfold lookup. rewrite Hfound, Hsess. cbn [bind].
    unfold shapeMessage. rewrite Herr. reflexivity.
Qed.

Lemma addMessage_appends_witness :
  exists sess st' m s',
    ensureShape entropy0 (Some (toJson (notes "s1"))) = Ok sess /\
    addMessage (fun _ => entropy0) (Some (JStr "s1")) (userMessage "hello")
      (holding [toJson (notes "s0"); toJson (notes "s1")] (Some "s0"))
    = Ok (st', Some s') /\
    messages s' = messages sess ++ [m] /\
    optGet "role" (Some m) = Some (JStr "user") /\
    optGet "text" (Some m) = Some (JStr "hello").
Proof.
  destruct (addMessage_appends (fun _ => entropy0) "s1" (userMessage "hello")
              (holding [toJson (notes "s0"); toJson (notes "s1")] (Some "s0")))
    as (_ & H & _).
  - repeat constructor; discriminate.
  - destruct (H (toJson (notes "s1")) "hello") as (sess & st' & m & s' & H1 & H2 & H3 & H4 & H5 & _).
    + reflexivity.
    + discriminate.
    + prints.
    + reflexivity.
    + exists sess, st', m, s'. repeat split; assumption.
Defined.

Lemma length_slice0 (n : nat) (s : string) :
  String.length (slice0 n s) = Nat.min n (String.length s).
Proof.
  unfold slice0. revert n. induction s as [|a s IH]; intros [|n]; cbn; try reflexivity.
  rewrite IH. reflexivity.
Qed.

Lemma slice0_nonempty (n : nat) (s : string) : s <> "" -> slice0 (S n) s <> "".
Proof. destruct s; [congruence|]. cbn. discriminate. Qed.

Lemma slice0_prefix (n : nat) (s : string) : exists rest, s = slice0 n s +:+ rest.
Proof.
  unfold slice0. revert n. induction s as [|a s IH]; intros [|n].
  - exists "". reflexivity.
  - exists "". reflexivity.
  - exists (String a s). reflexivity.
  - destruct (IH n) as (rest & Hrest). exists rest.
    change (String a s = String a (String.substring 0 n s +:+ rest)). f_equal. exact Hrest.
Qed.

(** X17. On a collection without [null] entries, [rename] on an id that no
    session carries changes nothing and returns [null].  On the non-empty
    id of a stored session whose four string fields print as non-empty
    texts, with a non-empty string as the new title, the title becomes the
    first 80 code units of it - a prefix of it, never longer than 80, and
    all of it when it is shorter - [updatedAt] is set, the id, the
    messages and the creation time stay, the other sessions are left as
    they were, and the store then gives the renamed session for that id. *)
Theorem rename_truncates (env : nat -> Entropy) (i : string) (st : Storage) :
  Forall notNull (loadAll st) ->
  (forall newTitle,
      List.find (hasId i) (loadAll st) = None ->
      rename env (Some (JStr i)) newTitle st = Ok (st, None)) /\
  (forall found t,
      List.find (hasId i) (loadAll st) = Some found ->
      i <> "" ->
      fieldsPrint (Some found) ->
      t <> "" ->
      exists sess st' s',
        ensureShape (env 0%nat) (Some found) = Ok sess /\
        rename env (Some (JStr i)) (Some (JStr t)) st = Ok (st', Some s') /\
        (exists rest, t = title s' +:+ rest) /\
        String.length (title s') = Nat.min 80 (String.length t) /\
        id s' = i /\
        messages s' = messages sess /\
        createdAt s' = createdAt sess /\
        updatedAt s' = nowIso (env 1%nat) /\
        (forall e, getById e (Some (JStr i)) st' = Ok (Some s')) /\
        (forall e j, j <> i ->
           getById e (Some (JStr j)) st' = getById e (Some (JStr j)) st) /\
        length (loadAll st') = length (loadAll st) /\
        getActiveId st' = getActiveId st).
Proof.
  intros Hall. split.
  - intros newTitle Hnone. unfold rename. rewrite (getById_lookup _ _ _ Hall).
    unfold lookup. rewrite Hnone. reflexivity.
  - intros found t Hfound Hne Hprint Ht.
    destruct (found_shaped (env 0%nat) i _ found Hfound Hne Hprint)
      as (sess & Hsess & Hid & (Hi & Htitle & Hc & Hu)).
    set (s' := withTitle (slice0 80 t) (nowIso (env 1%nat)) sess).
    assert (Hs' : filled s').
    { subst s'. unfold filled. cbn [withTitle id title createdAt updatedAt].
      repeat split; try assumption; [apply slice0_nonempty, Ht|apply nowIso_nonempty]. }
    destruct (upsertSession_filled (env 2%nat) s' st Hall Hs') as (Hup & Hget & Hother).
    exists sess, (saveAll (placed s' (loadAll st)) st), s'.
    split; [exact Hsess|]. split.
    { unfold rename. rewrite (getById_lookup _ _ _ Hall).
      unfold lookup. rewrite Hfound, Hsess. cbn [bind].
      rewrite (or_else_string t "Session" Ht). cbn [toString bind]. fold s'.
      rewrite Hup. reflexivity. }
    split; [apply slice0_prefix|]. split; [apply length_slice0|].
    split; [exact Hid|]. split; [reflexivity|]. split; [reflexivity|]. split; [reflexivity|].
    split; [|split; [|split; [|reflexivity]]].
    + intros e. rewrite <- Hid at 1. apply Hget.
    + intros e j Hj. apply Hother. subst s'. cbn [withTitle id]. congruence.
    + cbn [loadAll saveAll sessionsItem]. rewrite length_placed.
      subst s'. cbn [withTitle id]. rewrite Hid, Hfound. reflexivity.
Qed.

Lemma rename_truncates_witness :
  exists sess st' s',
    ensureShape entropy0 (Some (toJson (notes "s1"))) = Ok sess /\
    rename (fun _ => entropy0) (Some (JStr "s1")) (Some (JStr "Plans"))
      (holding [toJson (notes "s0"); toJson (notes "s1")] (Some "s0"))
    = Ok (st', Some s') /\
    (exists rest, "Plans" = title s' +:+ rest) /\
    String.length (title s') = Nat.min 80 (String.length "Plans").
Proof.
  destruct (rename_truncates (fun _ => entropy0) "s1"
              (holding [toJson (notes "s0"); toJson (notes "s1")] (Some "s0")))
    as [_ H].
  - repeat constructor; discriminate.
  - destruct (H (toJson (notes "s1")) "Plans") as (sess & st' & s' & H1 & H2 & H3 & H4 & _).
    + reflexivity.
    + discriminate.
    + prints.
    + discriminate.
    + exists sess, st', s'. repeat split; assumption.
Defined.

(** ** More of [GenesisApp] *)

Lemma isEmpty_false (s : string) : s <> "" -> isEmpty s = false.
Proof. destruct s; [congruence|reflexivity]. Qed.

Lemma getActiveSession_lookup (e : Entropy) (a : App) :
  Forall notNull (loadAll (storage a)) ->
  activeSessionId a <> "" ->
  getActiveSession e a = lookup e (activeSessionId a) (loadAll (storage a)).
Proof.
  intros Hall Hne. unfold getActiveSession. rewrite (isEmpty_false _ Hne).
  apply getById_lookup, Hall.
Qed.

(** X18. On a collection without [null] entries in which no session
    carries the id that is generated, [createAndActivateSession] puts the
    new session in front of the collection and keeps the others, points
    both the stored pointer and the state at it, and the active session is
    then the new, empty one. *)
Theorem createAndActivateSession_fresh (env : nat -> Entropy) (a : App) :
  Forall notNull (loadAll (storage a)) ->
  Forall (fun x => hasId (uid (env 0%nat) "sess") x = false) (loadAll (storage a)) ->
  exists a',
    createAndActivateSession env a = Ok a' /\
    loadAll (storage a')
    = toJson (createNewSession (env 0%nat) (Some "New Session")) :: loadAll (storage a) /\
    activeSessionId a' = uid (env 0%nat) "sess" /\
    getActiveId (storage a') = uid (env 0%nat) "sess" /\
    messages (createNewSession (env 0%nat) (Some "New Session")) = [] /\
    (forall e, getActiveSession e a'
               = Ok (Some (createNewSession (env 0%nat) (Some "New Session")))) /\
    (forall e j, j <> uid (env 0%nat) "sess" ->
       getById e (Some (JStr j)) (storage a') = getById e (Some (JStr j)) (storage a)).
Proof.
  intros Hall Hfresh.
  set (created := createNewSession (env 0%nat) (Some "New Session")).
  assert (Hfilled : filled created) by (apply createNewSession_filled; discriminate).
  destruct (upsertSession_filled (env 1%nat) created (storage a) Hall Hfilled)
    as (Hup & Hget & Hother).
  assert (Hplaced : placed created (loadAll (storage a)) = toJson created :: loadAll (storage a)).
  { unfold placed. change (id created) with (uid (env 0%nat) "sess").
    rewrite (firstIndex_absent _ _ Hfresh). reflexivity. }
  exists (withStorage (setActiveId (id created)
                         (saveAll (placed created (loadAll (storage a))) (storage a)))
            (id created) a).
  split; [|split; [|split; [|split; [|split; [|split]]]]].
  - unfold createAndActivateSession. fold created. rewrite Hup. reflexivity.
  - cbn [withStorage storage]. rewrite loadAll_setActiveId.
    cbn [loadAll saveAll sessionsItem]. exact Hplaced.
  - reflexivity.
  - reflexivity.
  - reflexivity.
  - intros e. unfold getActiveSession. cbn [withStorage activeSessionId storage].
    rewrite (isEmpty_false (id created)) by (apply uid_sess_nonempty).
    exact (Hget e).
  - intros e j Hj. cbn [withStorage storage]. exact (Hother e j Hj).
Qed.

Lemma createAndActivateSession_fresh_witness :
  exists a',
    createAndActivateSession (fun _ => entropy0) (appOf (holding [toJson (notes "s0")] (Some "s0")))
    = Ok a' /\
    loadAll (storage a')
    = [toJson (createNewSession entropy0 (Some "New Session")); toJson (notes "s0")] /\
    activeSessionId a' = freshId.
Proof.
  destruct (createAndActivateSession_fresh (fun _ => entropy0)
              (appOf (holding [toJson (notes "s0")] (Some "s0"))))
    as (a' & Hrun & Hload & Hactive & _).
  - repeat constructor; discriminate.
  - repeat constructor.
  - exists a'. split; [exact Hrun|]. split; [exact Hload|exact Hactive].
Defined.

(** The ids of the shaped sessions do not depend on the clock when the
    stored sessions carry string ids. *)
Lemma shaped_ids (env env' : nat -> Entropy) (active : string) (l : list json)
  (all all' : list Session) :
  Forall hasStringId l ->
  imapM (fun k s => ensureShape (env k) (Some s)) l = Ok all ->
  imapM (fun k s => ensureShape (env' k) (Some s)) l = Ok all' ->
  existsb (fun s => String.eqb (id s) active) all
  = existsb (fun s => String.eqb (id s) active) all'.
Proof.
  intros Hl. revert env env' all all'.
  induction Hl as [|x l (i & Hid & Hne) _ IH]; intros env env' all all' Hall Hall'.
  - cbn in Hall, Hall'. injection Hall as <-. injection Hall' as <-. reflexivity.
  - apply imapM_cons in Hall as (y & ys & -> & Hy & Hys).
    apply imapM_cons in Hall' as (y' & ys' & -> & Hy' & Hys').
    cbn [existsb].
    rewrite (ensureShape_keeps_id _ _ i y Hid Hne Hy).
    rewrite (ensureShape_keeps_id _ _ i y' Hid Hne Hy').
    rewrite (IH (fun k => env (S k)) (fun k => env' (S k)) ys ys' Hys Hys'). reflexivity.
Qed.

Lemma shaped_member (env : nat -> Entropy) (active : string) (l : list json) (x : json)
  (all : list Session) :
  In x l -> hasId active x = true -> active <> "" ->
  imapM (fun k s => ensureShape (env k) (Some s)) l = Ok all ->
  existsb (fun s => String.eqb (id s) active) all = true.
Proof.
  intros Hin Hx Hne. revert env all. induction l as [|y l IH]; intros env all Hall;
    [destruct Hin|].
  apply imapM_cons in Hall as (s & ss & -> & Hs & Hss).
  cbn [existsb]. apply orb_true_iff. destruct Hin as [->|Hin].
  - left. rewrite (ensureShape_keeps_id _ _ active s (hasId_field _ _ Hx) Hne Hs).
    apply String.eqb_refl.
  - right. exact (IH Hin (fun k => env (S k)) ss Hss).
Qed.

(** The three ways [ensureAtLeastOneSession] returns. *)
Lemma ensureAtLeastOneSession_shaped (env : nat -> Entropy) (a : App) (all : list Session) :
  imapM (fun k s => ensureShape (env k) (Some s)) (loadAll (storage a)) = Ok all ->
  ensureAtLeastOneSession env a
  = match all with
    | [] =>
        Ok (withStorage
              (setActiveId (id (createNewSession (env 0%nat) (Some "Operator Session")))
                 (saveAll [toJson (createNewSession (env 0%nat) (Some "Operator Session"))]
                    (storage a)))
              (id (createNewSession (env 0%nat) (Some "Operator Session"))) a)
    | first :: _ =>
        if isEmpty (getActiveId (storage a))
           || negb (existsb (fun s => String.eqb (id s) (getActiveId (storage a))) all)
        then Ok (withStorage (setActiveId (id first) (storage a)) (id first) a)
        else Ok (withStorage (storage a) (getActiveId (storage a)) a)
    end.
Proof. intros H. unfold ensureAtLeastOneSession. rewrite H. reflexivity. Qed.

(** X19. Whenever [ensureAtLeastOneSession] returns on a collection that
    holds a session, the collection is as it was; and when every stored
    session carries a non-empty string id and fields that [String]
    converts, it returns, and a second call, at any later time, returns
    the same state: the state it leaves is one it accepts. *)
Theorem ensureAtLeastOneSession_settles (env env' : nat -> Entropy) (a : App) :
  (forall a' x l,
      ensureAtLeastOneSession env a = Ok a' ->
      loadAll (storage a) = x :: l ->
      loadAll (storage a') = x :: l) /\
  (Forall hasStringId (loadAll (storage a)) ->
   Forall (fun x => fieldsConvert (Some x)) (loadAll (storage a)) ->
   exists a',
     ensureAtLeastOneSession env a = Ok a' /\
     ensureAtLeastOneSession env' a' = Ok a').
Proof.
  split.
  - intros a' x l Hrun Hload. unfold ensureAtLeastOneSession in Hrun.
    destruct (imapM _ (loadAll (storage a))) as [all|] eqn:Hall; cbn [bind] in Hrun;
      [|discriminate].
    rewrite Hload in Hall. apply imapM_cons in Hall as (y & ys & -> & _ & _).
    destruct (isEmpty _ || negb _); injection Hrun as <-;
      cbn [withStorage storage]; rewrite ?loadAll_setActiveId; exact Hload.
  - intros Hids Hconv.
    destruct (imapM_returns env _ Hconv) as (all & Hall).
    destruct (imapM_returns env' _ Hconv) as (all' & Hall').
    rewrite (ensureAtLeastOneSession_shaped env a all Hall).
    destruct (loadAll (storage a)) as [|x l] eqn:Hload.
    + cbn in Hall. injection Hall as <-.
      set (created := createNewSession (env 0%nat) (Some "Operator Session")).
      eexists. split; [reflexivity|].
      unfold ensureAtLeastOneSession.
      cbn [withStorage storage]. rewrite loadAll_setActiveId, getActiveId_setActiveId.
      cbn [loadAll saveAll sessionsItem imapM].
      assert (F : ensureShape (env' 0%nat) (Some (toJson created)) = Ok created)
        by (apply createNewSession_fixed; discriminate).
      rewrite F. cbn [bind].
      rewrite (isEmpty_false (id created)) by apply uid_sess_nonempty.
      cbn [existsb]. rewrite String.eqb_refl. reflexivity.
    + pose proof Hids as Hids'. apply Forall_cons in Hids' as [(i & Hid & Hne) _].
      pose proof Hall as Hall0. apply imapM_cons in Hall0 as (y & ys & -> & Hy & _).
      pose proof Hall' as Hall0'. apply imapM_cons in Hall0' as (y' & ys' & -> & Hy' & _).
      pose proof (ensureShape_keeps_id _ _ i y Hid Hne Hy) as Hiy.
      pose proof (ensureShape_keeps_id _ _ i y' Hid Hne Hy') as Hiy'.
      destruct (isEmpty (getActiveId (storage a))
                || negb (existsb (fun s => String.eqb (id s) (getActiveId (storage a)))
                           (y :: ys))) eqn:Hc.
      * eexists. split; [reflexivity|].
        assert (Hall2 : imapM (fun k s => ensureShape (env' k) (Some s))
                          (loadAll (storage (withStorage (setActiveId (id y) (storage a))
                                               (id y) a)))
                        = Ok (y' :: ys')).
        { cbn [withStorage storage]. rewrite loadAll_setActiveId, Hload. exact Hall'. }
        rewrite (ensureAtLeastOneSession_shaped env' _ _ Hall2).
        cbn [withStorage storage]. rewrite getActiveId_setActiveId.
        cbn [existsb]. rewrite Hiy, Hiy'.
        rewrite (isEmpty_false _ Hne), String.eqb_refl. reflexivity.
      * eexists. split; [reflexivity|].
        assert (Hall2 : imapM (fun k s => ensureShape (env' k) (Some s))
                          (loadAll (storage (withStorage (storage a)
                                               (getActiveId (storage a)) a)))
                        = Ok (y' :: ys')).
        { cbn [withStorage storage]. rewrite Hload. exact Hall'. }
        rewrite (ensureAtLeastOneSession_shaped env' _ _ Hall2).
        cbn [withStorage storage].
        rewrite <- (shaped_ids env env' _ (x :: l) (y :: ys) (y' :: ys') Hids Hall Hall'), Hc.
        reflexivity.
Qed.

Lemma ensureAtLeastOneSession_settles_witness :
  exists a',
    ensureAtLeastOneSession (fun _ => entropy0)
      (appOf (holding [toJson (notes "s0"); toJson (notes "s1")] (Some "gone"))) = Ok a' /\
    ensureAtLeastOneSession (fun _ => entropy1) a' = Ok a'.
Proof.
  apply (ensureAtLeastOneSession_settles (fun _ => entropy0) (fun _ => entropy1)
           (appOf (holding [toJson (notes "s0"); toJson (notes "s1")] (Some "gone")))).
  - repeat constructor.
    + exists "s0". split; [reflexivity|discriminate].
    + exists "s1". split; [reflexivity|discriminate].
  - repeat constructor; apply converts_string.
Defined.

Lemma find_member {A} (p : A -> bool) (l : list A) (x : A) :
  In x l -> p x = true -> exists y, List.find p l = Some y /\ p y = true /\ In y l.
Proof.
  intros Hin Hx. destruct (List.find p l) as [y|] eqn:Hf.
  - exists y. split; [reflexivity|]. apply find_some in Hf. split; apply Hf.
  - rewrite (find_none _ _ Hf x Hin) in Hx. discriminate.
Qed.

(** X20. On a collection without [null] entries whose sessions have
    fields that [String] converts, when [setActiveSession] is given the
    non-empty id of a stored session, a following
    [ensureAtLeastOneSession] keeps that choice and changes nothing, and
    the active session is then a session with that id. *)
Theorem setActiveSession_kept (env : nat -> Entropy) (a : App) (i : string) (x : json) :
  Forall notNull (loadAll (storage a)) ->
  Forall (fun y => fieldsConvert (Some y)) (loadAll (storage a)) ->
  In x (loadAll (storage a)) ->
  hasId i x = true ->
  i <> "" ->
  ensureAtLeastOneSession env (setActiveSession i a) = Ok (setActiveSession i a) /\
  activeSessionId (setActiveSession i a) = i /\
  getActiveId (storage (setActiveSession i a)) = i /\
  loadAll (storage (setActiveSession i a)) = loadAll (storage a) /\
  forall e, exists s, getActiveSession e (setActiveSession i a) = Ok (Some s) /\ id s = i.
Proof.
  intros Hall Hconv Hin Hx Hne. split; [|split; [reflexivity|split; [reflexivity|split;
    [reflexivity|]]]].
  - destruct (imapM_returns env _ Hconv) as (all & Hshaped).
    assert (Hshaped' : imapM (fun k s => ensureShape (env k) (Some s))
                         (loadAll (storage (setActiveSession i a))) = Ok all) by exact Hshaped.
    rewrite (ensureAtLeastOneSession_shaped env _ all Hshaped').
    pose proof (shaped_member env i _ x all Hin Hx Hne Hshaped) as Hex.
    destruct all as [|first rest]; [discriminate|].
    unfold setActiveSession at 1 2 3. cbn [withStorage storage].
    rewrite getActiveId_setActiveId, Hex, (isEmpty_false _ Hne). reflexivity.
  - intros e. destruct (find_member (hasId i) _ x Hin Hx) as (y & Hfind & Hy & Hiny).
    pose proof (proj1 (List.Forall_forall _ _) Hconv y Hiny) as Hyconv.
    destruct (ensureShape_returns e (Some y) Hyconv) as (s & Hs).
    exists s. split.
    + rewrite getActiveSession_lookup; [|exact Hall|exact Hne].
      unfold setActiveSession. cbn [withStorage storage activeSessionId].
      rewrite loadAll_setActiveId. unfold lookup. rewrite Hfind, Hs. reflexivity.
    + apply (ensureShape_keeps_id e (Some y) i s (hasId_field _ _ Hy) Hne Hs).
Qed.

Lemma setActiveSession_kept_witness :
  ensureAtLeastOneSession (fun _ => entropy0)
    (setActiveSession "s1" (appOf (holding [toJson (notes "s0"); toJson (notes "s1")] (Some "s0"))))
  = Ok (setActiveSession "s1"
          (appOf (holding [toJson (notes "s0"); toJson (notes "s1")] (Some "s0")))).
Proof.
  apply (setActiveSession_kept (fun _ => entropy0)
           (appOf (holding [toJson (notes "s0"); toJson (notes "s1")] (Some "s0")))
           "s1" (toJson (notes "s1"))).
  - repeat constructor; discriminate.
  - repeat constructor; apply converts_string.
  - right. left. reflexivity.
  - reflexivity.
  - discriminate.
Defined.



(** ** The assistant turn *)













(** ** The window of the assistant turn *)




(** ** [Ids.nowTimeString] *)

Lemma padStart_two_digits (n : nat) :
  (n < 100)%nat ->
  exists a b, padStart 2 "0" (pretty n) = String a (String b "")
              /\ isDigit a = true /\ isDigit b = true.
Proof.
  intros Hn.
  assert (H : forallb (fun k => match padStart 2 "0" (pretty k) with
                                | String a (String b EmptyString) => isDigit a && isDigit b
                                | _ => false
                                end) (seq 0 100) = true) by (vm_compute; reflexivity).
  rewrite forallb_forall in H. specialize (H n).
  destruct (padStart 2 "0" (pretty n)) as [|a [|b [|c rest]]];
    try (assert (F : false = true) by (apply H, in_seq; lia); discriminate).
  exists a, b. split; [reflexivity|]. apply andb_true_iff, H, in_seq. lia.
Qed.

(** X24. For hours below 24 and minutes and seconds below 60,
    [nowTimeString] gives eight characters: two digits, a colon, two
    digits, a colon and two digits. *)
Theorem nowTimeString_shape (h m s : nat) :
  (h < 24)%nat -> (m < 60)%nat -> (s < 60)%nat ->
  exists a b c d e f,
    nowTimeString h m s
    = String a (String b (String ":" (String c (String d (String ":"
        (String e (String f ""))))))) /\
    forallb isDigit [a; b; c; d; e; f] = true.
Proof.
  intros Hh Hm Hs.
  destruct (padStart_two_digits h) as (a & b & Eh & Ha & Hb); [lia|].
  destruct (padStart_two_digits m) as (c & d & Em & Hc & Hd); [lia|].
  destruct (padStart_two_digits s) as (e & f & Es & He & Hf); [lia|].
  exists a, b, c, d, e, f. split.
  - unfold nowTimeString. rewrite Eh, Em, Es. reflexivity.
  - cbn [forallb]. rewrite Ha, Hb, Hc, Hd, He, Hf. reflexivity.
Qed.

Lemma nowTimeString_shape_witness :
  exists a b c d e f,
    nowTimeString 9 5 0
    = String a (String b (String ":" (String c (String d (String ":"
        (String e (String f ""))))))) /\
    forallb isDigit [a; b; c; d; e; f] = true.
Proof. apply (nowTimeString_shape 9 5 0); lia. Defined.

(** ** [saveSettings] *)

(** X25. [saveSettings] keeps the store, trims the key, and for numbers
    other than NaN leaves a temperature within [0,1] and a maxTokens
    within [64,2048]; the payload that [generate] then builds - it builds
    one whenever the messages convert - carries exactly the saved values:
    its own clamping changes nothing. *)
Theorem saveSettings_then_payload (key : string) (t m : number) (a : App)
  (memory : list MemoryEntry) :
  t <> NaN -> m <> NaN ->
  storage (saveSettings key t m a) = storage a /\
  apiKey (settings (saveSettings key t m a)) = trim key /\
  within 0 1 (clamp t (Fin 0) (Fin 1)) /\
  within 64 2048 (clamp m (Fin 64) (Fin 2048)) /\
  temperature (settings (saveSettings key t m a)) = Some (clamp t (Fin 0) (Fin 1)) /\
  maxTokens (settings (saveSettings key t m a)) = Some (clamp m (Fin 64) (Fin 2048)) /\
  (forall mapped,
      toGeminiContents memory = Ok mapped ->
      exists req,
        requestOf (gemini (saveSettings key t m a)) memory None = Ok req /\
        contents (payload req) = mapped /\
        sameNumber (cfg_temperature (generationConfig (payload req)))
          (clamp t (Fin 0) (Fin 1)) /\
        sameNumber (maxOutputTokens (generationConfig (payload req)))
          (clamp m (Fin 64) (Fin 2048))) /\
  (forall req,
      requestOf (gemini (saveSettings key t m a)) memory None = Ok req ->
      sameNumber (cfg_temperature (generationConfig (payload req)))
        (clamp t (Fin 0) (Fin 1)) /\
      sameNumber (maxOutputTokens (generationConfig (payload req)))
        (clamp m (Fin 64) (Fin 2048))).
Proof.
  intros Ht Hm.
  assert (Wt : within 0 1 (clamp t (Fin 0) (Fin 1)))
    by (apply clamp_within; [exact Ht|unfold Qle; cbn; lia]).
  assert (Wm : within 64 2048 (clamp m (Fin 64) (Fin 2048)))
    by (apply clamp_within; [exact Hm|unfold Qle; cbn; lia]).
  assert (St : sameNumber (clamp (clamp t (Fin 0) (Fin 1)) (Fin 0) (Fin 1))
                 (clamp t (Fin 0) (Fin 1))) by (apply clamp_fixes; exact Wt).
  assert (Sm : sameNumber (clamp (clamp m (Fin 64) (Fin 2048)) (Fin 1) (Fin 2048))
                 (clamp m (Fin 64) (Fin 2048))).
  { apply clamp_fixes. apply (within_wider 64 2048); [| |exact Wm]; unfold Qle; cbn; lia. }
  split; [reflexivity|]. split; [reflexivity|]. split; [exact Wt|]. split; [exact Wm|].
  split; [reflexivity|]. split; [reflexivity|]. split.
  - intros mapped Hmapped. eexists. split; [apply requestOf_converts, Hmapped|].
    split; [reflexivity|]. split; [exact St|exact Sm].
  - intros req Hreq. destruct (requestOf_built _ _ _ _ Hreq) as (_ & -> & _).
    split; [exact St|exact Sm].
Qed.

Lemma saveSettings_then_payload_witness :
  exists req,
    requestOf (gemini (saveSettings " k " (Fin 2) (Fin 5) (appOf emptyStorage))) [] None
    = Ok req /\
    contents (payload req) = [] /\
    sameNumber (cfg_temperature (generationConfig (payload req)))
      (clamp (Fin 2) (Fin 0) (Fin 1)) /\
    sameNumber (maxOutputTokens (generationConfig (payload req)))
      (clamp (Fin 5) (Fin 64) (Fin 2048)).
Proof.
  destruct (saveSettings_then_payload " k " (Fin 2) (Fin 5) (appOf emptyStorage) [])
    as (_ & _ & _ & _ & _ & _ & H & _).
  - discriminate.
  - discriminate.
  - apply (H []). reflexivity.
Defined.

(** ** The first client *)

(** X26. The [callGemini] of the first client returns a value exactly
    when the response has a status from 200 to 299 and a body that parses,
    and the text of the first part of its first candidate is truthy; the
    value is that text. *)
Theorem legacy_callGemini_resolves (st : Legacy.State)
  (fetch : Legacy.Request -> FetchOutcome) (t : string) (v : json) :
  Legacy.callGemini st fetch t = Legacy.Returned v <->
  exists status data,
    fetch (Legacy.request st t) = Response status (Some data) /\
    ok status = true /\
    Legacy.firstText data = Some v /\
    truthy (Some v) = true.
Proof.
  unfold Legacy.callGemini. split.
  - destruct (fetch (Legacy.request st t)) as [|status body]; [discriminate|].
    destruct (ok status) eqn:Hok; cbn [negb].
    + destruct body as [data|]; [|discriminate].
      destruct (Legacy.firstText data) as [x|] eqn:Hx; [|discriminate].
      destruct (truthy (Some x)) eqn:Htruthy; [|discriminate].
      intros [= <-]. exists status, data. auto.
    + destruct body as [err|]; [|discriminate].
      destruct (get "error" (Some err)); [|discriminate].
      destruct (toString _); discriminate.
  - intros (status & data & -> & -> & -> & ->). reflexivity.
Qed.


